(** * Sheepshead: the rule engine and the game reducer

    A shallow embedding of [utils/types.ts], [utils/gameUtils.ts], of the
    reducer of [contexts/GameContext.tsx], of the computer players of
    [utils/aiUtils.ts] and of [updatePlayerStats] of [utils/storageUtils.ts],
    followed by the properties of the rule engine, of the phase machine, of
    the choices of the computer players and of the statistics.

    Conventions of the embedding:
    - a JavaScript [number] that holds an integer is a [Z]; [findIndex]
      answers [-1] when nothing matches, as in the source;
    - [a % n] is [NaN] for [n = 0]; an index is therefore an [option Z]
      whose [None] is [NaN], and reading an array at [NaN], at a negative
      index or past its end yields [undefined];
    - reading a property of [undefined] throws a [TypeError]; a function
      that can throw returns an [option] whose [None] is the exception;
    - an optional field ([isPicker?], [partner?], [leadSuit?]) is an
      [option]; [None] is the absent, falsy, value;
    - the values the reducer reads from its surroundings during one dispatch
      (the clock, the generated game id, the random source of the shuffle)
      are gathered in a record [Env] passed to the reducer;
    - [saveGameState] catches its own failures and returns nothing, so it
      leaves no trace in the embedding. *)

From Stdlib Require Import List ZArith Bool Lia Permutation Arith.
From Stdlib Require String.
Import ListNotations.

Import String.StringSyntax.

Abbreviation string := String.string.

(** The empty string ['']. *)
Abbreviation empty := String.EmptyString.

Local Open Scope string_scope.
Local Open Scope list_scope.
Local Open Scope Z_scope.

(* ------------------------------------------------------------------------- *)
(** ** JavaScript helpers *)

Module JS.

Section Arrays.
Context {A : Type}.

(** [xs.findIndex(f)] *)
Fixpoint findIndexFrom (f : A -> bool) (xs : list A) (i : Z) : Z :=
  match xs with
  | [] => -1
  | x :: xs' => if f x then i else findIndexFrom f xs' (i + 1)
  end.

Definition findIndex (f : A -> bool) (xs : list A) : Z :=
  findIndexFrom f xs 0.

(** [xs[i]] for an integer [i] *)
Definition at_ (xs : list A) (i : Z) : option A :=
  if i <? 0 then None else nth_error xs (Z.to_nat i).

(** [xs[i]] for an index that may be [NaN] *)
Definition atIdx (xs : list A) (i : option Z) : option A :=
  match i with
  | Some i => at_ xs i
  | None => None
  end.

(** [xs.map((x, idx) => f(x, idx))] *)
Fixpoint mapiFrom {B : Type} (f : A -> Z -> B) (xs : list A) (i : Z) : list B :=
  match xs with
  | [] => []
  | x :: xs' => f x i :: mapiFrom f xs' (i + 1)
  end.

Definition mapi {B : Type} (f : A -> Z -> B) (xs : list A) : list B :=
  mapiFrom f xs 0.

(** [xs.length] *)
Definition len (xs : list A) : Z := Z.of_nat (length xs).
End Arrays.

(** [a % n]: the remainder has the sign of [a]; [NaN] when [n] is zero. *)
Definition rem (a n : Z) : option Z :=
  if n =? 0 then None else Some (Z.rem a n).

(** [idx === k] for an index that may be [NaN] ([NaN === k] is false). *)
Definition idxEq (i : option Z) (k : Z) : bool :=
  match i with
  | Some i => i =? k
  | None => false
  end.

End JS.

(** A small error monad for the code that can throw. *)
Definition bindT {A B : Type} (m : option A) (k : A -> option B) : option B :=
  match m with
  | Some a => k a
  | None => None
  end.

Notation "'let?' x ':=' m 'in' k" := (bindT m (fun x => k))
  (at level 10, x name, m at level 100, k at level 200).

(* ------------------------------------------------------------------------- *)
(** ** [utils/types.ts] *)

Inductive Suit := CLUBS | SPADES | HEARTS | DIAMONDS.

Inductive Rank := SEVEN | EIGHT | NINE | TEN | JACK | QUEEN | KING | ACE.

Record Card := mkCard {
  suit : Suit;
  rank : Rank;
  value : Z;
  isTrump : bool
}.

Definition Suit_eqb (a b : Suit) : bool :=
  match a, b with
  | CLUBS, CLUBS | SPADES, SPADES | HEARTS, HEARTS | DIAMONDS, DIAMONDS => true
  | _, _ => false
  end.

Definition Rank_eqb (a b : Rank) : bool :=
  match a, b with
  | SEVEN, SEVEN | EIGHT, EIGHT | NINE, NINE | TEN, TEN
  | JACK, JACK | QUEEN, QUEEN | KING, KING | ACE, ACE => true
  | _, _ => false
  end.

Record Player := mkPlayer {
  id : string;
  name : string;
  avatar : option string;
  cards : list Card;
  score : Z;
  isDealer : bool;
  isPicker : option bool;
  partner : option string;
  tricksWon : list (list Card);
  isHuman : bool
}.

Inductive GamePhase :=
  DEALING | PICKING | BURYING | CALLING_PARTNER | PLAYING | SCORING | GAME_OVER.

Definition GamePhase_eqb (a b : GamePhase) : bool :=
  match a, b with
  | DEALING, DEALING | PICKING, PICKING | BURYING, BURYING
  | CALLING_PARTNER, CALLING_PARTNER | PLAYING, PLAYING
  | SCORING, SCORING | GAME_OVER, GAME_OVER => true
  | _, _ => false
  end.

(** The [data?: any] payloads the reducer writes into the log. *)
Inductive EventData :=
| DataGameId (gameId : string)
| DataLeaster (isLeaster : bool)
| DataCards (cs : list Card)
| DataPartner (partnerId : string)
| DataCard (c : Card)
| DataTrickNumber (n : Z)
| DataRound (roundNumber pickerTeamScore defenderTeamScore : Z) (isPicKerTeamWinner : bool)
| DataFinalScores (scores : list (string * Z)).

Record GameEvent := mkEvent {
  ev_type : string;
  ev_playerId : string;
  ev_timestamp : Z;
  ev_data : option EventData
}.

Record GameState := mkState {
  gameId : string;
  players : list Player;
  currentTurn : string;
  phase : GamePhase;
  deck : list Card;
  buried : list Card;
  currentTrick : list Card;
  leadSuit : option Suit;
  roundNumber : Z;
  trickNumber : Z;
  isLeaster : bool;
  isDoubler : bool;
  isReDoubler : bool;
  calledAce : option Card;
  log : list GameEvent
}.

(** Truthiness of the optional flag [isPicker?: boolean]. *)
Definition truthy (b : option bool) : bool :=
  match b with
  | Some true => true
  | _ => false
  end.

(* ------------------------------------------------------------------------- *)
(** ** [utils/gameUtils.ts] *)

Definition isCardTrump (r : Rank) (s : Suit) : bool :=
  Rank_eqb r QUEEN || Rank_eqb r JACK || Suit_eqb s DIAMONDS.

Definition getCardValue (r : Rank) (s : Suit) : Z :=
  match r with
  | ACE => 11
  | TEN => 10
  | KING => 4
  | QUEEN => 3
  | JACK => 2
  | _ => 0
  end.

Definition allSuits : list Suit := [CLUBS; SPADES; HEARTS; DIAMONDS].
Definition allRanks : list Rank := [SEVEN; EIGHT; NINE; TEN; JACK; QUEEN; KING; ACE].

Definition newCard (s : Suit) (r : Rank) : Card :=
  {| suit := s; rank := r; value := getCardValue r s; isTrump := isCardTrump r s |}.

(** The deck [initializeDeck] builds before it shuffles it. *)
Definition orderedDeck : list Card :=
  flat_map (fun s => map (fun r => newCard s r) allRanks) allSuits.

Definition getCardPower (card : Card) : Z :=
  if isTrump card then
    match rank card, suit card with
    | QUEEN, CLUBS => 31
    | QUEEN, SPADES => 30
    | QUEEN, HEARTS => 29
    | QUEEN, DIAMONDS => 28
    | JACK, CLUBS => 27
    | JACK, SPADES => 26
    | JACK, HEARTS => 25
    | JACK, DIAMONDS => 24
    | ACE, DIAMONDS => 23
    | TEN, DIAMONDS => 22
    | KING, DIAMONDS => 21
    | NINE, DIAMONDS => 20
    | EIGHT, DIAMONDS => 19
    | SEVEN, DIAMONDS => 18
    | _, _ => 0
    end
  else
    match rank card with
    | ACE => 7
    | TEN => 6
    | KING => 5
    | NINE => 2
    | EIGHT => 1
    | SEVEN => 0
    | _ => 0
    end.

(** [cards.reduce((total, card) => total + card.value, 0)] *)
Definition calculatePoints (cs : list Card) : Z :=
  fold_left (fun total card => total + value card) cs 0.

(** [player.cards.some(c => !c.isTrump && c.suit === leadSuit)] *)
Definition hasSuit (hand : list Card) (l : Suit) : bool :=
  existsb (fun c => negb (isTrump c) && Suit_eqb (suit c) l) hand.

Definition hasTrump (hand : list Card) : bool :=
  existsb (fun c => isTrump c) hand.

(** The condition of the first rejecting branch of [isValidPlay]. *)
Definition followSuitRejects (card : Card) (player : Player) (l : option Suit) : bool :=
  match l with
  | Some l =>
      negb (isTrump card) && hasSuit (cards player) l && negb (Suit_eqb (suit card) l)
  | None => false
  end.

(** The condition of the second rejecting branch of [isValidPlay]. *)
Definition forcedTrumpRejects (card : Card) (player : Player) (trick : list Card)
    (l : option Suit) : bool :=
  match l, trick with
  | Some _, lead :: _ =>
      isTrump lead && negb (isTrump card) && hasTrump (cards player)
  | _, _ => false
  end.

Definition isValidPlay (card : Card) (player : Player) (trick : list Card)
    (l : option Suit) : bool :=
  match trick with
  | [] => true
  | _ :: _ =>
      if followSuitRejects card player l then false
      else if forcedTrumpRejects card player trick l then false
      else true
  end.

(** The update test of the loop of [determineTrickWinner] (and of
    [chooseFollowCard]): the three branches assign the same thing. *)
Definition beats (leadSuit : Suit) (card winningCard : Card) : bool :=
  if isTrump card && negb (isTrump winningCard) then true
  else if isTrump card && isTrump winningCard
          && (getCardPower card >? getCardPower winningCard) then true
  else if negb (isTrump card) && negb (isTrump winningCard)
          && Suit_eqb (suit card) leadSuit
          && (getCardPower card >? getCardPower winningCard) then true
  else false.

(** The [for] loop of [determineTrickWinner], from index [i] on. *)
Fixpoint winnerLoop (leadSuit : Suit) (rest : list Card) (i : Z)
    (winningCard : Card) (winningIndex : Z) : Card * Z :=
  match rest with
  | [] => (winningCard, winningIndex)
  | card :: rest' =>
      if beats leadSuit card winningCard
      then winnerLoop leadSuit rest' (i + 1) card i
      else winnerLoop leadSuit rest' (i + 1) winningCard winningIndex
  end.

Definition determineTrickWinner (trick : list Card) (leadSuit : Suit)
    (players : list Player) : option string :=
  match trick with
  | [] => Some empty
  | first :: rest =>
      let '(_, winningIndex) := winnerLoop leadSuit rest 1 first 0 in
      let? played := JS.at_ players winningIndex in
      let startPlayerIndex :=
        JS.findIndex (fun p => String.eqb (id p) (id played)) players in
      let winnerIndex := JS.rem (startPlayerIndex + winningIndex) (JS.len players) in
      let? winner := JS.atIdx players winnerIndex in
      Some (id winner)
  end.

Record GameScore := mkScore {
  pickerTeamScore : Z;
  defenderTeamScore : Z;
  isPicKerTeamWinner : bool;
  pointsWon : Z
}.

(** [players.find(p => p.isPicker)] *)
Definition findPicker (ps : list Player) : option Player :=
  find (fun p => truthy (isPicker p)) ps.

(** [player.id === x] for an [x] that may be [undefined] *)
Definition idIs (p : Player) (x : option string) : bool :=
  match x with
  | Some x => String.eqb (id p) x
  | None => false
  end.

(** [players.find(p => p.isPicker)?.partner] *)
Definition pickersPartner (ps : list Player) : option string :=
  match findPicker ps with
  | Some picker => partner picker
  | None => None
  end.

(** The test that sends a player to [pickerTeam] in [calculateGameScore]. *)
Definition onPickerTeam (ps : list Player) (p : Player) : bool :=
  truthy (isPicker p) || idIs p (pickersPartner ps).

(** [team.forEach(player => player.tricksWon.forEach(trick => acc += calculatePoints(trick)))] *)
Definition addTeamPoints (acc : Z) (team : list Player) : Z :=
  fold_left
    (fun acc player =>
       fold_left (fun acc trick => acc + calculatePoints trick) (tricksWon player) acc)
    team acc.

Definition calculateGameScore (gameState : GameState) : GameScore :=
  let ps := players gameState in
  let pickerTeam := filter (onPickerTeam ps) ps in
  let defenderTeam := filter (fun p => negb (onPickerTeam ps p)) ps in
  let pickerTeamScore0 := addTeamPoints 0 pickerTeam in
  let defenderTeamScore := addTeamPoints 0 defenderTeam in
  let pickerTeamScore :=
    if JS.len (buried gameState) >? 0
    then pickerTeamScore0 + calculatePoints (buried gameState)
    else pickerTeamScore0 in
  let isPicKerTeamWinner := pickerTeamScore >=? 61 in
  {| pickerTeamScore := pickerTeamScore;
     defenderTeamScore := defenderTeamScore;
     isPicKerTeamWinner := isPicKerTeamWinner;
     pointsWon := if isPicKerTeamWinner then pickerTeamScore else defenderTeamScore |}.

(** *** Shuffling and dealing *)

(** [xs[i] = x] on an index inside the array *)
Fixpoint setNth {A : Type} (xs : list A) (i : nat) (x : A) : list A :=
  match xs, i with
  | [], _ => []
  | _ :: xs', O => x :: xs'
  | y :: xs', S i' => y :: setNth xs' i' x
  end.

(** [[xs[i], xs[j]] = [xs[j], xs[i]]] on indices inside the array *)
Definition swap {A : Type} (xs : list A) (i j : nat) : list A :=
  match nth_error xs i, nth_error xs j with
  | Some a, Some b => setNth (setNth xs i b) j a
  | _, _ => xs
  end.

(** The loop of [shuffle], [for (i = ...; i > 0; i--)]; [rand i] stands for
    the draw [Math.floor(Math.random() * (i + 1))] at step [i], an arbitrary
    index between [0] and [i]. *)
Fixpoint shuffleFrom (rand : nat -> nat) (i : nat) (shuffled : list Card) : list Card :=
  match i with
  | O => shuffled
  | S i' => shuffleFrom rand i' (swap shuffled i (Nat.modulo (rand i) (i + 1)))
  end.

Definition shuffle (rand : nat -> nat) (deck : list Card) : list Card :=
  shuffleFrom rand (length deck - 1) deck.

Definition initializeDeck (rand : nat -> nat) : list Card :=
  shuffle rand orderedDeck.

(** [updatedPlayers[playerIndex].cards.push(card)]. The push mutates the
    [cards] array of the player object; START_GAME gives every player an
    array of its own, so no two players share one. *)
Definition pushCard (ps : list Player) (playerIndex : option Z) (card : Card)
    : option (list Player) :=
  let? _ := JS.atIdx ps playerIndex in
  Some (JS.mapi
          (fun p i =>
             if JS.idxEq playerIndex i
             then {| id := id p; name := name p; avatar := avatar p;
                     cards := cards p ++ [card]; score := score p;
                     isDealer := isDealer p; isPicker := isPicker p;
                     partner := partner p; tricksWon := tricksWon p;
                     isHuman := isHuman p |}
             else p)
          ps).

(** One turn of the inner loop of [dealCards]; [players] is the array the
    function received, [st] the array being filled and the rest of the deck. *)
Definition dealOne (players : list Player) (st : list Player * list Card) (p : nat)
    : option (list Player * list Card) :=
  let '(updatedPlayers, deck) := st in
  let playerIndex :=
    JS.rem (JS.findIndex isDealer players + 1 + Z.of_nat p) (JS.len players) in
  match deck with
  | [] => Some (updatedPlayers, deck)
  | card :: deck' =>
      let? updatedPlayers' := pushCard updatedPlayers playerIndex card in
      Some (updatedPlayers', deck')
  end.

(** A [for] loop over [0 .. n-1] whose body can throw. *)
Fixpoint forEachM {S : Type} (body : S -> nat -> option S) (idxs : list nat) (st : S)
    : option S :=
  match idxs with
  | [] => Some st
  | i :: idxs' => let? st' := body st i in forEachM body idxs' st'
  end.

Definition dealCards (deck : list Card) (ps : list Player)
    : option (list Player * list Card) :=
  let numPlayers := length ps in
  let cardsPerPlayer := if (numPlayers =? 5)%nat then 6%nat else 10%nat in
  forEachM
    (fun st _ => forEachM (dealOne ps) (seq 0 numPlayers) st)
    (seq 0 cardsPerPlayer) (ps, deck).

(* ------------------------------------------------------------------------- *)
(** ** The reducer of [contexts/GameContext.tsx] *)

(** [Omit<Player, 'cards' | 'score' | 'isDealer' | 'tricksWon'>] *)
Record PlayerInit := mkPlayerInit {
  pi_id : string;
  pi_name : string;
  pi_avatar : option string;
  pi_isPicker : option bool;
  pi_partner : option string;
  pi_isHuman : bool
}.

Inductive ActionType :=
| START_GAME (players : list PlayerInit)
| PICK_BLIND (playerId : string)
| PASS_BLIND (playerId : string)
| BURY_CARDS (playerId : string) (cards : list Card)
| CALL_PARTNER (playerId : string) (partnerId : string)
| PLAY_CARD (playerId : string) (card : Card)
| NEXT_PLAYER
| END_TRICK
| END_ROUND
| END_GAME
| RESET_GAME
| LOAD_GAME (gameState : GameState).

(** What one dispatch reads from outside: [Date.now()], [uuidv4()] and the
    draws of [Math.random()] in [shuffle]. *)
Record Env := mkEnv {
  now : Z;
  uuid : string;
  rand : nat -> nat
}.

Definition initialState : GameState :=
  {| gameId := empty; players := []; currentTurn := empty; phase := GAME_OVER;
     deck := []; buried := []; currentTrick := []; leadSuit := None;
     roundNumber := 0; trickNumber := 0; isLeaster := false;
     isDoubler := false; isReDoubler := false; calledAce := None; log := [] |}.

(** Record updates, one per spread expression [{...x, field: v}] of the reducer. *)
Definition withCards (p : Player) (cs : list Card) : Player :=
  {| id := id p; name := name p; avatar := avatar p; cards := cs;
     score := score p; isDealer := isDealer p; isPicker := isPicker p;
     partner := partner p; tricksWon := tricksWon p; isHuman := isHuman p |}.

Definition withPicker (p : Player) (cs : list Card) : Player :=
  {| id := id p; name := name p; avatar := avatar p; cards := cs;
     score := score p; isDealer := isDealer p; isPicker := Some true;
     partner := partner p; tricksWon := tricksWon p; isHuman := isHuman p |}.

Definition withPartner (p : Player) (partnerId : string) : Player :=
  {| id := id p; name := name p; avatar := avatar p; cards := cards p;
     score := score p; isDealer := isDealer p; isPicker := isPicker p;
     partner := Some partnerId; tricksWon := tricksWon p; isHuman := isHuman p |}.

Definition withTricksWon (p : Player) (ts : list (list Card)) : Player :=
  {| id := id p; name := name p; avatar := avatar p; cards := cards p;
     score := score p; isDealer := isDealer p; isPicker := isPicker p;
     partner := partner p; tricksWon := ts; isHuman := isHuman p |}.

Definition withScore (p : Player) (sc : Z) : Player :=
  {| id := id p; name := name p; avatar := avatar p; cards := cards p;
     score := sc; isDealer := isDealer p; isPicker := isPicker p;
     partner := partner p; tricksWon := tricksWon p; isHuman := isHuman p |}.

Definition sameCard (a b : Card) : bool :=
  Suit_eqb (suit a) (suit b) && Rank_eqb (rank a) (rank b).

Definition event (type playerId : string) (env : Env) (data : option EventData) : GameEvent :=
  {| ev_type := type; ev_playerId := playerId; ev_timestamp := now env; ev_data := data |}.

Definition startGame (env : Env) (state : GameState) (newPlayers : list PlayerInit)
    : option GameState :=
  let deck := initializeDeck (rand env) in
  let initializedPlayers :=
    JS.mapi
      (fun player index =>
         {| id := pi_id player; name := pi_name player; avatar := pi_avatar player;
            cards := []; score := 0; isDealer := index =? 0;
            isPicker := pi_isPicker player; partner := pi_partner player;
            tricksWon := []; isHuman := pi_isHuman player |})
      newPlayers in
  let? dealt := dealCards deck initializedPlayers in
  let '(players, blind) := dealt in
  let startingPlayerIndex :=
    JS.rem (JS.findIndex isDealer players + 1) (JS.len players) in
  let? starting := JS.atIdx players startingPlayerIndex in
  Some {| gameId := uuid env; players := players; currentTurn := id starting;
          phase := PICKING; deck := blind; buried := []; currentTrick := [];
          leadSuit := leadSuit state;
          roundNumber := 1; trickNumber := 0; isLeaster := false;
          isDoubler := false; isReDoubler := false;
          calledAce := calledAce state;
          log := [event "GAME_STARTED" empty env (Some (DataGameId (uuid env)))] |}.

Definition pickBlind (env : Env) (state : GameState) (playerId : string) : option GameState :=
  let playerIndex := JS.findIndex (fun p => String.eqb (id p) playerId) (players state) in
  if (playerIndex =? -1) || negb (GamePhase_eqb (phase state) PICKING) then Some state
  else
    let updatedPlayers :=
      JS.mapi
        (fun player idx =>
           if idx =? playerIndex
           then withPicker player (cards player ++ deck state)
           else player)
        (players state) in
    Some {| gameId := gameId state; players := updatedPlayers;
            currentTurn := currentTurn state; phase := BURYING; deck := [];
            buried := buried state; currentTrick := currentTrick state;
            leadSuit := leadSuit state; roundNumber := roundNumber state;
            trickNumber := trickNumber state; isLeaster := isLeaster state;
            isDoubler := isDoubler state; isReDoubler := isReDoubler state;
            calledAce := calledAce state;
            log := log state ++ [event "PICKED_BLIND" playerId env None] |}.

Definition passBlind (env : Env) (state : GameState) (playerId : string) : option GameState :=
  if negb (GamePhase_eqb (phase state) PICKING) then Some state
  else
    let currentPlayerIndex :=
      JS.findIndex (fun p => String.eqb (id p) playerId) (players state) in
    let nextPlayerIndex := JS.rem (currentPlayerIndex + 1) (JS.len (players state)) in
    let nextPlayer := JS.atIdx (players state) nextPlayerIndex in
    let isLastPlayer :=
      JS.idxEq nextPlayerIndex (JS.findIndex isDealer (players state)) in
    if isLastPlayer then
      let? nextPlayer := nextPlayer in
      Some {| gameId := gameId state; players := players state;
              currentTurn := id nextPlayer; phase := PLAYING; deck := deck state;
              buried := buried state; currentTrick := currentTrick state;
              leadSuit := leadSuit state; roundNumber := roundNumber state;
              trickNumber := trickNumber state; isLeaster := true;
              isDoubler := isDoubler state; isReDoubler := isReDoubler state;
              calledAce := calledAce state;
              log := log state
                     ++ [event "ALL_PASSED" playerId env (Some (DataLeaster true))] |}
    else
      let? nextPlayer := nextPlayer in
      Some {| gameId := gameId state; players := players state;
              currentTurn := id nextPlayer; phase := phase state; deck := deck state;
              buried := buried state; currentTrick := currentTrick state;
              leadSuit := leadSuit state; roundNumber := roundNumber state;
              trickNumber := trickNumber state; isLeaster := isLeaster state;
              isDoubler := isDoubler state; isReDoubler := isReDoubler state;
              calledAce := calledAce state;
              log := log state ++ [event "PASSED_BLIND" playerId env None] |}.

Definition buryCards (env : Env) (state : GameState) (playerId : string)
    (toBury : list Card) : option GameState :=
  if negb (GamePhase_eqb (phase state) BURYING) || negb (JS.len toBury =? 2)
  then Some state
  else
    let pickerIndex :=
      JS.findIndex (fun p => String.eqb (id p) playerId && truthy (isPicker p))
        (players state) in
    if pickerIndex =? -1 then Some state
    else
      let? picker := JS.at_ (players state) pickerIndex in
      let pickerCards := cards picker in
      let remainingCards :=
        filter (fun card => negb (existsb (fun c => sameCard c card) toBury))
          pickerCards in
      let updatedPlayers :=
        JS.mapi
          (fun player idx =>
             if idx =? pickerIndex then withCards player remainingCards else player)
          (players state) in
      let shouldCallPartner := JS.len updatedPlayers =? 5 in
      Some {| gameId := gameId state; players := updatedPlayers;
              currentTurn := currentTurn state;
              phase := if shouldCallPartner then CALLING_PARTNER else PLAYING;
              deck := deck state; buried := toBury;
              currentTrick := currentTrick state;
              leadSuit := leadSuit state; roundNumber := roundNumber state;
              trickNumber := trickNumber state; isLeaster := isLeaster state;
              isDoubler := isDoubler state; isReDoubler := isReDoubler state;
              calledAce := calledAce state;
              log := log state
                     ++ [event "BURIED_CARDS" playerId env (Some (DataCards toBury))] |}.

Definition callPartner (env : Env) (state : GameState) (playerId partnerId : string)
    : option GameState :=
  if negb (GamePhase_eqb (phase state) CALLING_PARTNER) then Some state
  else
    let pickerIndex := JS.findIndex (fun p => truthy (isPicker p)) (players state) in
    if pickerIndex =? -1 then Some state
    else
      let? picker := JS.at_ (players state) pickerIndex in
      if negb (String.eqb (id picker) playerId) then Some state
      else
        let updatedPlayers :=
          JS.mapi
            (fun player idx =>
               if idx =? pickerIndex then withPartner player partnerId else player)
            (players state) in
        Some {| gameId := gameId state; players := updatedPlayers;
                currentTurn := currentTurn state; phase := PLAYING;
                deck := deck state; buried := buried state;
                currentTrick := currentTrick state;
                leadSuit := leadSuit state; roundNumber := roundNumber state;
                trickNumber := trickNumber state; isLeaster := isLeaster state;
                isDoubler := isDoubler state; isReDoubler := isReDoubler state;
                calledAce := calledAce state;
                log := log state
                       ++ [event "CALLED_PARTNER" playerId env
                             (Some (DataPartner partnerId))] |}.

(** [p.tricksWon.reduce((total, trick) => total + calculatePoints(trick), 0)] *)
Definition trickPoints (p : Player) : Z :=
  fold_left (fun total trick => total + calculatePoints trick) (tricksWon p) 0.

(** The [forEach] of the leaster branch: the running [maxPoints] and
    [leasterWinnerId]. *)
Definition leasterScan (ps : list Player) : Z * string :=
  fold_left
    (fun acc p =>
       let '(maxPoints, leasterWinnerId) := acc in
       if trickPoints p >? maxPoints then (trickPoints p, id p)
       else (maxPoints, leasterWinnerId))
    ps (0, empty).

(** The callback of [state.players.map] in END_ROUND. The first [match]
    yields the picker exactly when [!state.isLeaster && picker] holds. *)
Definition scorePlayer (state : GameState) (sc : GameScore) (player : Player) : Player :=
  match (if isLeaster state then None else findPicker (players state)) with
  | Some picker =>
      let isPickerTeam := truthy (isPicker player) || idIs player (partner picker) in
      if (isPickerTeam && isPicKerTeamWinner sc)
         || (negb isPickerTeam && negb (isPicKerTeamWinner sc))
      then withScore player
             (score player
              + (if isPickerTeam then pickerTeamScore sc else defenderTeamScore sc))
      else player
  | None =>
      if isLeaster state then
        let '(maxPoints, leasterWinnerId) := leasterScan (players state) in
        if String.eqb (id player) leasterWinnerId
        then withScore player (score player + maxPoints)
        else player
      else player
  end.

Definition endRound (env : Env) (state : GameState) : option GameState :=
  let sc := calculateGameScore state in
  let updatedPlayers := map (scorePlayer state sc) (players state) in
  let newDealerIndex :=
    JS.rem (JS.findIndex isDealer (players state) + 1) (JS.len (players state)) in
  let rotatedPlayers :=
    JS.mapi
      (fun player idx =>
         {| id := id player; name := name player; avatar := avatar player;
            cards := []; score := score player;
            isDealer := JS.idxEq newDealerIndex idx;
            isPicker := Some false; partner := None; tricksWon := [];
            isHuman := isHuman player |})
      updatedPlayers in
  let newRoundNumber := roundNumber state + 1 in
  let? newDealer := JS.atIdx rotatedPlayers newDealerIndex in
  Some {| gameId := gameId state; players := rotatedPlayers;
          currentTurn := id newDealer; phase := SCORING;
          deck := deck state; buried := buried state;
          currentTrick := currentTrick state; leadSuit := leadSuit state;
          roundNumber := newRoundNumber; trickNumber := 0; isLeaster := false;
          isDoubler := isDoubler state; isReDoubler := isReDoubler state;
          calledAce := calledAce state;
          log := log state
                 ++ [event "ROUND_COMPLETED" empty env
                       (Some (DataRound (roundNumber state) (pickerTeamScore sc)
                                (defenderTeamScore sc) (isPicKerTeamWinner sc)))] |}.

(** The [updatedPlayers] and the [newState] of END_TRICK. *)
Definition awardTrick (state : GameState) (winnerId : string) : list Player :=
  map
    (fun player =>
       if String.eqb (id player) winnerId
       then withTricksWon player (tricksWon player ++ [currentTrick state])
       else player)
    (players state).

Definition trickResolved (env : Env) (state : GameState) (winnerId : string) : GameState :=
  {| gameId := gameId state; players := awardTrick state winnerId;
     currentTurn := winnerId; phase := phase state;
     deck := deck state; buried := buried state;
     currentTrick := []; leadSuit := None;
     roundNumber := roundNumber state; trickNumber := trickNumber state + 1;
     isLeaster := isLeaster state;
     isDoubler := isDoubler state; isReDoubler := isReDoubler state;
     calledAce := calledAce state;
     log := log state
            ++ [event "TRICK_COMPLETED" winnerId env
                  (Some (DataTrickNumber (trickNumber state + 1)))] |}.

Definition endTrick (env : Env) (state : GameState) : option GameState :=
  if negb (JS.len (currentTrick state) =? JS.len (players state)) then Some state
  else
    let? winnerId :=
      determineTrickWinner (currentTrick state)
        (match leadSuit state with Some l => l | None => CLUBS end)
        (players state) in
    let updatedPlayers := awardTrick state winnerId in
    let? first := JS.at_ updatedPlayers 0 in
    let isHandComplete := JS.len (cards first) =? 0 in
    let newState := trickResolved env state winnerId in
    if isHandComplete then endRound env newState else Some newState.

(** The [updatedPlayers] and the [newState] of PLAY_CARD. *)
Definition takeFromHand (state : GameState) (playerIndex : Z) (card : Card) : list Player :=
  JS.mapi
    (fun p idx =>
       if idx =? playerIndex
       then withCards p (filter (fun c => negb (sameCard c card)) (cards p))
       else p)
    (players state).

Definition cardPlayed (env : Env) (state : GameState) (playerIndex : Z)
    (playerId : string) (card : Card) (nextPlayer : Player) : GameState :=
  {| gameId := gameId state; players := takeFromHand state playerIndex card;
     currentTurn := id nextPlayer; phase := phase state;
     deck := deck state; buried := buried state;
     currentTrick := currentTrick state ++ [card];
     leadSuit :=
       if (JS.len (currentTrick state) =? 0) && negb (isTrump card)
       then Some (suit card)
       else leadSuit state;
     roundNumber := roundNumber state; trickNumber := trickNumber state;
     isLeaster := isLeaster state;
     isDoubler := isDoubler state; isReDoubler := isReDoubler state;
     calledAce := calledAce state;
     log := log state
            ++ [event "PLAYED_CARD" playerId env (Some (DataCard card))] |}.

Definition playCard (env : Env) (state : GameState) (playerId : string) (card : Card)
    : option GameState :=
  if negb (GamePhase_eqb (phase state) PLAYING)
     || negb (String.eqb (currentTurn state) playerId)
  then Some state
  else
    let playerIndex :=
      JS.findIndex (fun p => String.eqb (id p) playerId) (players state) in
    if playerIndex =? -1 then Some state
    else
      let? player := JS.at_ (players state) playerIndex in
      if negb (isValidPlay card player (currentTrick state) (leadSuit state))
      then Some state
      else
        let nextPlayerIndex := JS.rem (playerIndex + 1) (JS.len (players state)) in
        let? nextPlayer := JS.atIdx (players state) nextPlayerIndex in
        let newState := cardPlayed env state playerIndex playerId card nextPlayer in
        if JS.len (currentTrick newState) =? JS.len (players state)
        then endTrick env newState
        else Some newState.

Definition nextPlayerTurn (state : GameState) : option GameState :=
  let currentPlayerIndex :=
    JS.findIndex (fun p => String.eqb (id p) (currentTurn state)) (players state) in
  if currentPlayerIndex =? -1 then Some state
  else
    let nextPlayerIndex := JS.rem (currentPlayerIndex + 1) (JS.len (players state)) in
    let? nextPlayer := JS.atIdx (players state) nextPlayerIndex in
    Some {| gameId := gameId state; players := players state;
            currentTurn := id nextPlayer; phase := phase state;
            deck := deck state; buried := buried state;
            currentTrick := currentTrick state; leadSuit := leadSuit state;
            roundNumber := roundNumber state; trickNumber := trickNumber state;
            isLeaster := isLeaster state;
            isDoubler := isDoubler state; isReDoubler := isReDoubler state;
            calledAce := calledAce state; log := log state |}.

Definition endGame (env : Env) (state : GameState) : option GameState :=
  Some {| gameId := gameId state; players := players state;
          currentTurn := currentTurn state; phase := GAME_OVER;
          deck := deck state; buried := buried state;
          currentTrick := currentTrick state; leadSuit := leadSuit state;
          roundNumber := roundNumber state; trickNumber := trickNumber state;
          isLeaster := isLeaster state;
          isDoubler := isDoubler state; isReDoubler := isReDoubler state;
          calledAce := calledAce state;
          log := log state
                 ++ [event "GAME_ENDED" empty env
                       (Some (DataFinalScores
                                (map (fun p => (id p, score p)) (players state))))] |}.

(** [gameReducer]; its two recursive calls (PLAY_CARD into END_TRICK, END_TRICK
    into END_ROUND) are the calls of [endTrick] and [endRound] above. *)
Definition gameReducer (env : Env) (state : GameState) (action : ActionType)
    : option GameState :=
  match action with
  | START_GAME newPlayers => startGame env state newPlayers
  | PICK_BLIND playerId => pickBlind env state playerId
  | PASS_BLIND playerId => passBlind env state playerId
  | BURY_CARDS playerId toBury => buryCards env state playerId toBury
  | CALL_PARTNER playerId partnerId => callPartner env state playerId partnerId
  | PLAY_CARD playerId card => playCard env state playerId card
  | NEXT_PLAYER => nextPlayerTurn state
  | END_TRICK => endTrick env state
  | END_ROUND => endRound env state
  | END_GAME => endGame env state
  | RESET_GAME => Some initialState
  | LOAD_GAME gameState => Some gameState
  end.

(* ------------------------------------------------------------------------- *)
(** ** [utils/aiUtils.ts] *)

(** [xs.sort(compare)]. The sort of JavaScript is stable, and for a
    comparator that is a consistent ordering (each comparator of this file
    compares numeric keys, lexicographically in [chooseBuryCards]) the sorted
    array is fully determined: it is what the stable insertion sort yields. *)
Fixpoint insertBy {A : Type} (compare : A -> A -> Z) (x : A) (sorted : list A) : list A :=
  match sorted with
  | [] => [x]
  | y :: ys => if compare x y <=? 0 then x :: sorted else y :: insertBy compare x ys
  end.

Fixpoint sortBy {A : Type} (compare : A -> A -> Z) (xs : list A) : list A :=
  match xs with
  | [] => []
  | x :: xs' => insertBy compare x (sortBy compare xs')
  end.

(** [xs[0]], which is [undefined] on an empty array *)
Definition first {A : Type} (xs : list A) : option A := hd_error xs.

(** The bonus [evaluateHandStrength] grants a trump card. *)
Definition trumpBonus (card : Card) : Z :=
  let power := getCardPower card in
  if power >? 27 then 5
  else if power >? 23 then 3
  else if power >? 18 then 1
  else 0.

(** The counters [suitCounts] of [evaluateHandStrength], in the order of
    their keys: clubs, spades, hearts. *)
Definition countPlain (counts : Z * Z * Z) (card : Card) : Z * Z * Z :=
  let '(clubs, spades, hearts) := counts in
  if negb (isTrump card) then
    match suit card with
    | CLUBS => (clubs + 1, spades, hearts)
    | SPADES => (clubs, spades + 1, hearts)
    | HEARTS => (clubs, spades, hearts + 1)
    | DIAMONDS => counts
    end
  else counts.

Definition evaluateHandStrength (cards : list Card) : Z :=
  let score := 0 in
  let trumpCards := filter isTrump cards in
  let score := score + JS.len trumpCards * 3 in
  let score := fold_left (fun score card => score + trumpBonus card) trumpCards score in
  let score :=
    fold_left
      (fun score card =>
         if Rank_eqb (rank card) ACE && negb (isTrump card) then score + 2
         else if Rank_eqb (rank card) TEN && negb (isTrump card) then score + 1
         else score)
      cards score in
  let '(clubs, spades, hearts) := fold_left countPlain cards (0, 0, 0) in
  fold_left (fun score count => if count =? 1 then score - 2 else score)
    [clubs; spades; hearts] score.

Definition shouldPickBlind (player : Player) (gameState : GameState) : bool :=
  let handStrength := evaluateHandStrength (cards player) in
  if JS.len (players gameState) =? 3 then handStrength >=? 10
  else if JS.len (players gameState) =? 5 then handStrength >=? 14
  else handStrength >=? 12.

(** The comparator of [chooseBuryCards]. *)
Definition buryOrder (a b : Card) : Z :=
  if isTrump a && negb (isTrump b) then 1
  else if negb (isTrump a) && isTrump b then -1
  else if negb (isTrump a) && negb (isTrump b) then value a - value b
  else getCardPower a - getCardPower b.

Definition chooseBuryCards (player : Player) (blind : list Card) : list Card :=
  let allCards := cards player ++ blind in
  let sortedCards := sortBy buryOrder allCards in
  let candidatesToBury := firstn 4 sortedCards in
  let zeroPointCards := filter (fun card => value card =? 0) candidatesToBury in
  if JS.len zeroPointCards >=? 2 then firstn 2 zeroPointCards
  else firstn 2 candidatesToBury.

(** [isPlayerOnSameTeam]; [player1] is [undefined] when the caller read it
    past the end of the players, and reading its flag then throws. *)
Definition isPlayerOnSameTeam (player1 : option Player) (player2 : Player)
    (gameState : GameState) : option bool :=
  match findPicker (players gameState) with
  | None => Some false
  | Some picker =>
      let? player1 := player1 in
      Some (((truthy (isPicker player1) || idIs player1 (partner picker))
             && (truthy (isPicker player2) || idIs player2 (partner picker)))
            || (negb (truthy (isPicker player1)) && negb (idIs player1 (partner picker))
                && negb (truthy (isPicker player2))
                && negb (idIs player2 (partner picker))))
  end.

(** [card.suit === leadSuit] for a lead suit that may be [undefined] *)
Definition suitIs (card : Card) (leadSuit : option Suit) : bool :=
  match leadSuit with
  | Some l => Suit_eqb (suit card) l
  | None => false
  end.

(** The test of [chooseFollowCard] for a card that beats [highestCard]. *)
Definition overtakes (leadSuit : option Suit) (card highestCard : Card) : bool :=
  (isTrump card && negb (isTrump highestCard))
  || (isTrump card && isTrump highestCard
      && (getCardPower card >? getCardPower highestCard))
  || (negb (isTrump card) && negb (isTrump highestCard) && suitIs card leadSuit
      && (getCardPower card >? getCardPower highestCard)).

(** The loop of [chooseFollowCard] over [currentTrick] from index [i] on: the
    highest card and the position it was found at. *)
Fixpoint highestLoop (leadSuit : option Suit) (rest : list Card) (i : Z)
    (highestCard : Card) (highestIndex : Z) : Card * Z :=
  match rest with
  | [] => (highestCard, highestIndex)
  | card :: rest' =>
      if overtakes leadSuit card highestCard
      then highestLoop leadSuit rest' (i + 1) card i
      else highestLoop leadSuit rest' (i + 1) highestCard highestIndex
  end.

(** [player.id === gameState.players.find(p => p.isPicker)?.partner] *)
Definition isPartnerOf (player : Player) (gameState : GameState) : bool :=
  idIs player (pickersPartner (players gameState)).

(** The plain cards of one of the three suits [chooseLeadCard] counts. *)
Definition plainOf (l : Suit) (validPlays : list Card) : list Card :=
  filter (fun card => negb (isTrump card) && Suit_eqb (suit card) l) validPlays.

Definition chooseLeadCard (player : Player) (validPlays : list Card)
    (gameState : GameState) : option Card :=
  let isPicker := truthy (isPicker player) in
  let isPartner := isPartnerOf player gameState in
  let byPower := fun a b => getCardPower a - getCardPower b in
  let fallback := first (sortBy byPower validPlays) in
  if isPicker || isPartner then
    let strongTrump :=
      first (sortBy (fun a b => getCardPower b - getCardPower a)
               (filter isTrump validPlays)) in
    if match strongTrump with
       | Some strong => getCardPower strong >? 25
       | None => false
       end
    then strongTrump
    else
      let aces :=
        filter (fun card => negb (isTrump card) && Rank_eqb (rank card) ACE)
          validPlays in
      if JS.len aces >? 0 then first aces
      else
        let tens :=
          filter (fun card => negb (isTrump card) && Rank_eqb (rank card) TEN)
            validPlays in
        if JS.len tens >? 0 then first tens else fallback
  else
    if JS.len (plainOf CLUBS validPlays) =? 1 then first (plainOf CLUBS validPlays)
    else if JS.len (plainOf SPADES validPlays) =? 1 then first (plainOf SPADES validPlays)
    else if JS.len (plainOf HEARTS validPlays) =? 1 then first (plainOf HEARTS validPlays)
    else
      let lowCards :=
        sortBy byPower
          (filter (fun card => negb (isTrump card) && (value card =? 0)) validPlays) in
      if JS.len lowCards >? 0 then first lowCards else fallback.

(** [chooseFollowCard], which its one caller reaches with a card in the
    trick: [lead] is [currentTrick[0]] and [rest] what follows. The cards of
    a trick are distinct objects, so that [currentTrick.indexOf(highestCard)]
    is the position at which the loop found the highest card. The outer
    [option] is the exception, the inner one [undefined]. *)
Definition chooseFollowCard (player : Player) (validPlays : list Card)
    (gameState : GameState) (lead : Card) (rest : list Card) : option (option Card) :=
  let leadSuit := leadSuit gameState in
  let currentTrick := lead :: rest in
  let isPicker := truthy (isPicker player) in
  let isPartner := isPartnerOf player gameState in
  let '(highestCard, highestIndex) := highestLoop leadSuit rest 1 lead 0 in
  let? isTeamWinning :=
    isPlayerOnSameTeam (JS.at_ (players gameState) highestIndex) player gameState in
  let byValue := fun a b => value a - value b in
  if isTeamWinning then Some (first (sortBy byValue validPlays))
  else
    let trickValue := calculatePoints currentTrick in
    let canWin := existsb (fun card => overtakes leadSuit card highestCard) validPlays in
    if (isPicker || isPartner || (trickValue >=? 10)) && canWin then
      let winningCards :=
        sortBy (fun a b => getCardPower a - getCardPower b)
          (filter (fun card => overtakes leadSuit card highestCard) validPlays) in
      Some (first winningCards)
    else Some (first (sortBy byValue validPlays)).

Definition chooseCardToPlay (player : Player) (gameState : GameState)
    : option (option Card) :=
  let validPlays :=
    filter
      (fun card => isValidPlay card player (currentTrick gameState) (leadSuit gameState))
      (cards player) in
  if JS.len validPlays =? 1 then Some (first validPlays)
  else
    match currentTrick gameState with
    | [] => Some (chooseLeadCard player validPlays gameState)
    | lead :: rest => chooseFollowCard player validPlays gameState lead rest
    end.

(** [isValidCardPlay] of the game context. *)
Definition isValidCardPlay (state : GameState) (playerId : string) (card : Card) : bool :=
  match find (fun p => String.eqb (id p) playerId) (players state) with
  | None => false
  | Some player => isValidPlay card player (currentTrick state) (leadSuit state)
  end.

(* ------------------------------------------------------------------------- *)
(** ** [utils/storageUtils.ts] *)

Module Stats.

Record PlayerStats := mkPlayerStats {
  playerId : string;
  gamesPlayed : Z;
  wins : Z;
  losses : Z;
  pickerWins : Z;
  pickerLosses : Z;
  defenderWins : Z;
  defenderLosses : Z;
  partnerWins : Z;
  soloWins : Z;
  soloLosses : Z;
  leasterWins : Z;
  schneiders : Z;
  schneidereds : Z;
  totalPointsWon : Z;
  totalPointsLost : Z
}.

Record GameResult := mkGameResult {
  gameId : string;
  datePlayed : Z;
  players : list string;
  picker : string;
  partner : option string;
  pickerTeamScore : Z;
  defenderTeamScore : Z;
  isLeaster : bool;
  isDoubled : bool;
  isReDoubled : bool;
  isSolo : bool
}.

(** [gameResult.partner && playerId === gameResult.partner]; an empty
    string is falsy as a missing one is. *)
Definition isPartner (gameResult : GameResult) (playerId : string) : bool :=
  match partner gameResult with
  | Some x => negb (String.eqb x empty) && String.eqb playerId x
  | None => false
  end.

Definition pickerTeam (gameResult : GameResult) : list string :=
  match partner gameResult with
  | Some x =>
      if negb (String.eqb x empty) then [picker gameResult; x] else [picker gameResult]
  | None => [picker gameResult]
  end.

Definition pickerTeamWon (gameResult : GameResult) : bool :=
  pickerTeamScore gameResult >? defenderTeamScore gameResult.

(** The stats created for a player who has none yet. *)
Definition newStats (playerId : string) : PlayerStats :=
  {| playerId := playerId; gamesPlayed := 0; wins := 0; losses := 0;
     pickerWins := 0; pickerLosses := 0; defenderWins := 0; defenderLosses := 0;
     partnerWins := 0; soloWins := 0; soloLosses := 0; leasterWins := 0;
     schneiders := 0; schneidereds := 0; totalPointsWon := 0; totalPointsLost := 0 |}.

(** [n++] under a condition, [n += k] under a condition *)
Definition inc (b : bool) (n : Z) : Z := if b then n + 1 else n.
Definition add (b : bool) (k n : Z) : Z := if b then n + k else n.

(** The increments of one turn of the [forEach] on the stats of the player;
    each counter is touched at most once in a turn. *)
Definition count (gameResult : GameResult) (playerId : string) (playerStats : PlayerStats)
    : PlayerStats :=
  let isPickerTeam := existsb (String.eqb playerId) (pickerTeam gameResult) in
  let won := pickerTeamWon gameResult in
  let isWinner := (isPickerTeam && won) || (negb isPickerTeam && negb won) in
  let asPicker := String.eqb playerId (picker gameResult) in
  let asPartner := negb asPicker && isPartner gameResult playerId in
  let asDefender := negb asPicker && negb (isPartner gameResult playerId) in
  {| playerId := Stats.playerId playerStats;
     gamesPlayed := gamesPlayed playerStats + 1;
     wins := inc isWinner (wins playerStats);
     losses := inc (negb isWinner) (losses playerStats);
     pickerWins := inc (asPicker && won) (pickerWins playerStats);
     pickerLosses := inc (asPicker && negb won) (pickerLosses playerStats);
     defenderWins := inc (asDefender && negb won) (defenderWins playerStats);
     defenderLosses := inc (asDefender && won) (defenderLosses playerStats);
     partnerWins := inc (asPartner && won) (partnerWins playerStats);
     soloWins := inc (asPicker && won && isSolo gameResult) (soloWins playerStats);
     soloLosses :=
       inc (asPicker && negb won && isSolo gameResult) (soloLosses playerStats);
     leasterWins := inc (isLeaster gameResult && isWinner) (leasterWins playerStats);
     schneiders :=
       inc (asPicker && (defenderTeamScore gameResult =? 0)) (schneiders playerStats);
     schneidereds :=
       inc (asPicker && (pickerTeamScore gameResult =? 0)) (schneidereds playerStats);
     totalPointsWon :=
       add isWinner
         (if isPickerTeam then pickerTeamScore gameResult
          else defenderTeamScore gameResult)
         (totalPointsWon playerStats);
     totalPointsLost :=
       add (negb isWinner)
         (if isPickerTeam then defenderTeamScore gameResult
          else pickerTeamScore gameResult)
         (totalPointsLost playerStats) |}.

(** One turn of the [forEach]: [find] answers the object that sits in
    [allStats], a new object is pushed before it is counted on, so the
    increments land in the array either way. *)
Definition touch (gameResult : GameResult) (allStats : list PlayerStats)
    (playerId : string) : list PlayerStats :=
  let found :=
    JS.findIndex (fun stats => String.eqb (Stats.playerId stats) playerId) allStats in
  if found =? -1 then allStats ++ [count gameResult playerId (newStats playerId)]
  else
    JS.mapi
      (fun stats idx => if idx =? found then count gameResult playerId stats else stats)
      allStats.

(** [updatePlayerStats]: from the array [loadPlayerStats] answered to the
    array handed to [savePlayerStats]. *)
Definition updatePlayerStats (allStats : list PlayerStats) (gameResult : GameResult)
    : list PlayerStats :=
  fold_left (touch gameResult) (players gameResult) allStats.

End Stats.

(* ------------------------------------------------------------------------- *)
(** ** Vocabulary of the properties *)

Fixpoint sumZ (xs : list Z) : Z :=
  match xs with
  | [] => 0
  | x :: xs' => x + sumZ xs'
  end.

(** The position of the first element that satisfies [f], counted in [nat]. *)
Fixpoint indexOf {A : Type} (f : A -> bool) (xs : list A) : option nat :=
  match xs with
  | [] => None
  | x :: xs' => if f x then Some O else option_map S (indexOf f xs')
  end.

(** Replace the element at position [k], if there is one. *)
Definition updateAt {A : Type} (g : A -> A) (k : nat) (xs : list A) : list A :=
  match nth_error xs k with
  | Some x => firstn k xs ++ g x :: skipn (S k) xs
  | None => xs
  end.

(** Points of a pile of cards, of the tricks a player won, of a team. *)
Definition cardPoints (cs : list Card) : Z := sumZ (map value cs).
Definition playerPoints (p : Player) : Z := sumZ (map cardPoints (tricksWon p)).
Definition teamPoints (team : list Player) : Z := sumZ (map playerPoints team).

Definition pickerTeamOf (ps : list Player) : list Player :=
  filter (onPickerTeam ps) ps.
Definition defenderTeamOf (ps : list Player) : list Player :=
  filter (fun p => negb (onPickerTeam ps p)) ps.

(** The cards of a table, pile after pile. *)
Definition gather (pile : Player -> list Card) (ps : list Player) : list Card :=
  concat (map pile ps).

(** The cards in the hands. *)
Definition handCards (ps : list Player) : list Card := gather cards ps.

(** The cards lying in the tricks a player won, and all of them. *)
Definition wonPile (p : Player) : list Card := concat (tricksWon p).
Definition wonCards (ps : list Player) : list Card := gather wonPile ps.

(** A card as [initializeDeck] builds it. *)
Definition wfCard (c : Card) : Prop :=
  value c = getCardValue (rank c) (suit c)
  /\ isTrump c = isCardTrump (rank c) (suit c).

(** Sample cards and players. *)
Definition c_ (s : Suit) (r : Rank) : Card := newCard s r.

Definition seat (i : string) (hand : list Card) : Player :=
  {| id := i; name := i; avatar := None; cards := hand; score := 0;
     isDealer := false; isPicker := None; partner := None; tricksWon := [];
     isHuman := false |}.

(** The winning card of a trick in the words of the rules: the strongest
    trump of the trick, or, when the trick holds no trump, the strongest
    card of the lead suit. *)
Definition winningCardOf (trick : list Card) (leadSuit : Suit) (w : Card) : Prop :=
  In w trick
  /\ (forall c, In c trick -> isTrump c = true ->
        isTrump w = true /\ getCardPower c <= getCardPower w)
  /\ ((forall c, In c trick -> isTrump c = false) ->
        suit w = leadSuit
        /\ forall c, In c trick -> suit c = leadSuit ->
             getCardPower c <= getCardPower w).

(** The loop invariant of [determineTrickWinner] over the cards seen so far. *)
Definition bestSoFar (leadSuit : Suit) (seen : list Card) (w : Card) : Prop :=
  In w seen
  /\ (forall c, In c seen -> isTrump c = true ->
        isTrump w = true /\ getCardPower c <= getCardPower w)
  /\ (isTrump w = false ->
        suit w = leadSuit
        /\ forall c, In c seen -> suit c = leadSuit ->
             getCardPower c <= getCardPower w).

(** The position of the winning card of a non-empty trick, as the loop of
    [determineTrickWinner] leaves it in [winningIndex]. *)
Definition winningIndexOf (trick : list Card) (leadSuit : Suit) : Z :=
  match trick with
  | [] => 0
  | first :: rest => snd (winnerLoop leadSuit rest 1 first 0)
  end.

Definition trick_7A8 : list Card := [c_ CLUBS SEVEN; c_ CLUBS ACE; c_ CLUBS EIGHT].
Definition seats3 : list Player := [seat "p0" []; seat "p1" []; seat "p2" []].

(** The two sides in the words of the rules, stated without the test of
    the code: a player sides with the picker when it carries the picker
    flag, or when its id is the partner named by the first player of the
    table who carries the flag. *)
Definition flagged (p : Player) : Prop := isPicker p = Some true.

Definition firstFlagged (ps : list Player) (picker : Player) : Prop :=
  exists before after,
    ps = before ++ picker :: after
    /\ flagged picker
    /\ forall q, In q before -> ~ flagged q.

Definition sidesWithPicker (ps : list Player) (p : Player) : Prop :=
  flagged p
  \/ exists picker, firstFlagged ps picker /\ partner picker = Some (id p).

(** [team] holds the elements that satisfy [P] and [others] those that do
    not, both in the order of the list. *)
Inductive splitBy (P : Player -> Prop)
  : list Player -> list Player -> list Player -> Prop :=
| splitBy_nil : splitBy P [] [] []
| splitBy_in (p : Player) (ps team others : list Player) :
    P p -> splitBy P ps team others -> splitBy P (p :: ps) (p :: team) others
| splitBy_out (p : Player) (ps team others : list Player) :
    ~ P p -> splitBy P ps team others -> splitBy P (p :: ps) team (p :: others).

(** The picker's side and the defenders of a table. *)
Definition teamsOf (s : GameState) (pickerSide defenders : list Player) : Prop :=
  splitBy (sidesWithPicker (players s)) (players s) pickerSide defenders.

(** The round of C5: at a table of five the defenders took no trick, two
    cards worth nothing lie buried, and the tricks and the buried pile hold
    the deck. *)
Definition pickerTookEverything (s : GameState) (defenders : list Player) : Prop :=
  length (players s) = 5%nat
  /\ length (buried s) = 2%nat
  /\ (forall c, In c (buried s) -> value c = 0)
  /\ (forall p, In p defenders -> tricksWon p = [])
  /\ Permutation (wonCards (players s) ++ buried s) orderedDeck.

(** A finished five-handed round: p1 picked, called p3 and buried the seven
    and the eight of clubs; p1 won four tricks and p3 two. *)
Definition sweptRound : GameState :=
  let d := skipn 2 orderedDeck in
  let trickNo (k : nat) := firstn 5 (skipn (5 * k) d) in
  {| gameId := "g"; currentTurn := "p1"; phase := PLAYING;
     players :=
       [ seat "p0" [];
         {| id := "p1"; name := "p1"; avatar := None; cards := []; score := 0;
            isDealer := false; isPicker := Some true; partner := Some "p3";
            tricksWon := [trickNo 0%nat; trickNo 1%nat; trickNo 2%nat; trickNo 3%nat];
            isHuman := false |};
         seat "p2" [];
         {| id := "p3"; name := "p3"; avatar := None; cards := []; score := 0;
            isDealer := false; isPicker := None; partner := None;
            tricksWon := [trickNo 4%nat; trickNo 5%nat]; isHuman := false |};
         {| id := "p4"; name := "p4"; avatar := None; cards := []; score := 0;
            isDealer := true; isPicker := None; partner := None;
            tricksWon := []; isHuman := false |} ];
     deck := []; buried := firstn 2 orderedDeck; currentTrick := [];
     leadSuit := None; roundNumber := 1; trickNumber := 6; isLeaster := false;
     isDoubler := false; isReDoubler := false; calledAce := None; log := [] |}.

(** The player on a seat of that round. *)
Definition sweptSeat (i : nat) : Player := nth i (players sweptRound) (seat empty []).

(** *** Running the reducer *)

(** Dispatch a list of actions one after the other. *)
Fixpoint run (env : Env) (s : GameState) (actions : list ActionType) : option GameState :=
  match actions with
  | [] => Some s
  | a :: rest => let? s' := gameReducer env s a in run env s' rest
  end.

(** The actions a player can take, as opposed to the internal ones. *)
Definition playerAction (a : ActionType) : bool :=
  match a with
  | PICK_BLIND _ | PASS_BLIND _ | BURY_CARDS _ _ | CALL_PARTNER _ _ | PLAY_CARD _ _ => true
  | _ => false
  end.

(** The first player that carries a given id: [players[players.findIndex(p => p.id === playerId)]]. *)
Definition playerById (ps : list Player) (playerId : string) : option Player :=
  find (fun p => String.eqb (id p) playerId) ps.

(** The first player flagged as dealer. *)
Definition dealerOf (ps : list Player) : option Player := find isDealer ps.

(** The seat after seat [i] at a table of [ps]. *)
Definition seatAfter (ps : list Player) (i : Z) : option Player :=
  JS.atIdx ps (JS.rem (i + 1) (JS.len ps)).

(** A sample environment: the shuffle draws [j = i] at every step and so
    leaves the deck in the order in which it was built. *)
Definition env0 : Env := {| now := 0; uuid := "game"; rand := fun i => i |}.

Definition newcomer (i : string) : PlayerInit :=
  {| pi_id := i; pi_name := i; pi_avatar := None; pi_isPicker := None;
     pi_partner := None; pi_isHuman := false |}.

Definition three : list PlayerInit := [newcomer "p0"; newcomer "p1"; newcomer "p2"].

Definition orInitial (o : option GameState) : GameState :=
  match o with
  | Some s => s
  | None => initialState
  end.

(** A three-handed game right after the deal: p0 deals, p1 is to act. *)
Definition dealt3 : GameState :=
  Eval vm_compute in orInitial (run env0 initialState [START_GAME three]).

(** The same game after p1 picked the blind. *)
Definition picked3 : GameState :=
  Eval vm_compute in orInitial (run env0 dealt3 [PICK_BLIND "p1"]).

(** *** Rejections *)

(** The tag of the action does not match the phase. *)
Definition wrongPhase (s : GameState) (a : ActionType) : Prop :=
  match a with
  | PICK_BLIND _ | PASS_BLIND _ => phase s <> PICKING
  | BURY_CARDS _ _ => phase s <> BURYING
  | CALL_PARTNER _ _ => phase s <> CALLING_PARTNER
  | PLAY_CARD _ _ => phase s <> PLAYING
  | _ => False
  end.

(** The actor or the content of the action is refused by the guards of its
    case: an unknown player picks; the cards to bury are not two, or no
    picker carries the actor's id; the partner is called by somebody else
    than the picker; a card is played out of turn, by an unknown player, or
    against [isValidPlay]. *)
Definition refused (s : GameState) (a : ActionType) : Prop :=
  match a with
  | PICK_BLIND playerId => playerById (players s) playerId = None
  | BURY_CARDS playerId toBury =>
      length toBury <> 2%nat
      \/ (forall p, In p (players s) -> id p = playerId -> truthy (isPicker p) = false)
  | CALL_PARTNER playerId _ =>
      forall picker, findPicker (players s) = Some picker -> id picker <> playerId
  | PLAY_CARD playerId card =>
      currentTurn s <> playerId
      \/ playerById (players s) playerId = None
      \/ (exists p, playerById (players s) playerId = Some p
                    /\ isValidPlay card p (currentTrick s) (leadSuit s) = false)
  | _ => False
  end.

(** Whether a player holds a card (same suit and rank). *)
Definition holds (p : Player) (c : Card) : bool := existsb (sameCard c) (cards p).

(** *** The end of a round *)

(** The greatest of [m] and of the trick points of the players. *)
Definition hiFrom (m : Z) (ps : list Player) : Z :=
  fold_right (fun p acc => Z.max (playerPoints p) acc) m ps.

(** The highest trick-point total at the table (0 at least). *)
Definition highestPoints (ps : list Player) : Z := hiFrom 0 ps.

(** The first player, in table order, who reaches the highest total, when
    that total is positive. *)
Definition leasterLeader (ps : list Player) : option Player :=
  if 0 <? highestPoints ps
  then find (fun p => playerPoints p =? highestPoints ps) ps
  else None.

(** What the scan of the leaster branch holds after running over [ps] from
    the running maximum [m] and the running winner [w]. *)
Definition leaderFrom (m : Z) (w : string) (ps : list Player) : string :=
  if m <? hiFrom m ps
  then match find (fun p => playerPoints p =? hiFrom m ps) ps with
       | Some q => id q
       | None => w
       end
  else w.

(** The points a player gains when the round is scored: in a leaster the
    leader gains the highest total; otherwise, when there is a picker, the
    members of the winning side gain the total of their side. *)
Definition roundGain (s : GameState) (p : Player) : Z :=
  let ps := players s in
  if isLeaster s then
    match leasterLeader ps with
    | Some w => if String.eqb (id p) (id w) then highestPoints ps else 0
    | None => 0
    end
  else
    match findPicker ps with
    | None => 0
    | Some _ =>
        let pickerSide := teamPoints (pickerTeamOf ps) + cardPoints (buried s) in
        let defenderSide := teamPoints (defenderTeamOf ps) in
        if onPickerTeam ps p
        then (if 61 <=? pickerSide then pickerSide else 0)
        else (if 61 <=? pickerSide then 0 else defenderSide)
    end.

(** The seat of the next dealer. *)
Definition nextDealerSeat (ps : list Player) : Z :=
  (JS.findIndex isDealer ps + 1) mod JS.len ps.

(** How END_ROUND leaves the player seated at [k]. *)
Definition scoredAndReset (s : GameState) (k : nat) (p p' : Player) : Prop :=
  id p' = id p
  /\ score p' = score p + roundGain s p
  /\ isDealer p' = (Z.of_nat k =? nextDealerSeat (players s))
  /\ cards p' = [] /\ tricksWon p' = []
  /\ isPicker p' = Some false /\ partner p' = None.

(** A five-handed round one card before its end: p1 picked and called p3;
    p1 holds three tricks, p3 one and the defender p0 one; four diamonds lie
    in the last trick and p0 is to play the ace of diamonds. *)
Definition lastCardRound : GameState :=
  let d := skipn 2 orderedDeck in
  let trickNo (k : nat) := firstn 5 (skipn (5 * k) d) in
  {| gameId := "g"; currentTurn := "p0"; phase := PLAYING;
     players :=
       [ {| id := "p0"; name := "p0"; avatar := None; cards := [c_ DIAMONDS ACE];
            score := 0; isDealer := false; isPicker := None; partner := None;
            tricksWon := [trickNo 4%nat]; isHuman := true |};
         {| id := "p1"; name := "p1"; avatar := None; cards := []; score := 0;
            isDealer := false; isPicker := Some true; partner := Some "p3";
            tricksWon := [trickNo 0%nat; trickNo 1%nat; trickNo 2%nat];
            isHuman := false |};
         seat "p2" [];
         {| id := "p3"; name := "p3"; avatar := None; cards := []; score := 0;
            isDealer := false; isPicker := None; partner := None;
            tricksWon := [trickNo 3%nat]; isHuman := false |};
         {| id := "p4"; name := "p4"; avatar := None; cards := []; score := 0;
            isDealer := true; isPicker := None; partner := None;
            tricksWon := []; isHuman := false |} ];
     deck := []; buried := firstn 2 orderedDeck;
     currentTrick := firstn 4 (trickNo 5%nat);
     leadSuit := None; roundNumber := 1; trickNumber := 5; isLeaster := false;
     isDoubler := false; isReDoubler := false; calledAce := None; log := [] |}.

(** The state END_TRICK receives once that last card is played, and the state
    END_ROUND receives next: the trick has gone to p4. *)
Definition lastCardPlayed : GameState :=
  Eval vm_compute in
    cardPlayed env0 lastCardRound 0 "p0" (c_ DIAMONDS ACE) (seat "p1" []).

Definition lastTrickResolved : GameState :=
  Eval vm_compute in trickResolved env0 lastCardPlayed "p4".

(** A leaster in which p1 and p2 tie at 21 points ahead of p0. *)
Definition tiedLeaster : GameState :=
  {| gameId := "g"; currentTurn := "p1"; phase := PLAYING;
     players :=
       [ {| id := "p0"; name := "p0"; avatar := None; cards := []; score := 5;
            isDealer := true; isPicker := None; partner := None;
            tricksWon := [[c_ CLUBS TEN; c_ CLUBS SEVEN; c_ CLUBS EIGHT]];
            isHuman := true |};
         {| id := "p1"; name := "p1"; avatar := None; cards := []; score := 0;
            isDealer := false; isPicker := None; partner := None;
            tricksWon := [[c_ CLUBS ACE; c_ SPADES TEN; c_ SPADES SEVEN]];
            isHuman := false |};
         {| id := "p2"; name := "p2"; avatar := None; cards := []; score := 7;
            isDealer := false; isPicker := None; partner := None;
            tricksWon := [[c_ SPADES ACE; c_ HEARTS TEN; c_ HEARTS SEVEN]];
            isHuman := false |} ];
     deck := [c_ DIAMONDS KING; c_ DIAMONDS ACE]; buried := []; currentTrick := [];
     leadSuit := None; roundNumber := 1; trickNumber := 3; isLeaster := true;
     isDoubler := false; isReDoubler := false; calledAce := None; log := [] |}.

(** A leaster in which nobody took a point. *)
Definition pointlessLeaster : GameState :=
  {| gameId := "g"; currentTurn := "p1"; phase := PLAYING;
     players :=
       [ {| id := "p0"; name := "p0"; avatar := None; cards := []; score := 5;
            isDealer := true; isPicker := None; partner := None;
            tricksWon := [[c_ CLUBS NINE; c_ CLUBS SEVEN; c_ CLUBS EIGHT]];
            isHuman := true |};
         {| id := "p1"; name := "p1"; avatar := None; cards := []; score := 0;
            isDealer := false; isPicker := None; partner := None;
            tricksWon := []; isHuman := false |} ];
     deck := []; buried := []; currentTrick := [];
     leadSuit := None; roundNumber := 1; trickNumber := 1; isLeaster := true;
     isDoubler := false; isReDoubler := false; calledAce := None; log := [] |}.

(** *** The lead suit *)

(** The lead suit is unset as long as no card lies in the trick, and stays
    unset in a trick that was led with a trump. *)
Definition leadSuitClean (s : GameState) : Prop :=
  match currentTrick s with
  | [] => leadSuit s = None
  | lead :: _ => isTrump lead = true -> leadSuit s = None
  end.

(** The actions that neither start a game nor load one. *)
Definition keepsGame (a : ActionType) : bool :=
  match a with
  | START_GAME _ | LOAD_GAME _ => false
  | _ => true
  end.

(** A game is started, p1 picks, buries and leads the ten of clubs; then a
    new game is started on the same table, p1 picks and buries again and
    leads the queen of hearts. *)
Definition restartMidTrick : list ActionType :=
  [ START_GAME three; PICK_BLIND "p1";
    BURY_CARDS "p1" [c_ CLUBS SEVEN; c_ SPADES EIGHT];
    PLAY_CARD "p1" (c_ CLUBS TEN);
    START_GAME three; PICK_BLIND "p1";
    BURY_CARDS "p1" [c_ CLUBS SEVEN; c_ SPADES EIGHT];
    PLAY_CARD "p1" (c_ HEARTS QUEEN) ].

Definition staleLead : GameState :=
  Eval vm_compute in orInitial (run env0 initialState restartMidTrick).

(** *** Counting the cards *)

(** The sum of the claim: the hand sizes, the blind, the buried pile, the
    current trick and the cards of every trick won. *)
Definition cardTotal (s : GameState) : nat :=
  list_sum (map (fun p => length (cards p)) (players s))
  + length (deck s) + length (buried s) + length (currentTrick s)
  + list_sum (map (fun p => list_sum (map (@length Card) (tricksWon p))) (players s)).

Definition allCards (s : GameState) : list Card :=
  handCards (players s) ++ deck s ++ buried s ++ currentTrick s ++ wonCards (players s).

(** Two cards are the same card when they agree on suit and rank. *)
Definition cardKey (c : Card) : Suit * Rank := (suit c, rank c).

Definition allKeys (s : GameState) : list (Suit * Rank) := map cardKey (allCards s).

(** A table in order: distinct player ids, no card twice, nothing buried
    before the picker buries, and 32 cards in all. *)
Definition tableOk (s : GameState) : Prop :=
  NoDup (map id (players s))
  /\ NoDup (allKeys s)
  /\ (phase s = PICKING \/ phase s = BURYING -> buried s = [])
  /\ cardTotal s = 32%nat.

(** The cards an action moves come from the hand of the player who moves
    them: the picker holds the two distinct cards to bury, the player holds
    the card to play. *)
Definition fromHand (s : GameState) (a : ActionType) : Prop :=
  match a with
  | BURY_CARDS playerId toBury =>
      NoDup (map cardKey toBury)
      /\ forall p, In p (players s) -> id p = playerId -> truthy (isPicker p) = true ->
           forall c, In c toBury -> holds p c = true
  | PLAY_CARD playerId card =>
      forall p, playerById (players s) playerId = Some p -> holds p card = true
  | _ => True
  end.

(** The actions that occur in the course of a round. *)
Definition roundAction (a : ActionType) : bool :=
  match a with
  | PICK_BLIND _ | PASS_BLIND _ | BURY_CARDS _ _ | CALL_PARTNER _ _ | PLAY_CARD _ _
  | NEXT_PLAYER | END_TRICK | END_GAME => true
  | START_GAME _ | END_ROUND | RESET_GAME | LOAD_GAME _ => false
  end.

(** The states of a round: what START_GAME deals to players with distinct
    ids, and what the actions of the round make of it as long as the cards
    moved come from the mover's hand and the round has not been scored. *)
Inductive inRound : GameState -> Prop :=
| inRound_dealt (env : Env) (s s' : GameState) (newPlayers : list PlayerInit) :
    NoDup (map pi_id newPlayers) ->
    gameReducer env s (START_GAME newPlayers) = Some s' ->
    inRound s'
| inRound_step (env : Env) (s s' : GameState) (a : ActionType) :
    inRound s ->
    roundAction a = true ->
    fromHand s a ->
    gameReducer env s a = Some s' ->
    phase s' <> SCORING ->
    inRound s'.

Definition Key_eq_dec (a b : Suit * Rank) : {a = b} + {a <> b}.
Proof. repeat decide equality. Defined.

(** What dealing keeps: the ids, the tricks won, and the cards of the hands
    and of the rest of the deck taken together. *)
Definition dealKeeps (ps0 : list Player) (d0 : list Card)
    (st : list Player * list Card) : Prop :=
  map id (fst st) = map id ps0
  /\ wonCards (fst st) = wonCards ps0
  /\ Permutation (handCards (fst st) ++ snd st) (handCards ps0 ++ d0).

(** A whole three-handed round played from [dealt3] with cards held by the
    player who plays them: p1 picks, buries the seven of clubs and the eight
    of spades, and ten tricks follow, one per line. *)
Definition fullRound3 : list ActionType :=
  [ PICK_BLIND "p1"; BURY_CARDS "p1" [c_ CLUBS SEVEN; c_ SPADES EIGHT];
    PLAY_CARD "p1" (c_ CLUBS TEN); PLAY_CARD "p2" (c_ CLUBS EIGHT); PLAY_CARD "p0" (c_ CLUBS NINE);
    PLAY_CARD "p0" (c_ CLUBS QUEEN); PLAY_CARD "p1" (c_ CLUBS KING); PLAY_CARD "p2" (c_ CLUBS JACK);
    PLAY_CARD "p0" (c_ SPADES SEVEN); PLAY_CARD "p1" (c_ SPADES JACK); PLAY_CARD "p2" (c_ SPADES NINE);
    PLAY_CARD "p2" (c_ CLUBS ACE); PLAY_CARD "p0" (c_ SPADES TEN); PLAY_CARD "p1" (c_ SPADES ACE);
    PLAY_CARD "p0" (c_ SPADES KING); PLAY_CARD "p1" (c_ HEARTS NINE); PLAY_CARD "p2" (c_ SPADES QUEEN);
    PLAY_CARD "p1" (c_ HEARTS QUEEN); PLAY_CARD "p2" (c_ HEARTS SEVEN); PLAY_CARD "p0" (c_ HEARTS EIGHT);
    PLAY_CARD "p0" (c_ HEARTS JACK); PLAY_CARD "p1" (c_ DIAMONDS SEVEN); PLAY_CARD "p2" (c_ HEARTS TEN);
    PLAY_CARD "p0" (c_ HEARTS ACE); PLAY_CARD "p1" (c_ DIAMONDS TEN); PLAY_CARD "p2" (c_ HEARTS KING);
    PLAY_CARD "p2" (c_ DIAMONDS EIGHT); PLAY_CARD "p0" (c_ DIAMONDS NINE); PLAY_CARD "p1" (c_ DIAMONDS KING);
    PLAY_CARD "p1" (c_ DIAMONDS ACE); PLAY_CARD "p2" (c_ DIAMONDS JACK); PLAY_CARD "p0" (c_ DIAMONDS QUEEN) ].

(* ------------------------------------------------------------------------- *)
(** ** Further vocabulary *)

(** The hand sizes around the table, in seat order. *)
Definition handSizes (s : GameState) : list nat :=
  map (fun p => length (cards p)) (players s).

(** The actions that keep the players of the running game: all but
    START_GAME, RESET_GAME and LOAD_GAME. *)
Definition keepsTable (a : ActionType) : bool :=
  match a with
  | START_GAME _ | RESET_GAME | LOAD_GAME _ => false
  | _ => true
  end.

(** Exactly one player carries the dealer flag. *)
Definition oneDealer (s : GameState) : Prop :=
  length (filter isDealer (players s)) = 1%nat.

(** The trick on the table is not complete. *)
Definition trickOpen (s : GameState) : Prop :=
  (length (currentTrick s) < length (players s))%nat.

(** The edges of the phase machine that a player's action can take, at a
    table of [n] players. *)
Definition phaseEdge (n : nat) (a b : GamePhase) : Prop :=
  a = b
  \/ (a = PICKING /\ (b = BURYING \/ b = PLAYING))
  \/ (a = BURYING /\ ((b = CALLING_PARTNER /\ n = 5%nat) \/ (b = PLAYING /\ n <> 5%nat)))
  \/ (a = CALLING_PARTNER /\ b = PLAYING)
  \/ (a = PLAYING /\ b = SCORING).

(** The lead suit is the suit of the card that was led when that card is
    plain, and is unset otherwise. *)
Definition leadSuitOf (trick : list Card) : option Suit :=
  match trick with
  | [] => None
  | lead :: _ => if isTrump lead then None else Some (suit lead)
  end.

Definition leadSuitExact (s : GameState) : Prop :=
  leadSuit s = leadSuitOf (currentTrick s).

(** What identifies a player, and the player's standing between rounds. *)
Definition identityOf (p : Player) : string * string * option string * bool :=
  (id p, name p, avatar p, isHuman p).

Definition standingOf (p : Player) : Z * bool := (score p, isDealer p).

(** An empty array. *)
Definition isNil {A : Type} (xs : list A) : bool :=
  match xs with
  | [] => true
  | _ :: _ => false
  end.


(** *** The choices of the computer players *)

(** The cards of a hand that [isValidPlay] accepts in a state. *)
Definition validPlaysOf (p : Player) (s : GameState) : list Card :=
  filter (fun card => isValidPlay card p (currentTrick s) (leadSuit s)) (cards p).

(** The card that holds the trick in the eyes of [chooseFollowCard], and its
    position in the trick. *)
Definition highestOf (s : GameState) : option (Card * Z) :=
  match currentTrick s with
  | [] => None
  | lead :: rest => Some (highestLoop (leadSuit s) rest 1 lead 0)
  end.

(** What a card adds to the strength of a hand, and the plain suits of which
    the hand holds exactly one card. *)
Definition cardStrength (card : Card) : Z :=
  if isTrump card then 3 + trumpBonus card
  else if Rank_eqb (rank card) ACE then 2
  else if Rank_eqb (rank card) TEN then 1
  else 0.

Definition plainCount (l : Suit) (hand : list Card) : nat :=
  length (plainOf l hand).

Definition singletons (hand : list Card) : Z :=
  JS.len (filter (fun l => (plainCount l hand =? 1)%nat) [CLUBS; SPADES; HEARTS]).

(** A list in ascending order of a key. *)
Fixpoint ascending {A : Type} (key : A -> Z) (xs : list A) : Prop :=
  match xs with
  | [] => True
  | x :: xs' => (forall y, In y xs' -> key x <= key y) /\ ascending key xs'
  end.

(** The player whose turn it is, as [handleAITurn] looks it up. *)
Definition currentPlayer (s : GameState) : option Player :=
  playerById (players s) (currentTurn s).

Definition actor (s : GameState) : Player :=
  match currentPlayer s with
  | Some p => p
  | None => seat empty []
  end.

(** The sample game after p1 buried two cards, and after p1 led the ten of
    clubs. *)
Definition buried3 : GameState :=
  Eval vm_compute in
    orInitial (run env0 picked3 [BURY_CARDS "p1" [c_ CLUBS SEVEN; c_ SPADES EIGHT]]).

Definition led3 : GameState :=
  Eval vm_compute in orInitial (run env0 buried3 [PLAY_CARD "p1" (c_ CLUBS TEN)]).

(** Whether the card that holds the trick was played from the seat of a
    team mate of [p], in the eyes of [chooseFollowCard]. *)
Definition teamHolds (p : Player) (s : GameState) : option bool :=
  match highestOf s with
  | Some (_, position) => isPlayerOnSameTeam (JS.at_ (players s) position) p s
  | None => Some false
  end.

(** Whether [p] holds a valid card that overtakes the card holding the trick. *)
Definition canOvertake (p : Player) (s : GameState) : bool :=
  match highestOf s with
  | Some (highest, _) =>
      existsb (fun card => overtakes (leadSuit s) card highest) (validPlaysOf p s)
  | None => false
  end.

(** A computer player goes for the trick when its team does not hold it, it
    can overtake, and it is on the picker's side or the trick is worth ten
    points or more. *)
Definition triesToWin (p : Player) (s : GameState) : bool :=
  match teamHolds p s with
  | Some false =>
      (onPickerTeam (players s) p || (calculatePoints (currentTrick s) >=? 10))
      && canOvertake p s
  | _ => false
  end.

(** The player on a seat and the picker of a sample state. *)
Definition seated (s : GameState) (i : Z) : Player :=
  match JS.at_ (players s) i with
  | Some q => q
  | None => seat empty []
  end.

Definition pickerOf (s : GameState) : Player :=
  match findPicker (players s) with
  | Some q => q
  | None => seat empty []
  end.

(** [leadSuit || Suit.CLUBS], the lead suit END_TRICK hands to
    [determineTrickWinner]. *)
Definition judgedSuit (s : GameState) : Suit :=
  match leadSuit s with
  | Some l => l
  | None => CLUBS
  end.

(** An array whose plain cards all come before its trumps. *)
Definition plainFirst (xs : list Card) : Prop :=
  exists plain trumps,
    xs = plain ++ trumps
    /\ Forall (fun c => isTrump c = false) plain
    /\ Forall (fun c => isTrump c = true) trumps.

(** The plain cards of a pile. *)
Definition plainCards (xs : list Card) : list Card :=
  filter (fun c => negb (isTrump c)) xs.

(** *** Player statistics *)

(** Stats that add up: every game is a win or a loss, no role is counted
    more often than games were played, and the solo and leaster counters
    stay within the counters they refine. *)
Definition balanced (st : Stats.PlayerStats) : Prop :=
  Stats.wins st + Stats.losses st = Stats.gamesPlayed st
  /\ Stats.pickerWins st + Stats.pickerLosses st + Stats.defenderWins st
     + Stats.defenderLosses st + Stats.partnerWins st <= Stats.gamesPlayed st
  /\ Stats.soloWins st <= Stats.pickerWins st
  /\ Stats.soloLosses st <= Stats.pickerLosses st
  /\ Stats.leasterWins st <= Stats.wins st.

(** The games on record for a player: those of the first entry that carries
    the id, none without an entry. *)
Definition gamesOf (allStats : list Stats.PlayerStats) (playerId : string) : Z :=
  match find (fun st => String.eqb (Stats.playerId st) playerId) allStats with
  | Some st => Stats.gamesPlayed st
  | None => 0
  end.

(** How often an id is listed among the players of a game. *)
Definition listed (playerId : string) (ids : list string) : Z :=
  JS.len (filter (String.eqb playerId) ids).

(** A three-handed game that the picker p1 won alone, 70 to 50. *)
Definition sampleResult : Stats.GameResult :=
  {| Stats.gameId := "game"; Stats.datePlayed := 0;
     Stats.players := ["p0"; "p1"; "p2"]; Stats.picker := "p1"; Stats.partner := None;
     Stats.pickerTeamScore := 70; Stats.defenderTeamScore := 50;
     Stats.isLeaster := false; Stats.isDoubled := false; Stats.isReDoubled := false;
     Stats.isSolo := true |}.

(** *** Games played through, each dispatch in surroundings of its own *)

(** Dispatch a list of actions one after the other; each comes with the
    clock, the game id and the random draws its dispatch reads. *)
Fixpoint dispatchAll (s : GameState) (steps : list (Env * ActionType))
    : option GameState :=
  match steps with
  | [] => Some s
  | (env, a) :: rest => let? s' := gameReducer env s a in dispatchAll s' rest
  end.

(** The actions of the steps keep the running game: none is a START_GAME or
    a LOAD_GAME. *)
Definition keepGame (steps : list (Env * ActionType)) : bool :=
  forallb (fun step => keepsGame (snd step)) steps.

(** The surroundings at time [t], with the draws of [env0]. *)
Definition envAt (t : Z) : Env := {| now := t; uuid := "game"; rand := fun i => i |}.

(** After the deal p1 picks and buries; p1 leads the ace of spades and p2
    trumps it with the queen of spades. *)
Definition spadeSteps : list (Env * ActionType) :=
  [ (envAt 1, PICK_BLIND "p1");
    (envAt 2, BURY_CARDS "p1" [c_ CLUBS SEVEN; c_ SPADES EIGHT]);
    (envAt 3, PLAY_CARD "p1" (c_ SPADES ACE));
    (envAt 4, PLAY_CARD "p2" (c_ SPADES QUEEN)) ].

Definition spadeTrick : GameState :=
  Eval vm_compute in
    orInitial (dispatchAll initialState ((envAt 0, START_GAME three) :: spadeSteps)).

(** The same, but p1 leads a trump, the queen of hearts, and p2 plays the
    queen of spades over it. *)
Definition trumpSteps : list (Env * ActionType) :=
  [ (envAt 1, PICK_BLIND "p1");
    (envAt 2, BURY_CARDS "p1" [c_ CLUBS SEVEN; c_ SPADES EIGHT]);
    (envAt 3, PLAY_CARD "p1" (c_ HEARTS QUEEN));
    (envAt 4, PLAY_CARD "p2" (c_ SPADES QUEEN)) ].

Definition trumpTrick : GameState :=
  Eval vm_compute in
    orInitial (dispatchAll initialState ((envAt 0, START_GAME three) :: trumpSteps)).

(** Stats on record before the sample game: p1 played three games, p7, who
    is not in the sample game, one. *)
Definition sampleStats : list Stats.PlayerStats :=
  [ {| Stats.playerId := "p1"; Stats.gamesPlayed := 3; Stats.wins := 2;
       Stats.losses := 1; Stats.pickerWins := 1; Stats.pickerLosses := 0;
       Stats.defenderWins := 1; Stats.defenderLosses := 1; Stats.partnerWins := 0;
       Stats.soloWins := 1; Stats.soloLosses := 0; Stats.leasterWins := 0;
       Stats.schneiders := 0; Stats.schneidereds := 0;
       Stats.totalPointsWon := 150; Stats.totalPointsLost := 40 |};
    {| Stats.playerId := "p7"; Stats.gamesPlayed := 1; Stats.wins := 0;
       Stats.losses := 1; Stats.pickerWins := 0; Stats.pickerLosses := 0;
       Stats.defenderWins := 0; Stats.defenderLosses := 1; Stats.partnerWins := 0;
       Stats.soloWins := 0; Stats.soloLosses := 0; Stats.leasterWins := 0;
       Stats.schneiders := 0; Stats.schneidereds := 0;
       Stats.totalPointsWon := 0; Stats.totalPointsLost := 45 |} ].

(* ------------------------------------------------------------------------- *)
(** ** Arrays *)

Section ArrayFacts.
Context {A : Type}.
Implicit Types (xs : list A) (f : A -> bool).

Lemma at_of_nat xs (k : nat) : JS.at_ xs (Z.of_nat k) = nth_error xs k.
Proof.
  unfold JS.at_.
  destruct (Z.ltb_spec (Z.of_nat k) 0); [lia |].
  now rewrite Nat2Z.id.
Qed.

Lemma at_Some xs (i : Z) (x : A) :
  JS.at_ xs i = Some x -> 0 <= i < JS.len xs /\ nth_error xs (Z.to_nat i) = Some x.
Proof.
  unfold JS.at_, JS.len.
  destruct (Z.ltb_spec i 0); [discriminate |].
  intros E. split; [| exact E].
  assert (Z.to_nat i < length xs)%nat by (apply nth_error_Some; congruence).
  lia.
Qed.

Lemma at_in_range xs (i : Z) :
  0 <= i < JS.len xs -> exists x, JS.at_ xs i = Some x.
Proof.
  unfold JS.at_, JS.len. intros H.
  destruct (Z.ltb_spec i 0); [lia |].
  destruct (nth_error xs (Z.to_nat i)) eqn:E; [eauto |].
  apply nth_error_None in E. lia.
Qed.

Lemma findIndexFrom_indexOf f xs (i : Z) :
  JS.findIndexFrom f xs i
  = match indexOf f xs with Some k => i + Z.of_nat k | None => -1 end.
Proof.
  revert i. induction xs as [| x xs IH]; intros i; cbn; [reflexivity |].
  destruct (f x); [cbn; lia |].
  rewrite IH. destruct (indexOf f xs); cbn; lia.
Qed.

Lemma findIndex_indexOf f xs :
  JS.findIndex f xs
  = match indexOf f xs with Some k => Z.of_nat k | None => -1 end.
Proof.
  unfold JS.findIndex. rewrite findIndexFrom_indexOf.
  now destruct (indexOf f xs).
Qed.

Lemma indexOf_Some f xs (k : nat) :
  indexOf f xs = Some k ->
  exists x, nth_error xs k = Some x /\ f x = true
            /\ forall j y, (j < k)%nat -> nth_error xs j = Some y -> f y = false.
Proof.
  revert k. induction xs as [| x xs IH]; intros k; cbn; [discriminate |].
  destruct (f x) eqn:Fx.
  - intros [= <-]. exists x. repeat split; auto. intros j y Hj. lia.
  - destruct (indexOf f xs) as [k' |]; cbn; [| discriminate].
    intros [= <-]. destruct (IH k' eq_refl) as (x' & Hn & Hf & Hlt).
    exists x'. repeat split; auto.
    intros [| j] y Hj; cbn.
    + now intros [= <-].
    + apply Hlt. lia.
Qed.

Lemma indexOf_None f xs :
  indexOf f xs = None -> forall x, In x xs -> f x = false.
Proof.
  induction xs as [| x xs IH]; cbn; [contradiction |].
  destruct (f x) eqn:Fx; [discriminate |].
  destruct (indexOf f xs); cbn; [discriminate |].
  intros _ y [<- | Hy]; auto.
Qed.

Lemma indexOf_first f xs (k : nat) (x : A) :
  nth_error xs k = Some x -> f x = true ->
  (forall j y, (j < k)%nat -> nth_error xs j = Some y -> f y = false) ->
  indexOf f xs = Some k.
Proof.
  revert k. induction xs as [| a xs IH]; intros [| k]; cbn; try discriminate.
  - now intros [= ->] ->.
  - intros Hn Hf Hlt.
    rewrite (Hlt O a) by (cbn; auto; lia).
    rewrite (IH k Hn Hf); [reflexivity |].
    intros j y Hj Hy. apply (Hlt (S j) y); [lia | exact Hy].
Qed.

Lemma indexOf_lt f xs (k : nat) : indexOf f xs = Some k -> (k < length xs)%nat.
Proof.
  intros H. destruct (indexOf_Some _ _ _ H) as (x & Hn & _).
  apply nth_error_Some. congruence.
Qed.

Lemma nth_error_mapiFrom {B : Type} (g : A -> Z -> B) xs (i : Z) (k : nat) :
  nth_error (JS.mapiFrom g xs i) k
  = option_map (fun x => g x (i + Z.of_nat k)) (nth_error xs k).
Proof.
  revert i k. induction xs as [| x xs IH]; intros i [| k]; cbn; try reflexivity.
  - now rewrite Z.add_0_r.
  - rewrite IH. destruct (nth_error xs k); cbn; [| reflexivity].
    do 2 f_equal. lia.
Qed.

Lemma mapiFrom_ext {B : Type} (g h : A -> Z -> B) xs (i : Z) :
  (forall x k, g x k = h x k) -> JS.mapiFrom g xs i = JS.mapiFrom h xs i.
Proof.
  intros H. revert i. induction xs as [| x xs IH]; intros i; cbn; [reflexivity |].
  now rewrite H, IH.
Qed.

Lemma length_mapi {B : Type} (g : A -> Z -> B) xs : length (JS.mapi g xs) = length xs.
Proof.
  unfold JS.mapi. generalize 0.
  induction xs as [| x xs IH]; intros i; cbn; [reflexivity | now rewrite IH].
Qed.

Lemma len_mapi {B : Type} (g : A -> Z -> B) xs : JS.len (JS.mapi g xs) = JS.len xs.
Proof. unfold JS.len. now rewrite length_mapi. Qed.

Lemma mapiFrom_untouched (g : A -> A) xs (i target : Z) :
  target < i ->
  JS.mapiFrom (fun x idx => if idx =? target then g x else x) xs i = xs.
Proof.
  revert i. induction xs as [| x xs IH]; intros i Hlt; cbn; [reflexivity |].
  destruct (Z.eqb_spec i target); [lia |].
  now rewrite IH by lia.
Qed.

Lemma mapiFrom_updateAt (g : A -> A) xs (i : Z) (k : nat) :
  JS.mapiFrom (fun x idx => if idx =? i + Z.of_nat k then g x else x) xs i
  = updateAt g k xs.
Proof.
  unfold updateAt. revert i k.
  induction xs as [| x xs IH]; intros i [| k]; cbn [JS.mapiFrom nth_error firstn skipn app];
    try reflexivity.
  - rewrite Z.add_0_r, Z.eqb_refl. now rewrite mapiFrom_untouched by lia.
  - destruct (Z.eqb_spec i (i + Z.of_nat (S k))); [lia |].
    replace (i + Z.of_nat (S k)) with (i + 1 + Z.of_nat k) by lia.
    rewrite IH. now destruct (nth_error xs k).
Qed.

Lemma mapi_updateAt (g : A -> A) xs (k : nat) :
  JS.mapi (fun x idx => if idx =? Z.of_nat k then g x else x) xs = updateAt g k xs.
Proof. apply (mapiFrom_updateAt g xs 0 k). Qed.

Lemma mapi_no_target (g : A -> A) xs (target : Z) :
  target < 0 \/ JS.len xs <= target ->
  JS.mapi (fun x idx => if idx =? target then g x else x) xs = xs.
Proof.
  intros [H | H]; [now apply mapiFrom_untouched |].
  unfold JS.len in H.
  replace target with (Z.of_nat (Z.to_nat target)) by lia.
  rewrite mapi_updateAt. unfold updateAt.
  destruct (nth_error xs (Z.to_nat target)) eqn:E; [| reflexivity].
  assert (Z.to_nat target < length xs)%nat by (apply nth_error_Some; congruence).
  lia.
Qed.

Lemma nth_error_split_at xs (k : nat) (x : A) :
  nth_error xs k = Some x -> xs = firstn k xs ++ x :: skipn (S k) xs.
Proof.
  revert k. induction xs as [| a xs IH]; intros [| k]; cbn; try discriminate.
  - now intros [= ->].
  - intros H. f_equal. now apply IH.
Qed.

Lemma length_updateAt (g : A -> A) (k : nat) xs : length (updateAt g k xs) = length xs.
Proof.
  unfold updateAt. destruct (nth_error xs k) eqn:E; [| reflexivity].
  assert (L : length xs = length (firstn k xs ++ a :: skipn (S k) xs))
    by (now rewrite <- (nth_error_split_at _ _ _ E)).
  rewrite L, !length_app. reflexivity.
Qed.
Lemma find_indexOf f xs :
  find f xs = match indexOf f xs with Some k => nth_error xs k | None => None end.
Proof.
  induction xs as [| x xs IH]; cbn; [reflexivity |].
  destruct (f x); [reflexivity |].
  rewrite IH. now destruct (indexOf f xs).
Qed.

Lemma at_findIndex f xs :
  JS.findIndex f xs <> -1 -> JS.at_ xs (JS.findIndex f xs) = find f xs.
Proof.
  rewrite findIndex_indexOf, find_indexOf.
  destruct (indexOf f xs) as [k |]; [| congruence].
  intros _. apply at_of_nat.
Qed.

Lemma findIndex_none f xs : JS.findIndex f xs = -1 <-> find f xs = None.
Proof.
  rewrite findIndex_indexOf, find_indexOf.
  destruct (indexOf f xs) as [k |] eqn:E; [| tauto].
  split; [lia |].
  intros H. apply indexOf_lt in E. apply nth_error_None in H. lia.
Qed.

Lemma len_pos xs : xs <> [] -> 0 < JS.len xs.
Proof. unfold JS.len. destruct xs; [congruence | cbn; lia]. Qed.

Lemma rem_next xs (i : Z) :
  xs <> [] -> -1 <= i ->
  JS.rem (i + 1) (JS.len xs) = Some ((i + 1) mod JS.len xs)
  /\ 0 <= (i + 1) mod JS.len xs < JS.len xs.
Proof.
  intros Hne Hi. pose proof (len_pos xs Hne) as Hn.
  unfold JS.rem. destruct (Z.eqb_spec (JS.len xs) 0); [lia |].
  rewrite Z.rem_mod_nonneg by lia.
  split; [reflexivity | apply Z.mod_pos_bound; lia].
Qed.

Lemma findIndex_range f xs :
  JS.findIndex f xs = -1 \/ 0 <= JS.findIndex f xs < JS.len xs.
Proof.
  rewrite findIndex_indexOf.
  destruct (indexOf f xs) as [k |] eqn:E; [right | now left].
  apply indexOf_lt in E. unfold JS.len. lia.
Qed.

Lemma findIndex_ge f xs : -1 <= JS.findIndex f xs.
Proof. destruct (findIndex_range f xs); lia. Qed.
End ArrayFacts.

(* ------------------------------------------------------------------------- *)
(** ** Card power *)

Lemma in_orderedDeck (c : Card) :
  In c orderedDeck -> c = newCard (suit c) (rank c).
Proof.
  unfold orderedDeck; cbn; intros H.
  repeat (destruct H as [<- | H]; [reflexivity |]).
  contradiction.
Qed.

Lemma newCard_in_orderedDeck (s : Suit) (r : Rank) : In (newCard s r) orderedDeck.
Proof. destruct s, r; cbn; tauto. Qed.

(** C7, as stated, fails: the ace of clubs and the ace of spades are two
    distinct cards of the deck with the same power, 7. *)
Lemma getCardPower_not_injective :
  In (c_ CLUBS ACE) orderedDeck /\ In (c_ SPADES ACE) orderedDeck
  /\ c_ CLUBS ACE <> c_ SPADES ACE
  /\ getCardPower (c_ CLUBS ACE) = 7
  /\ getCardPower (c_ SPADES ACE) = 7.
Proof.
  repeat split; try apply newCard_in_orderedDeck; discriminate.
Qed.

(** C7, amended: over the 32 cards of the deck two cards of equal power have
    the same rank, and they are the same card as soon as one of them is trump
    or both have the same suit. [getCardPower] is injective on the 14 trump
    cards and on the plain cards of each suit. *)
Theorem getCardPower_injective_within_class (c1 c2 : Card) :
  In c1 orderedDeck -> In c2 orderedDeck ->
  getCardPower c1 = getCardPower c2 ->
  rank c1 = rank c2
  /\ (isTrump c1 = true \/ isTrump c2 = true \/ suit c1 = suit c2 -> c1 = c2).
Proof.
  intros H1 H2.
  rewrite (in_orderedDeck _ H1), (in_orderedDeck _ H2).
  destruct (suit c1), (rank c1), (suit c2), (rank c2); cbn;
    intros E; try discriminate E; (split; [reflexivity |]);
    try (intros _; reflexivity);
    intros [F | [F | F]]; discriminate F.
Qed.

Lemma getCardPower_injective_within_class_witness :
  rank (c_ CLUBS ACE) = rank (c_ SPADES ACE)
  /\ (isTrump (c_ CLUBS ACE) = true \/ isTrump (c_ SPADES ACE) = true
      \/ suit (c_ CLUBS ACE) = suit (c_ SPADES ACE) -> c_ CLUBS ACE = c_ SPADES ACE).
Proof.
  apply (getCardPower_injective_within_class (c_ CLUBS ACE) (c_ SPADES ACE)).
  - apply newCard_in_orderedDeck.
  - apply newCard_in_orderedDeck.
  - reflexivity.
Defined.

(* ------------------------------------------------------------------------- *)
(** ** Legal plays *)

(** C9: a card whose [isTrump] flag is set is a valid play whatever the hand,
    the trick and the lead suit are. *)
Theorem isValidPlay_trump (card : Card) (player : Player) (trick : list Card)
    (l : option Suit) :
  isTrump card = true -> isValidPlay card player trick l = true.
Proof.
  intros Htrump.
  unfold isValidPlay, followSuitRejects, forcedTrumpRejects.
  destruct trick as [| lead rest]; [reflexivity |].
  rewrite Htrump; cbn.
  destruct l; [| reflexivity].
  cbn. now rewrite andb_false_r.
Qed.

Lemma isValidPlay_trump_witness :
  isValidPlay (c_ HEARTS QUEEN)
    (seat "p1" [c_ HEARTS QUEEN; c_ CLUBS ACE; c_ CLUBS KING])
    [c_ CLUBS TEN; c_ CLUBS SEVEN] (Some CLUBS) = true.
Proof.
  apply isValidPlay_trump. reflexivity.
Defined.

(* ------------------------------------------------------------------------- *)
(** ** The winner of a trick *)

Lemma beats_true_iff (l : Suit) (card w : Card) :
  beats l card w = true <->
  (isTrump card = true /\ isTrump w = false)
  \/ (isTrump card = true /\ isTrump w = true /\ getCardPower w < getCardPower card)
  \/ (isTrump card = false /\ isTrump w = false /\ suit card = l
      /\ getCardPower w < getCardPower card).
Proof.
  unfold beats.
  destruct (isTrump card), (isTrump w); cbn;
    destruct (Z.gtb_spec (getCardPower card) (getCardPower w));
    destruct (suit card), l; cbn; intuition (try discriminate; try lia).
Qed.

Lemma bestSoFar_step (l : Suit) (seen : list Card) (w card : Card) :
  bestSoFar l seen w ->
  bestSoFar l (seen ++ [card]) (if beats l card w then card else w).
Proof.
  intros (Hin & Htr & Hpl).
  destruct (beats l card w) eqn:B.
  - apply beats_true_iff in B.
    split; [apply in_or_app; right; now left |].
    destruct B as [(Hc & Hw) | [(Hc & Hw & Hlt) | (Hc & Hw & Hs & Hlt)]].
    + split; [| congruence].
      intros c Hcin Hct. split; [exact Hc |].
      apply in_app_or in Hcin as [Hcin | [<- | []]]; [| lia].
      destruct (Htr c Hcin Hct); congruence.
    + split; [| congruence].
      intros c Hcin Hct. split; [exact Hc |].
      apply in_app_or in Hcin as [Hcin | [<- | []]]; [| lia].
      destruct (Htr c Hcin Hct); lia.
    + split.
      * intros c Hcin Hct.
        apply in_app_or in Hcin as [Hcin | [<- | []]]; [| congruence].
        destruct (Htr c Hcin Hct); congruence.
      * intros _. split; [exact Hs |].
        intros c Hcin Hcs.
        apply in_app_or in Hcin as [Hcin | [<- | []]]; [| lia].
        destruct (Hpl Hw) as [_ Hle]. specialize (Hle c Hcin Hcs). lia.
  - assert (NB : ~ ((isTrump card = true /\ isTrump w = false)
                    \/ (isTrump card = true /\ isTrump w = true
                        /\ getCardPower w < getCardPower card)
                    \/ (isTrump card = false /\ isTrump w = false /\ suit card = l
                        /\ getCardPower w < getCardPower card)))
      by (rewrite <- beats_true_iff; congruence).
    split; [apply in_or_app; now left |].
    split.
    + intros c Hcin Hct.
      apply in_app_or in Hcin as [Hcin | [<- | []]]; [now apply Htr |].
      destruct (isTrump w) eqn:Hw; [| exfalso; apply NB; now left].
      split; [reflexivity |].
      destruct (Z.le_gt_cases (getCardPower card) (getCardPower w)); [assumption |].
      exfalso; apply NB; right; left; auto.
    + intros Hw. destruct (Hpl Hw) as [Hs Hle]. split; [exact Hs |].
      intros c Hcin Hcs.
      apply in_app_or in Hcin as [Hcin | [<- | []]]; [now apply Hle |].
      destruct (isTrump card) eqn:Hc; [exfalso; apply NB; now left |].
      destruct (Z.le_gt_cases (getCardPower card) (getCardPower w)); [assumption |].
      exfalso; apply NB; right; right; auto.
Qed.

Lemma winnerLoop_invariant (l : Suit) (rest seen : list Card) (w : Card) (wi : Z) :
  bestSoFar l seen w ->
  nth_error seen (Z.to_nat wi) = Some w ->
  0 <= wi < JS.len seen ->
  let r := winnerLoop l rest (JS.len seen) w wi in
  bestSoFar l (seen ++ rest) (fst r)
  /\ nth_error (seen ++ rest) (Z.to_nat (snd r)) = Some (fst r)
  /\ 0 <= snd r < JS.len (seen ++ rest).
Proof.
  revert seen w wi.
  induction rest as [| card rest IH]; intros seen w wi Hb Hn Hr; cbn.
  - now rewrite app_nil_r.
  - assert (Hlen : JS.len seen + 1 = JS.len (seen ++ [card])).
    { unfold JS.len. rewrite length_app. cbn. lia. }
    assert (Hstep := bestSoFar_step l seen w card Hb).
    replace (seen ++ card :: rest) with ((seen ++ [card]) ++ rest)
      by (now rewrite <- app_assoc).
    rewrite Hlen.
    destruct (beats l card w).
    + apply IH; [exact Hstep | | lia].
      unfold JS.len. rewrite Nat2Z.id.
      rewrite nth_error_app2 by lia. now rewrite Nat.sub_diag.
    + apply IH; [exact Hstep | | lia].
      rewrite nth_error_app1; [exact Hn |].
      unfold JS.len in Hr. lia.
Qed.

(** The card the loop of [determineTrickWinner] selects is the winning card of
    the rules, provided the lead suit is the suit of the card that was led
    whenever that card is plain. *)
Lemma winningIndexOf_correct (first : Card) (rest : list Card) (l : Suit) :
  (isTrump first = false -> suit first = l) ->
  exists w,
    nth_error (first :: rest) (Z.to_nat (winningIndexOf (first :: rest) l)) = Some w
    /\ 0 <= winningIndexOf (first :: rest) l < JS.len (first :: rest)
    /\ winningCardOf (first :: rest) l w.
Proof.
  intros Hlead.
  assert (H0 : bestSoFar l [first] first).
  { split; [now left |]. split.
    - intros c [<- | []] Hc. split; [exact Hc | lia].
    - intros Hp. split; [now apply Hlead |].
      intros c [<- | []] _. lia. }
  destruct (winnerLoop_invariant l rest [first] first 0 H0 eq_refl) as (Hb & Hn & Hr).
  { unfold JS.len; cbn; lia. }
  cbn [app] in *. change (JS.len [first]) with 1 in *.
  unfold winningIndexOf.
  exists (fst (winnerLoop l rest 1 first 0)).
  split; [exact Hn |]. split; [exact Hr |].
  destruct Hb as (Hin & Htr & Hpl).
  split; [exact Hin |]. split; [exact Htr |].
  intros Hall. apply Hpl. now apply Hall.
Qed.

Lemma findIndex_by_id (ps : list Player) (k : nat) (p : Player) :
  NoDup (map id ps) -> nth_error ps k = Some p ->
  JS.findIndex (fun q => String.eqb (id q) (id p)) ps = Z.of_nat k.
Proof.
  intros Hnd Hk.
  rewrite findIndex_indexOf.
  rewrite (indexOf_first _ ps k p Hk (String.eqb_refl _)); [reflexivity |].
  intros j y Hj Hy.
  apply String.eqb_neq. intros E.
  assert (Hlen : (k < length (map id ps))%nat).
  { rewrite length_map. apply nth_error_Some. congruence. }
  assert (j = k); [| lia].
  apply (proj1 (NoDup_nth_error (map id ps)) Hnd j k); [lia |].
  rewrite !nth_error_map, Hk, Hy. cbn. now rewrite E.
Qed.

Lemma winnerLoop_range (l : Suit) (rest : list Card) (i : Z) (w : Card) (wi : Z) :
  0 <= wi < i ->
  0 <= snd (winnerLoop l rest i w wi) < i + JS.len rest.
Proof.
  revert i w wi. unfold JS.len.
  induction rest as [| card rest IH]; intros i w wi H; cbn [winnerLoop length].
  - cbn. lia.
  - destruct (beats l card w).
    + specialize (IH (i + 1) card i). lia.
    + specialize (IH (i + 1) w wi). lia.
Qed.

Lemma winningIndexOf_range (first : Card) (rest : list Card) (l : Suit) :
  0 <= winningIndexOf (first :: rest) l < JS.len (first :: rest).
Proof.
  unfold winningIndexOf.
  pose proof (winnerLoop_range l rest 1 first 0 ltac:(lia)) as H.
  unfold JS.len in *. cbn [length]. lia.
Qed.

(** What [determineTrickWinner] returns: with distinct player ids, the id of
    the player seated at twice the winning position, modulo the table size. *)
Lemma determineTrickWinner_seat (first : Card) (rest : list Card) (l : Suit)
    (ps : list Player) :
  NoDup (map id ps) ->
  (length (first :: rest) <= length ps)%nat ->
  let w := winningIndexOf (first :: rest) l in
  exists p,
    nth_error ps (Z.to_nat ((2 * w) mod JS.len ps)) = Some p
    /\ determineTrickWinner (first :: rest) l ps = Some (id p).
Proof.
  intros Hnd Hlen w.
  pose proof (winningIndexOf_range first rest l) as Hw. fold w in Hw.
  assert (Hn : 0 < JS.len ps) by (unfold JS.len in *; cbn [length] in *; lia).
  assert (Hwn : 0 <= w < JS.len ps) by (unfold JS.len in *; lia).
  destruct (at_in_range ps w Hwn) as [played Hplayed].
  assert (Hm : 0 <= (2 * w) mod JS.len ps < JS.len ps) by (apply Z.mod_pos_bound; lia).
  destruct (at_in_range ps _ Hm) as [p Hp].
  exists p. split; [now apply at_Some in Hp |].
  unfold determineTrickWinner.
  unfold w, winningIndexOf in *.
  destruct (winnerLoop l rest 1 first 0) as [wc wi]; cbn [snd] in *.
  rewrite Hplayed; cbn [bindT].
  apply at_Some in Hplayed as [_ Hplayed].
  rewrite (findIndex_by_id ps _ played Hnd Hplayed).
  rewrite Z2Nat.id by lia.
  unfold JS.rem. destruct (Z.eqb_spec (JS.len ps) 0); [lia |].
  cbn [JS.atIdx]. rewrite Z.rem_mod_nonneg by lia.
  replace (wi + wi) with (2 * wi) by lia.
  now rewrite Hp.
Qed.

(** C1 fails on the code. In the trick seven, ace, eight of clubs led in clubs,
    played in this order by p0, p1 and p2, the winning card is the ace, at
    position 1, played by p1; [determineTrickWinner] answers p2, the player at
    position 1 + 1. *)
Theorem determineTrickWinner_wrong_seat :
  winningIndexOf trick_7A8 CLUBS = 1
  /\ winningCardOf trick_7A8 CLUBS (c_ CLUBS ACE)
  /\ option_map id (JS.at_ seats3 1) = Some "p1"
  /\ determineTrickWinner trick_7A8 CLUBS seats3 = Some "p2".
Proof.
  split; [reflexivity |].
  split; [| split; reflexivity].
  destruct (winningIndexOf_correct (c_ CLUBS SEVEN) [c_ CLUBS ACE; c_ CLUBS EIGHT] CLUBS)
    as (w & Hn & _ & Hw); [reflexivity |].
  fold trick_7A8 in *.
  change (nth_error trick_7A8 (Z.to_nat (winningIndexOf trick_7A8 CLUBS)))
    with (Some (c_ CLUBS ACE)) in Hn.
  now injection Hn as <-.
Qed.

(* ------------------------------------------------------------------------- *)
(** ** Points and the score of a round *)

Lemma fold_left_add_sumZ {A : Type} (f : A -> Z) (xs : list A) (a : Z) :
  fold_left (fun acc x => acc + f x) xs a = a + sumZ (map f xs).
Proof.
  revert a. induction xs as [| x xs IH]; intros a; cbn; [lia |].
  rewrite IH. lia.
Qed.

Lemma sumZ_app (xs ys : list Z) : sumZ (xs ++ ys) = sumZ xs + sumZ ys.
Proof. induction xs as [| x xs IH]; cbn; [reflexivity | lia]. Qed.

Lemma sumZ_Permutation (xs ys : list Z) : Permutation xs ys -> sumZ xs = sumZ ys.
Proof. induction 1; cbn; lia. Qed.

Lemma calculatePoints_cardPoints (cs : list Card) : calculatePoints cs = cardPoints cs.
Proof. unfold calculatePoints, cardPoints. now rewrite fold_left_add_sumZ. Qed.

Lemma trickPoints_playerPoints (p : Player) : trickPoints p = playerPoints p.
Proof.
  unfold trickPoints, playerPoints. rewrite fold_left_add_sumZ.
  cbn. f_equal. apply map_ext. intros t. apply calculatePoints_cardPoints.
Qed.

Lemma addTeamPoints_teamPoints (team : list Player) (acc : Z) :
  addTeamPoints acc team = acc + teamPoints team.
Proof.
  unfold addTeamPoints, teamPoints.
  revert acc. induction team as [| p team IH]; intros acc; cbn; [lia |].
  rewrite IH, fold_left_add_sumZ.
  change (sumZ (map (fun trick => calculatePoints trick) (tricksWon p)))
    with (sumZ (map calculatePoints (tricksWon p))).
  rewrite (map_ext calculatePoints cardPoints calculatePoints_cardPoints).
  unfold playerPoints. lia.
Qed.

Lemma cardPoints_app (xs ys : list Card) :
  cardPoints (xs ++ ys) = cardPoints xs + cardPoints ys.
Proof. unfold cardPoints. now rewrite map_app, sumZ_app. Qed.

Lemma cardPoints_concat (ts : list (list Card)) :
  cardPoints (concat ts) = sumZ (map cardPoints ts).
Proof.
  induction ts as [| t ts IH]; [reflexivity |].
  change (concat (t :: ts)) with (t ++ concat ts).
  rewrite cardPoints_app, IH. reflexivity.
Qed.

Lemma cardPoints_wonCards (ps : list Player) :
  cardPoints (wonCards ps) = teamPoints ps.
Proof.
  induction ps as [| p ps IH]; [reflexivity |].
  change (wonCards (p :: ps)) with (concat (tricksWon p) ++ wonCards ps).
  change (teamPoints (p :: ps)) with (playerPoints p + teamPoints ps).
  rewrite cardPoints_app, IH, cardPoints_concat. reflexivity.
Qed.

Lemma teamPoints_split (f : Player -> bool) (ps : list Player) :
  teamPoints ps
  = teamPoints (filter f ps) + teamPoints (filter (fun p => negb (f p)) ps).
Proof.
  unfold teamPoints.
  induction ps as [| p ps IH]; cbn; [reflexivity |].
  destruct (f p); cbn; lia.
Qed.

Lemma teamPoints_no_tricks (team : list Player) :
  (forall p, In p team -> tricksWon p = []) -> teamPoints team = 0.
Proof.
  unfold teamPoints.
  induction team as [| p team IH]; intros H; cbn; [reflexivity |].
  rewrite IH by (intros q Hq; apply H; now right).
  unfold playerPoints. now rewrite (H p (or_introl eq_refl)).
Qed.

Lemma cardPoints_zero (cs : list Card) :
  (forall c, In c cs -> value c = 0) -> cardPoints cs = 0.
Proof.
  unfold cardPoints.
  induction cs as [| c cs IH]; intros H; cbn; [reflexivity |].
  rewrite IH by (intros d Hd; apply H; now right).
  now rewrite (H c (or_introl eq_refl)).
Qed.

Lemma cardPoints_orderedDeck : cardPoints orderedDeck = 120.
Proof. reflexivity. Qed.

Lemma pickerTeamScore_eq (s : GameState) :
  pickerTeamScore (calculateGameScore s)
  = teamPoints (pickerTeamOf (players s)) + cardPoints (buried s).
Proof.
  unfold calculateGameScore; cbn [pickerTeamScore].
  rewrite addTeamPoints_teamPoints, calculatePoints_cardPoints.
  fold (pickerTeamOf (players s)).
  destruct (JS.len (buried s) >? 0) eqn:E; [reflexivity |].
  destruct (buried s); [cbn; lia | discriminate E].
Qed.

Lemma defenderTeamScore_eq (s : GameState) :
  defenderTeamScore (calculateGameScore s) = teamPoints (defenderTeamOf (players s)).
Proof.
  unfold calculateGameScore; cbn [defenderTeamScore].
  now rewrite addTeamPoints_teamPoints.
Qed.

Lemma isPicKerTeamWinner_eq (s : GameState) :
  isPicKerTeamWinner (calculateGameScore s)
  = (61 <=? pickerTeamScore (calculateGameScore s)).
Proof.
  unfold calculateGameScore at 1; cbn [isPicKerTeamWinner].
  fold (pickerTeamScore (calculateGameScore s)).
  apply Z.geb_leb.
Qed.

(** The test of the code draws the line between the two sides where the
    rules draw it. *)
Lemma truthy_flagged (p : Player) : truthy (isPicker p) = true <-> flagged p.
Proof.
  unfold flagged. destruct (isPicker p) as [[|] |]; cbn; split; congruence.
Qed.

Lemma find_first {A : Type} (f : A -> bool) (xs : list A) (x : A) :
  find f xs = Some x
  <-> exists before after,
        xs = before ++ x :: after
        /\ f x = true
        /\ forall y, In y before -> f y = false.
Proof.
  split.
  - induction xs as [| a xs IH]; cbn [find]; [discriminate |].
    destruct (f a) eqn:Fa.
    + intros [= ->]. exists [], xs. repeat split; auto. intros y [].
    + intros H. destruct (IH H) as (before & after & -> & Fx & Hb).
      exists (a :: before), after. repeat split; auto.
      intros y [<- | Hy]; auto.
  - intros (before & after & -> & Fx & Hb).
    induction before as [| a before IH]; cbn [app find].
    + now rewrite Fx.
    + rewrite (Hb a (or_introl eq_refl)). apply IH.
      intros y Hy. apply Hb. now right.
Qed.

Lemma findPicker_firstFlagged (ps : list Player) (picker : Player) :
  findPicker ps = Some picker <-> firstFlagged ps picker.
Proof.
  unfold findPicker, firstFlagged. rewrite find_first.
  split; intros (before & after & E & Hx & Hb); exists before, after;
    (split; [exact E |]); split.
  - now apply truthy_flagged.
  - intros q Hq Hflag. apply truthy_flagged in Hflag.
    rewrite (Hb q Hq) in Hflag. discriminate.
  - now apply truthy_flagged.
  - intros q Hq. destruct (truthy (isPicker q)) eqn:E'; [| reflexivity].
    apply truthy_flagged in E'. now destruct (Hb q Hq).
Qed.

Lemma onPickerTeam_sides (ps : list Player) (p : Player) :
  onPickerTeam ps p = true <-> sidesWithPicker ps p.
Proof.
  unfold onPickerTeam, sidesWithPicker, pickersPartner.
  rewrite orb_true_iff, truthy_flagged.
  split; (intros [H | H]; [now left | right]).
  - destruct (findPicker ps) as [picker |] eqn:E; [| discriminate H].
    exists picker. split; [now apply findPicker_firstFlagged |].
    unfold idIs in H. destruct (partner picker) as [x |]; [| discriminate H].
    apply String.eqb_eq in H. now rewrite H.
  - destruct H as (picker & Hfirst & Hpartner).
    apply findPicker_firstFlagged in Hfirst. rewrite Hfirst, Hpartner.
    apply String.eqb_refl.
Qed.

Lemma splitBy_filter (P : Player -> Prop) (f : Player -> bool)
    (ps team others : list Player) :
  (forall p, f p = true <-> P p) ->
  splitBy P ps team others ->
  team = filter f ps /\ others = filter (fun p => negb (f p)) ps.
Proof.
  intros Hf. induction 1 as [| p ps team others Hp _ [-> ->] | p ps team others Hp _ [-> ->]];
    cbn [filter].
  - split; reflexivity.
  - apply Hf in Hp. rewrite Hp. split; reflexivity.
  - destruct (f p) eqn:E; [apply Hf in E; contradiction |]. split; reflexivity.
Qed.

Lemma filter_splitBy (P : Player -> Prop) (f : Player -> bool) (ps : list Player) :
  (forall p, f p = true <-> P p) ->
  splitBy P ps (filter f ps) (filter (fun p => negb (f p)) ps).
Proof.
  intros Hf. induction ps as [| p ps IH]; cbn [filter]; [constructor |].
  destruct (f p) eqn:E; cbn [negb].
  - apply splitBy_in; [now apply Hf | exact IH].
  - apply splitBy_out; [| exact IH]. intros HP. apply Hf in HP. congruence.
Qed.

(** Every table has its two sides, and they are the teams of the code. *)
Lemma teamsOf_code (s : GameState) :
  teamsOf s (pickerTeamOf (players s)) (defenderTeamOf (players s)).
Proof. apply filter_splitBy. intros p. apply onPickerTeam_sides. Qed.

Lemma teamsOf_unique (s : GameState) (pickerSide defenders : list Player) :
  teamsOf s pickerSide defenders ->
  pickerSide = pickerTeamOf (players s) /\ defenders = defenderTeamOf (players s).
Proof.
  apply splitBy_filter. intros p. apply onPickerTeam_sides.
Qed.

(** C5: with the picker's side made of the players who carry the picker flag
    or whose id the first flagged player names as partner, and the defenders
    of all the others, each side's score is the sum of the points of the
    tricks its members won, the buried points go to the picker's side, and
    the picker's side wins exactly from 61 points on; a five-handed round in
    which the defenders took no trick over two buried cards worth nothing
    scores 120 to 0. *)
Theorem calculateGameScore_spec (s : GameState) (pickerSide defenders : list Player) :
  teamsOf s pickerSide defenders ->
  let r := calculateGameScore s in
  pickerTeamScore r = teamPoints pickerSide + cardPoints (buried s)
  /\ defenderTeamScore r = teamPoints defenders
  /\ (isPicKerTeamWinner r = true
      <-> 61 <= teamPoints pickerSide + cardPoints (buried s))
  /\ (pickerTookEverything s defenders ->
      pickerTeamScore r = 120 /\ defenderTeamScore r = 0).
Proof.
  intros Hteams. cbv zeta.
  destruct (teamsOf_unique s pickerSide defenders Hteams) as [-> ->].
  pose proof (pickerTeamScore_eq s) as Hp.
  pose proof (defenderTeamScore_eq s) as Hd.
  split; [exact Hp |]. split; [exact Hd |]. split.
  - rewrite isPicKerTeamWinner_eq, Hp. apply Z.leb_le.
  - intros (_ & _ & Hzero & Hdef & Hperm).
    assert (D0 : teamPoints (defenderTeamOf (players s)) = 0).
    { apply teamPoints_no_tricks. intros p Hin. now apply Hdef. }
    rewrite Hp, Hd. split; [| exact D0].
    assert (T : cardPoints (wonCards (players s) ++ buried s) = 120).
    { unfold cardPoints.
      rewrite (sumZ_Permutation _ _ (Permutation_map value Hperm)).
      exact cardPoints_orderedDeck. }
    rewrite cardPoints_app, cardPoints_wonCards in T.
    rewrite (teamPoints_split (onPickerTeam (players s))) in T.
    fold (pickerTeamOf (players s)) (defenderTeamOf (players s)) in T.
    lia.
Qed.

(** In the swept round p1 carries the flag and names p3; p0, p2 and p4
    defend and took no trick: 120 to 0. In the round of the last trick the
    same sides hold 60 and 15 points against 15, 0 and 30: 75 to 45. *)
Lemma calculateGameScore_spec_witness :
  (teamsOf sweptRound [sweptSeat 1; sweptSeat 3] [sweptSeat 0; sweptSeat 2; sweptSeat 4]
   /\ pickerTookEverything sweptRound [sweptSeat 0; sweptSeat 2; sweptSeat 4]
   /\ pickerTeamScore (calculateGameScore sweptRound) = 120
   /\ defenderTeamScore (calculateGameScore sweptRound) = 0)
  /\ (teamsOf lastTrickResolved
        [seated lastTrickResolved 1; seated lastTrickResolved 3]
        [seated lastTrickResolved 0; seated lastTrickResolved 2;
         seated lastTrickResolved 4]
      /\ pickerTeamScore (calculateGameScore lastTrickResolved) = 75
      /\ defenderTeamScore (calculateGameScore lastTrickResolved) = 45
      /\ isPicKerTeamWinner (calculateGameScore lastTrickResolved) = true).
Proof.
  assert (Hdefends : forall ps picker p,
            findPicker ps = Some picker -> partner picker = Some "p3" ->
            id p <> "p3" -> isPicker p <> Some true ->
            ~ sidesWithPicker ps p).
  { intros ps picker p Hfind Hp3 Hid Hflag [H | (pk & Hfirst & Hpartner)];
      [exact (Hflag H) |].
    apply findPicker_firstFlagged in Hfirst.
    rewrite Hfirst in Hfind. injection Hfind as ->.
    rewrite Hpartner in Hp3. injection Hp3 as E. exact (Hid E). }
  assert (Hsides : forall s p0 p1 p2 p3 p4,
            players s = [p0; p1; p2; p3; p4] ->
            findPicker (players s) = Some p1 -> partner p1 = Some "p3" ->
            isPicker p1 = Some true -> id p3 = "p3" ->
            isPicker p0 <> Some true -> isPicker p2 <> Some true ->
            isPicker p4 <> Some true ->
            id p0 <> "p3" -> id p2 <> "p3" -> id p4 <> "p3" ->
            teamsOf s [p1; p3] [p0; p2; p4]).
  { intros s p0 p1 p2 p3 p4 Hps Hfind Hp3 Hflag Hid3 F0 F2 F4 I0 I2 I4.
    unfold teamsOf. rewrite Hps at 2.
    apply splitBy_out; [now apply (Hdefends _ p1) |].
    apply splitBy_in; [left; exact Hflag |].
    apply splitBy_out; [now apply (Hdefends _ p1) |].
    apply splitBy_in.
    { right. exists p1. split; [| now rewrite Hp3, Hid3].
      apply findPicker_firstFlagged. exact Hfind. }
    apply splitBy_out; [now apply (Hdefends _ p1) |].
    apply splitBy_nil. }
  assert (Hswept : teamsOf sweptRound [sweptSeat 1; sweptSeat 3]
                     [sweptSeat 0; sweptSeat 2; sweptSeat 4]).
  { apply Hsides; first [reflexivity | discriminate]. }
  assert (Hlast : teamsOf lastTrickResolved
                    [seated lastTrickResolved 1; seated lastTrickResolved 3]
                    [seated lastTrickResolved 0; seated lastTrickResolved 2;
                     seated lastTrickResolved 4]).
  { apply Hsides; first [reflexivity | discriminate]. }
  assert (H : pickerTookEverything sweptRound [sweptSeat 0; sweptSeat 2; sweptSeat 4]).
  { split; [reflexivity |]. split; [reflexivity |]. split.
    - intros c [<- | [<- | []]]; reflexivity.
    - split.
      + intros p [<- | [<- | [<- | []]]]; reflexivity.
      + change (wonCards (players sweptRound)) with (skipn 2 orderedDeck).
        change (buried sweptRound) with (firstn 2 orderedDeck).
        rewrite Permutation_app_comm. now rewrite firstn_skipn. }
  split.
  - split; [exact Hswept |]. split; [exact H |].
    apply (calculateGameScore_spec sweptRound _ _ Hswept). exact H.
  - destruct (calculateGameScore_spec lastTrickResolved _ _ Hlast)
      as (Hpicker & Hdefender & Hwins & _).
    split; [exact Hlast |]. split; [exact Hpicker |]. split; [exact Hdefender |].
    apply Hwins. vm_compute. discriminate.
Defined.

(* ------------------------------------------------------------------------- *)
(** ** Passing the blind *)

Lemma GamePhase_eqb_eq (a b : GamePhase) : GamePhase_eqb a b = true <-> a = b.
Proof. destruct a, b; cbn; split; congruence. Qed.

Lemma GamePhase_eqb_neq (a b : GamePhase) : GamePhase_eqb a b = false <-> a <> b.
Proof. destruct a, b; cbn; split; congruence. Qed.

(** C4, as stated, fails: when p1 and p2 pass after p0 dealt, the round turns
    into a leaster and the turn goes to p0, the dealer, not to p1, the seat
    after the dealer. *)
Lemma all_pass_turn_is_dealer :
  option_map (fun s => (phase s, isLeaster s, currentTurn s))
    (run env0 dealt3 [PASS_BLIND "p1"; PASS_BLIND "p2"])
  = Some (PLAYING, true, "p0")
  /\ option_map id (dealerOf (players dealt3)) = Some "p0"
  /\ option_map id
       (seatAfter (players dealt3) (JS.findIndex isDealer (players dealt3)))
     = Some "p1".
Proof. repeat split; reflexivity. Qed.

(** C4, amended: in the picking phase a pass hands the turn to the seat after
    the passer's; when that seat is the dealer's, the phase becomes PLAYING
    with [isLeaster] set and the turn is the dealer's own; the players are
    left as they were, so a table without picker stays without picker. *)
Theorem passBlind_spec (env : Env) (s : GameState) (playerId : string) :
  phase s = PICKING -> players s <> [] ->
  let ps := players s in
  let next := (JS.findIndex (fun p => String.eqb (id p) playerId) ps + 1) mod JS.len ps in
  exists nextPlayer s',
    JS.at_ ps next = Some nextPlayer
    /\ gameReducer env s (PASS_BLIND playerId) = Some s'
    /\ currentTurn s' = id nextPlayer
    /\ players s' = ps
    /\ (if next =? JS.findIndex isDealer ps
        then phase s' = PLAYING /\ isLeaster s' = true /\ dealerOf ps = Some nextPlayer
        else phase s' = PICKING /\ isLeaster s' = isLeaster s)
    /\ ((forall p, In p ps -> truthy (isPicker p) = false) ->
        forall p, In p (players s') -> truthy (isPicker p) = false).
Proof.
  intros Hphase Hne ps next.
  destruct (rem_next ps (JS.findIndex (fun p => String.eqb (id p) playerId) ps) Hne
              (findIndex_ge _ _)) as [Hrem Hrange].
  fold next in Hrem, Hrange.
  destruct (at_in_range ps next Hrange) as [nextPlayer Hat].
  cbn [gameReducer]. unfold passBlind.
  rewrite Hphase; cbn [GamePhase_eqb negb].
  fold ps. rewrite Hrem. cbn [JS.atIdx JS.idxEq]. rewrite Hat.
  destruct (Z.eqb_spec next (JS.findIndex isDealer ps)) as [E | E]; cbn [bindT].
  - eexists nextPlayer, _. split; [reflexivity |]. split; [reflexivity |].
    cbn. repeat split; auto.
    unfold dealerOf. rewrite <- at_findIndex by lia. now rewrite <- E.
  - eexists nextPlayer, _. split; [reflexivity |]. split; [reflexivity |].
    cbn. repeat split; auto.
Qed.

Lemma passBlind_spec_witness :
  exists nextPlayer s',
    JS.at_ (players dealt3) 0 = Some nextPlayer
    /\ gameReducer env0 (orInitial (run env0 dealt3 [PASS_BLIND "p1"])) (PASS_BLIND "p2")
       = Some s'
    /\ currentTurn s' = id nextPlayer
    /\ phase s' = PLAYING /\ isLeaster s' = true
    /\ dealerOf (players dealt3) = Some nextPlayer.
Proof.
  destruct (passBlind_spec env0 (orInitial (run env0 dealt3 [PASS_BLIND "p1"])) "p2")
    as (nextPlayer & s' & Hat & Hred & Hturn & _ & Hlast & _);
    [reflexivity | discriminate |].
  exists nextPlayer, s'. cbn in Hat, Hlast.
  destruct Hlast as (Hp & Hl & Hd). auto 10.
Defined.

(* ------------------------------------------------------------------------- *)
(** ** Rejected actions *)

Lemma find_none_forall {A : Type} (f : A -> bool) (xs : list A) :
  find f xs = None <-> forall x, In x xs -> f x = false.
Proof.
  split.
  - intros H x Hx. now apply (find_none f xs H).
  - induction xs as [| x xs IH]; intros H; cbn; [reflexivity |].
    rewrite (H x (or_introl eq_refl)). apply IH. intros y Hy. apply H. now right.
Qed.

(** C2, as stated, fails. With p1 to act in the picking phase, a pick by p2
    is carried out; and the picker p1, who does not hold the nine of clubs,
    buries it all the same: the buried pile changes. *)
Lemma illegal_actions_accepted :
  run env0 initialState [START_GAME three; PICK_BLIND "p1"] = Some picked3
  /\ (run env0 initialState [START_GAME three] = Some dealt3
      /\ currentTurn dealt3 = "p1" /\ phase dealt3 = PICKING
   /\ option_map (fun s => (phase s, map (fun p => truthy (isPicker p)) (players s)))
        (gameReducer env0 dealt3 (PICK_BLIND "p2"))
      = Some (BURYING, [false; false; true]))
  /\ (option_map (fun p => holds p (c_ CLUBS NINE)) (playerById (players picked3) "p1")
      = Some false
      /\ buried picked3 = []
      /\ option_map buried
           (gameReducer env0 picked3 (BURY_CARDS "p1" [c_ CLUBS NINE; c_ CLUBS QUEEN]))
         = Some [c_ CLUBS NINE; c_ CLUBS QUEEN]).
Proof. repeat split; reflexivity. Qed.

(** C2, amended: a pick, pass, bury, partner call or card play whose tag does
    not match the phase, or which the guards of its case refuse (see
    [refused]), returns the state as it was and does not throw. *)
Theorem rejected_action_is_noop (env : Env) (s : GameState) (a : ActionType) :
  playerAction a = true ->
  wrongPhase s a \/ refused s a ->
  gameReducer env s a = Some s.
Proof.
  destruct a as [ | pid | pid | pid toBury | pid partnerId | pid card | | | | | | ];
    try discriminate; intros _ H; cbn [gameReducer wrongPhase refused] in *.
  - (* PICK_BLIND *)
    unfold pickBlind.
    destruct H as [H | H].
    + apply GamePhase_eqb_neq in H. rewrite H. now rewrite orb_true_r.
    + apply findIndex_none in H. unfold playerById in H. now rewrite H.
  - (* PASS_BLIND *)
    unfold passBlind. destruct H as [H | []].
    apply GamePhase_eqb_neq in H. now rewrite H.
  - (* BURY_CARDS *)
    unfold buryCards.
    destruct (GamePhase_eqb (phase s) BURYING) eqn:P; [| reflexivity].
    destruct H as [H | [H | H]].
    + apply GamePhase_eqb_eq in P. contradiction.
    + unfold JS.len. destruct (Z.eqb_spec (Z.of_nat (length toBury)) 2); [lia | reflexivity].
    + cbn [negb orb].
      destruct (negb (JS.len toBury =? 2)); [reflexivity |].
      assert (E : JS.findIndex
                    (fun p => String.eqb (id p) pid && truthy (isPicker p)) (players s)
                  = -1).
      { apply findIndex_none, find_none_forall. intros p Hp.
        destruct (String.eqb_spec (id p) pid) as [Hid | _]; [| reflexivity].
        now rewrite (H p Hp Hid). }
      now rewrite E.
  - (* CALL_PARTNER *)
    unfold callPartner.
    destruct (GamePhase_eqb (phase s) CALLING_PARTNER) eqn:P; [| reflexivity].
    destruct H as [H | H]; [apply GamePhase_eqb_eq in P; contradiction |].
    cbn [negb].
    destruct (Z.eqb_spec (JS.findIndex (fun p => truthy (isPicker p)) (players s)) (-1))
      as [| N]; [reflexivity |].
    rewrite (at_findIndex _ _ N).
    fold (findPicker (players s)).
    destruct (findPicker (players s)) as [picker |] eqn:F; cbn [bindT].
    + specialize (H picker eq_refl). apply String.eqb_neq in H. now rewrite H.
    + apply findIndex_none in F. contradiction.
  - (* PLAY_CARD *)
    unfold playCard.
    destruct (GamePhase_eqb (phase s) PLAYING) eqn:P; [| reflexivity].
    destruct H as [H | H]; [apply GamePhase_eqb_eq in P; contradiction |].
    cbn [negb orb].
    destruct (String.eqb_spec (currentTurn s) pid) as [T | T]; [| reflexivity].
    cbn [negb].
    destruct (Z.eqb_spec (JS.findIndex (fun p => String.eqb (id p) pid) (players s)) (-1))
      as [| N]; [reflexivity |].
    rewrite (at_findIndex _ _ N). fold (playerById (players s) pid).
    destruct H as [H | [H | (p & Hp & Hv)]].
    + contradiction.
    + apply findIndex_none in H. contradiction.
    + rewrite Hp; cbn [bindT]. now rewrite Hv.
Qed.

Lemma rejected_action_is_noop_witness :
  gameReducer env0 dealt3 (PLAY_CARD "p1" (c_ CLUBS SEVEN)) = Some dealt3
  /\ gameReducer env0 picked3 (BURY_CARDS "p0" [c_ CLUBS NINE; c_ CLUBS QUEEN])
     = Some picked3.
Proof.
  split.
  - apply rejected_action_is_noop; [reflexivity |].
    left. cbn. discriminate.
  - apply rejected_action_is_noop; [reflexivity |].
    right. cbn. right.
    intros p [<- | [<- | [<- | []]]]; cbn; intros E; (reflexivity || discriminate E).
Defined.

(* ------------------------------------------------------------------------- *)
(** ** Scoring a round *)

Lemma hiFrom_cons (m : Z) (p : Player) (ps : list Player) :
  hiFrom m (p :: ps) = Z.max (playerPoints p) (hiFrom m ps).
Proof. reflexivity. Qed.

Lemma hiFrom_ge (m : Z) (ps : list Player) : m <= hiFrom m ps.
Proof. induction ps as [| p ps IH]; [cbn; lia | rewrite hiFrom_cons; lia]. Qed.

Lemma hiFrom_max (a b : Z) (ps : list Player) :
  hiFrom (Z.max a b) ps = Z.max a (hiFrom b ps).
Proof.
  induction ps as [| p ps IH]; [reflexivity |].
  rewrite !hiFrom_cons, IH. lia.
Qed.

Lemma hiFrom_bound (m : Z) (ps : list Player) (q : Player) :
  In q ps -> playerPoints q <= hiFrom m ps.
Proof.
  induction ps as [| p ps IH]; [contradiction |].
  rewrite hiFrom_cons.
  intros [<- | H]; [lia | specialize (IH H); lia].
Qed.

Lemma hiFrom_least (m b : Z) (ps : list Player) :
  m <= b -> (forall q, In q ps -> playerPoints q <= b) -> hiFrom m ps <= b.
Proof.
  intros Hm. induction ps as [| p ps IH]; intros H; [cbn; lia |].
  rewrite hiFrom_cons.
  pose proof (H p (or_introl eq_refl)).
  assert (hiFrom m ps <= b) by (apply IH; intros q Hq; apply H; now right).
  lia.
Qed.

Lemma hiFrom_attained (m : Z) (ps : list Player) :
  hiFrom m ps = m \/ exists q, In q ps /\ playerPoints q = hiFrom m ps.
Proof.
  induction ps as [| p ps IH]; [now left |].
  rewrite hiFrom_cons.
  destruct (Z.max_spec (playerPoints p) (hiFrom m ps)) as [[_ ->] | [_ ->]].
  - destruct IH as [IH | (q & Hq & E)]; [now left | right].
    exists q. split; [now right | exact E].
  - right. exists p. split; [now left | reflexivity].
Qed.

Lemma hiFrom_found (m : Z) (ps : list Player) :
  m < hiFrom m ps ->
  exists q, find (fun p => playerPoints p =? hiFrom m ps) ps = Some q.
Proof.
  intros H.
  destruct (hiFrom_attained m ps) as [E | (q & Hq & E)]; [lia |].
  destruct (find (fun p => playerPoints p =? hiFrom m ps) ps) as [r |] eqn:F; [eauto |].
  pose proof (find_none _ _ F q Hq) as N. cbn in N.
  apply Z.eqb_neq in N. contradiction.
Qed.

(** The scan of the leaster branch computes the highest total and the id of
    the first player who reaches it. *)
Lemma leasterScan_from (ps : list Player) (m : Z) (w : string) :
  fold_left
    (fun acc p =>
       let '(maxPoints, leasterWinnerId) := acc in
       if trickPoints p >? maxPoints then (trickPoints p, id p)
       else (maxPoints, leasterWinnerId))
    ps (m, w)
  = (hiFrom m ps, leaderFrom m w ps).
Proof.
  revert m w. induction ps as [| p ps IH]; intros m w.
  - cbn. unfold leaderFrom. cbn. now rewrite Z.ltb_irrefl.
  - cbn [fold_left]. rewrite trickPoints_playerPoints.
    pose proof (hiFrom_ge m ps) as Hge.
    pose proof (hiFrom_ge (playerPoints p) ps) as Hgep.
    destruct (Z.gtb_spec (playerPoints p) m) as [Hgt | Hle]; rewrite IH.
    + assert (E : hiFrom m (p :: ps) = hiFrom (playerPoints p) ps).
      { rewrite hiFrom_cons.
        replace (playerPoints p) with (Z.max (playerPoints p) m) at 2 by lia.
        now rewrite hiFrom_max. }
      f_equal; [now rewrite E |].
      unfold leaderFrom. rewrite E. cbn [find].
      destruct (Z.ltb_spec m (hiFrom (playerPoints p) ps)); [| lia].
      destruct (Z.eqb_spec (playerPoints p) (hiFrom (playerPoints p) ps)) as [Q | Q].
      * destruct (Z.ltb_spec (playerPoints p) (hiFrom (playerPoints p) ps)); [lia | reflexivity].
      * destruct (Z.ltb_spec (playerPoints p) (hiFrom (playerPoints p) ps)); [| lia].
        destruct (hiFrom_found (playerPoints p) ps) as [q ->]; [lia | reflexivity].
    + assert (E : hiFrom m (p :: ps) = hiFrom m ps).
      { rewrite hiFrom_cons. lia. }
      f_equal; [now rewrite E |].
      unfold leaderFrom. rewrite E. cbn [find].
      destruct (Z.ltb_spec m (hiFrom m ps)); [| reflexivity].
      destruct (Z.eqb_spec (playerPoints p) (hiFrom m ps)); [lia | reflexivity].
Qed.

Lemma leasterScan_spec (ps : list Player) :
  leasterScan ps
  = (highestPoints ps, match leasterLeader ps with Some w => id w | None => empty end).
Proof.
  unfold leasterScan. rewrite leasterScan_from.
  unfold leaderFrom, leasterLeader, highestPoints.
  destruct (0 <? hiFrom 0 ps); [| reflexivity].
  now destruct (find _ ps).
Qed.

Lemma leasterLeader_none (ps : list Player) :
  leasterLeader ps = None -> highestPoints ps = 0.
Proof.
  unfold leasterLeader, highestPoints.
  pose proof (hiFrom_ge 0 ps).
  destruct (Z.ltb_spec 0 (hiFrom 0 ps)) as [Hlt | Hge]; [| lia].
  destruct (hiFrom_found 0 ps Hlt) as [q ->]. discriminate.
Qed.

Lemma scorePlayer_spec (s : GameState) (p : Player) :
  id (scorePlayer s (calculateGameScore s) p) = id p
  /\ score (scorePlayer s (calculateGameScore s) p) = score p + roundGain s p.
Proof.
  unfold scorePlayer, roundGain.
  destruct (isLeaster s).
  - rewrite leasterScan_spec.
    destruct (leasterLeader (players s)) as [w |] eqn:L.
    + destruct (String.eqb (id p) (id w)); cbn; split; (reflexivity || lia).
    + rewrite (leasterLeader_none _ L).
      destruct (String.eqb (id p) empty); cbn; split; (reflexivity || lia).
  - destruct (findPicker (players s)) as [picker |] eqn:F; [| cbn; split; (reflexivity || lia)].
    assert (T : truthy (isPicker p) || idIs p (partner picker) = onPickerTeam (players s) p).
    { unfold onPickerTeam, pickersPartner. now rewrite F. }
    rewrite T, isPicKerTeamWinner_eq, pickerTeamScore_eq, defenderTeamScore_eq.
    destruct (onPickerTeam (players s) p),
      (61 <=? teamPoints (pickerTeamOf (players s)) + cardPoints (buried s));
      cbn; split; (reflexivity || lia).
Qed.

(** END_ROUND on a table that is not empty. *)
Lemma endRound_players (env : Env) (s : GameState) :
  players s <> [] ->
  exists s',
    endRound env s = Some s'
    /\ phase s' = SCORING
    /\ deck s' = deck s /\ buried s' = buried s /\ currentTrick s' = currentTrick s
    /\ leadSuit s' = leadSuit s
    /\ length (players s') = length (players s)
    /\ forall k p, nth_error (players s) k = Some p ->
         exists p', nth_error (players s') k = Some p' /\ scoredAndReset s k p p'.
Proof.
  intros Hne.
  destruct (rem_next (players s) (JS.findIndex isDealer (players s)) Hne (findIndex_ge _ _))
    as [Hrem Hrange].
  unfold endRound. rewrite Hrem.
  set (rotated := JS.mapi _ _).
  assert (Hlen : length rotated = length (players s))
    by (unfold rotated; now rewrite length_mapi, length_map).
  destruct (at_in_range rotated ((JS.findIndex isDealer (players s) + 1) mod JS.len (players s)))
    as [newDealer Hnd].
  { unfold JS.len in *. rewrite Hlen. exact Hrange. }
  cbn [JS.atIdx]. rewrite Hnd. cbn [bindT].
  eexists. split; [reflexivity |]. cbn.
  repeat (split; [reflexivity || exact Hlen |]).
  intros k p Hk.
  unfold rotated, JS.mapi. rewrite nth_error_mapiFrom, nth_error_map, Hk. cbn.
  eexists. split; [reflexivity |].
  destruct (scorePlayer_spec s p) as [Hid Hsc].
  unfold scoredAndReset, nextDealerSeat. cbn. rewrite Hid, Hsc.
  repeat split; try reflexivity.
  apply Z.eqb_sym.
Qed.

(** C6, as stated, fails. In [lastCardRound] the last card sends the trick to
    p4 and the round is scored at once: the picker's side (p1 and p3) has 75
    points, the defenders 45; p1 and p3 gain 75 each and the defenders gain
    nothing, not 45. *)
Lemma losing_side_gains_nothing :
  gameReducer env0 lastCardRound (PLAY_CARD "p0" (c_ DIAMONDS ACE))
  = gameReducer env0 lastCardPlayed END_TRICK
  /\ gameReducer env0 lastCardPlayed END_TRICK
     = gameReducer env0 lastTrickResolved END_ROUND
  /\ pickerTeamScore (calculateGameScore lastTrickResolved) = 75
  /\ defenderTeamScore (calculateGameScore lastTrickResolved) = 45
  /\ map (fun p => (id p, onPickerTeam (players lastTrickResolved) p, score p))
       (players lastTrickResolved)
     = [("p0", false, 0); ("p1", true, 0); ("p2", false, 0); ("p3", true, 0);
        ("p4", false, 0)]
  /\ option_map (fun s => (phase s, map (fun p => (id p, score p)) (players s)))
       (gameReducer env0 lastTrickResolved END_ROUND)
     = Some (SCORING, [("p0", 0); ("p1", 75); ("p2", 0); ("p3", 75); ("p4", 0)]).
Proof. repeat split; reflexivity. Qed.

(** C6, amended: when a trick is complete and the first player's hand is
    empty, END_TRICK runs END_ROUND on the state in which the trick has been
    awarded; END_ROUND sets the phase to SCORING and leaves every player with
    the same id, an empty hand, no tricks, no picker flag and no partner, the
    dealer flag on the seat after the former dealer's, and a score increased
    by [roundGain]: the members of the winning side gain the total of their
    side and the losing side gains nothing; in a leaster only the leader
    gains, the highest total. *)
Theorem last_trick_scores_round (env : Env) (s : GameState) :
  (forall w p0 rest,
     JS.len (currentTrick s) = JS.len (players s) ->
     determineTrickWinner (currentTrick s)
       (match leadSuit s with Some l => l | None => CLUBS end) (players s) = Some w ->
     players s = p0 :: rest -> cards p0 = [] ->
     gameReducer env s END_TRICK = gameReducer env (trickResolved env s w) END_ROUND)
  /\ (players s <> [] ->
      exists s',
        gameReducer env s END_ROUND = Some s'
        /\ phase s' = SCORING
        /\ length (players s') = length (players s)
        /\ forall k p, nth_error (players s) k = Some p ->
             exists p', nth_error (players s') k = Some p' /\ scoredAndReset s k p p').
Proof.
  split.
  - intros w p0 rest Hfull Hw Hps Hempty.
    cbn [gameReducer]. unfold endTrick.
    rewrite Hfull, Z.eqb_refl. cbn [negb]. rewrite Hw. cbn [bindT].
    unfold awardTrick. rewrite Hps. cbn [map JS.at_ Z.ltb Z.compare Z.to_nat nth_error].
    cbn [bindT].
    destruct (String.eqb (id p0) w); cbn [cards withTricksWon]; now rewrite Hempty.
  - intros Hne. cbn [gameReducer].
    destruct (endRound_players env s Hne) as (s' & H1 & H2 & _ & _ & _ & _ & H3 & H4).
    exists s'. auto.
Qed.

Lemma last_trick_scores_round_witness :
  gameReducer env0 lastCardPlayed END_TRICK
  = gameReducer env0 (trickResolved env0 lastCardPlayed "p4") END_ROUND
  /\ exists s',
       gameReducer env0 lastTrickResolved END_ROUND = Some s'
       /\ phase s' = SCORING
       /\ length (players s') = 5%nat.
Proof.
  split.
  - eapply (proj1 (last_trick_scores_round env0 lastCardPlayed)); reflexivity.
  - destruct (proj2 (last_trick_scores_round env0 lastTrickResolved))
      as (s' & H1 & H2 & H3 & _); [discriminate |].
    exists s'. auto.
Defined.

(* ------------------------------------------------------------------------- *)
(** ** The leaster *)

Lemma wfCard_value_nonneg (c : Card) : wfCard c -> 0 <= value c.
Proof. intros [-> _]. destruct (rank c); cbn; lia. Qed.

Lemma cardPoints_nonneg (cs : list Card) : Forall wfCard cs -> 0 <= cardPoints cs.
Proof.
  unfold cardPoints. induction 1 as [| c cs Hc _ IH]; cbn; [lia |].
  pose proof (wfCard_value_nonneg c Hc). lia.
Qed.

Lemma playerPoints_nonneg (p : Player) :
  Forall wfCard (concat (tricksWon p)) -> 0 <= playerPoints p.
Proof.
  intros H. unfold playerPoints. rewrite <- cardPoints_concat.
  now apply cardPoints_nonneg.
Qed.

Lemma wonCards_player (ps : list Player) (p : Player) :
  In p ps -> Forall wfCard (wonCards ps) -> Forall wfCard (concat (tricksWon p)).
Proof.
  intros Hin H. rewrite Forall_forall in *. intros c Hc. apply H.
  unfold wonCards, gather. apply in_concat. exists (concat (tricksWon p)).
  split; [| exact Hc]. apply in_map_iff. now exists p.
Qed.

Lemma distinct_ids (ps : list Player) (j k : nat) (q p : Player) :
  NoDup (map id ps) -> nth_error ps j = Some q -> nth_error ps k = Some p ->
  id q = id p -> j = k.
Proof.
  intros Hnd Hj Hk E.
  apply (proj1 (NoDup_nth_error (map id ps)) Hnd j k).
  - rewrite length_map. apply nth_error_Some. congruence.
  - rewrite !nth_error_map, Hj, Hk. cbn. now rewrite E.
Qed.

(** The leader of a leaster: the first of the players with the highest
    total, when that total is positive. *)
Lemma leasterLeader_first (ps : list Player) (k : nat) (p : Player) :
  nth_error ps k = Some p ->
  (forall q, In q ps -> playerPoints q <= playerPoints p) ->
  (forall j q, (j < k)%nat -> nth_error ps j = Some q -> playerPoints q < playerPoints p) ->
  0 <= playerPoints p ->
  highestPoints ps = playerPoints p
  /\ leasterLeader ps = if 0 <? playerPoints p then Some p else None.
Proof.
  intros Hk Hmax Hfirst Hpos.
  assert (H : highestPoints ps = playerPoints p).
  { unfold highestPoints. apply Z.le_antisymm.
    - now apply hiFrom_least.
    - apply hiFrom_bound. eapply nth_error_In; eauto. }
  split; [exact H |].
  unfold leasterLeader. rewrite H.
  destruct (0 <? playerPoints p); [| reflexivity].
  rewrite find_indexOf.
  rewrite (indexOf_first _ ps k p Hk (Z.eqb_refl _)); [exact Hk |].
  intros j q Hj Hq. apply Z.eqb_neq. specialize (Hfirst j q Hj Hq). lia.
Qed.

(** C10: in a leaster, the first player, in table order, among those with the
    highest trick-point total is the only one whose score is increased, by
    that total; and when every total is zero no score changes. Player ids
    are distinct and the cards are cards of the deck. *)
Theorem leaster_tie_goes_to_first (env : Env) (s : GameState) :
  isLeaster s = true -> players s <> [] ->
  exists s',
    gameReducer env s END_ROUND = Some s'
    /\ (NoDup (map id (players s)) -> Forall wfCard (wonCards (players s)) ->
        forall k p,
          nth_error (players s) k = Some p ->
          (forall q, In q (players s) -> playerPoints q <= playerPoints p) ->
          (forall j q, (j < k)%nat -> nth_error (players s) j = Some q ->
                       playerPoints q < playerPoints p) ->
          forall j q, nth_error (players s) j = Some q ->
            exists q', nth_error (players s') j = Some q'
                       /\ score q' = if (j =? k)%nat then score q + playerPoints q
                                     else score q)
    /\ ((forall q, In q (players s) -> playerPoints q = 0) ->
        forall j q, nth_error (players s) j = Some q ->
          exists q', nth_error (players s') j = Some q' /\ score q' = score q).
Proof.
  intros Hl Hne. cbn [gameReducer].
  destruct (endRound_players env s Hne) as (s' & Hs' & _ & _ & _ & _ & _ & _ & Hp).
  exists s'. split; [exact Hs' |]. split.
  - intros Hnd Hwf k p Hk Hmax Hfirst j q Hj.
    destruct (Hp j q Hj) as (q' & Hq' & _ & Hsc & _).
    exists q'. split; [exact Hq' |]. rewrite Hsc.
    assert (Hpos : 0 <= playerPoints p).
    { apply playerPoints_nonneg. apply (wonCards_player (players s)); [| exact Hwf].
      eapply nth_error_In; eauto. }
    destruct (leasterLeader_first _ k p Hk Hmax Hfirst Hpos) as [Hhi Hlead].
    unfold roundGain. rewrite Hl, Hlead, Hhi.
    destruct (Nat.eqb_spec j k) as [-> | Hjk].
    + assert (q = p) by congruence. subst q.
      destruct (Z.ltb_spec 0 (playerPoints p)); [| lia].
      now rewrite String.eqb_refl.
    + destruct (0 <? playerPoints p); [| lia].
      destruct (String.eqb_spec (id q) (id p)) as [E | _]; [| lia].
      exfalso. apply Hjk. exact (distinct_ids _ _ _ _ _ Hnd Hj Hk E).
  - intros Hzero j q Hj.
    destruct (Hp j q Hj) as (q' & Hq' & _ & Hsc & _).
    exists q'. split; [exact Hq' |]. rewrite Hsc.
    assert (H0 : highestPoints (players s) = 0).
    { unfold highestPoints. pose proof (hiFrom_ge 0 (players s)).
      assert (hiFrom 0 (players s) <= 0); [| lia].
      apply hiFrom_least; [lia |]. intros r Hr. rewrite (Hzero r Hr). lia. }
    unfold roundGain, leasterLeader. rewrite Hl, H0. cbn. lia.
Qed.

Lemma leaster_tie_goes_to_first_witness :
  (exists s',
     gameReducer env0 tiedLeaster END_ROUND = Some s'
     /\ forall j q, nth_error (players tiedLeaster) j = Some q ->
          exists q', nth_error (players s') j = Some q'
                     /\ score q' = if (j =? 1)%nat then score q + 21 else score q)
  /\ (exists s',
        gameReducer env0 pointlessLeaster END_ROUND = Some s'
        /\ forall j q, nth_error (players pointlessLeaster) j = Some q ->
             exists q', nth_error (players s') j = Some q' /\ score q' = score q).
Proof.
  split.
  2:{ destruct (leaster_tie_goes_to_first env0 pointlessLeaster)
        as (s' & Hs' & _ & Hzero); [reflexivity | discriminate |].
      exists s'. split; [exact Hs' |]. apply Hzero.
      intros q [<- | [<- | []]]; reflexivity. }
  destruct (leaster_tie_goes_to_first env0 tiedLeaster)
    as (s' & Hs' & Htie & _); [reflexivity | discriminate |].
  exists s'. split; [exact Hs' |].
  intros j q Hj.
  assert (Hp1 : exists p, nth_error (players tiedLeaster) 1 = Some p /\ playerPoints p = 21)
    by (eexists; split; reflexivity).
  destruct Hp1 as (p & Hp & Hpts).
  destruct (Htie) with (k := 1%nat) (p := p) (j := j) (q := q) as (q' & Hq' & Hsc);
    try assumption.
  - repeat constructor; cbn; intuition discriminate.
  - repeat constructor.
  - rewrite Hpts. intros r [<- | [<- | [<- | []]]]; cbn; lia.
  - rewrite Hpts. intros [| i] r Hi; [| lia]. intros [= <-]. cbn. lia.
  - exists q'. split; [exact Hq' |]. rewrite Hsc.
    destruct (Nat.eqb_spec j 1) as [-> | _]; [| reflexivity].
    assert (q = p) by congruence. subst q. now rewrite Hpts.
Defined.

(* ------------------------------------------------------------------------- *)
(** ** The lead suit and the forced-trump branch *)

(** Under [leadSuitClean] the second rejecting branch of [isValidPlay] is
    never taken. *)
Lemma forcedTrump_dead (s : GameState) (card : Card) (p : Player) :
  leadSuitClean s ->
  forcedTrumpRejects card p (currentTrick s) (leadSuit s) = false.
Proof.
  unfold leadSuitClean, forcedTrumpRejects.
  destruct (leadSuit s) as [l |]; [| reflexivity].
  destruct (currentTrick s) as [| lead rest]; [reflexivity |].
  destruct (isTrump lead); [| reflexivity].
  intros H. now specialize (H eq_refl).
Qed.

Lemma endRound_keeps_trick (env : Env) (s s' : GameState) :
  endRound env s = Some s' ->
  currentTrick s' = currentTrick s /\ leadSuit s' = leadSuit s.
Proof.
  unfold endRound.
  destruct (JS.atIdx _ _); cbn [bindT]; [| discriminate].
  intros [= <-]. split; reflexivity.
Qed.

Lemma endTrick_clean (env : Env) (s s' : GameState) :
  leadSuitClean s -> endTrick env s = Some s' -> leadSuitClean s'.
Proof.
  intros Hc. unfold endTrick.
  destruct (negb _); [now intros [= <-] |].
  destruct (determineTrickWinner _ _ _) as [w |]; cbn [bindT]; [| discriminate].
  destruct (JS.at_ _ 0) as [first |]; cbn [bindT]; [| discriminate].
  destruct (JS.len (cards first) =? 0).
  - intros H. apply endRound_keeps_trick in H as [Ht Hl].
    unfold leadSuitClean. now rewrite Ht, Hl.
  - now intros [= <-].
Qed.

Lemma cardPlayed_clean (env : Env) (s : GameState) (i : Z) (pid : string)
    (card : Card) (next : Player) :
  leadSuitClean s -> leadSuitClean (cardPlayed env s i pid card next).
Proof.
  unfold leadSuitClean, cardPlayed; cbn.
  destruct (currentTrick s) as [| lead rest]; cbn.
  - intros ->. now destruct (isTrump card).
  - unfold JS.len; cbn [length].
    destruct (Z.eqb_spec (Z.of_nat (S (length rest))) 0); [lia |]. auto.
Qed.

(** Every action but START_GAME and LOAD_GAME keeps the lead suit clean;
    START_GAME keeps whatever lead suit the state carries. *)
Lemma leadSuitClean_step (env : Env) (s s' : GameState) (a : ActionType) :
  leadSuitClean s ->
  match a with
  | START_GAME _ => leadSuit s = None
  | LOAD_GAME g => leadSuitClean g
  | _ => True
  end ->
  gameReducer env s a = Some s' ->
  leadSuitClean s'.
Proof.
  intros Hc Ha.
  destruct a as [ nps | pid | pid | pid toBury | pid partnerId | pid card | | | | | | g ];
    cbn [gameReducer].
  - unfold startGame.
    destruct (dealCards _ _) as [[ps blind] |]; cbn [bindT]; [| discriminate].
    destruct (JS.atIdx _ _); cbn [bindT]; [| discriminate].
    intros [= <-]. exact Ha.
  - unfold pickBlind. destruct (_ || _); intros [= <-]; exact Hc.
  - unfold passBlind. destruct (negb _); [now intros [= <-] |].
    destruct (JS.idxEq _ _); destruct (JS.atIdx _ _); cbn [bindT];
      try discriminate; intros [= <-]; exact Hc.
  - unfold buryCards. destruct (_ || _); [now intros [= <-] |].
    destruct (_ =? -1); [now intros [= <-] |].
    destruct (JS.at_ _ _); cbn [bindT]; [| discriminate].
    intros [= <-]; exact Hc.
  - unfold callPartner. destruct (negb _); [now intros [= <-] |].
    destruct (_ =? -1); [now intros [= <-] |].
    destruct (JS.at_ _ _); cbn [bindT]; [| discriminate].
    destruct (negb _); intros [= <-]; exact Hc.
  - unfold playCard. destruct (_ || _); [now intros [= <-] |].
    destruct (_ =? -1); [now intros [= <-] |].
    destruct (JS.at_ _ _); cbn [bindT]; [| discriminate].
    destruct (negb _); [now intros [= <-] |].
    destruct (JS.atIdx _ _) as [next |]; cbn [bindT]; [| discriminate].
    destruct (_ =? _).
    + apply endTrick_clean. now apply cardPlayed_clean.
    + intros [= <-]. now apply cardPlayed_clean.
  - unfold nextPlayerTurn. destruct (_ =? -1); [now intros [= <-] |].
    destruct (JS.atIdx _ _); cbn [bindT]; [| discriminate].
    intros [= <-]; exact Hc.
  - now apply endTrick_clean.
  - intros H. apply endRound_keeps_trick in H as [Ht Hl].
    unfold leadSuitClean. now rewrite Ht, Hl.
  - intros [= <-]; exact Hc.
  - intros [= <-]; reflexivity.
  - intros [= <-]; exact Ha.
Qed.

Lemma run_clean (env : Env) (actions : list ActionType) (s s' : GameState) :
  leadSuitClean s -> forallb keepsGame actions = true ->
  run env s actions = Some s' -> leadSuitClean s'.
Proof.
  revert s. induction actions as [| a rest IH]; intros s Hc Hk; cbn [run].
  - now intros [= <-].
  - cbn [forallb] in Hk. apply andb_true_iff in Hk as [Ha Hrest].
    destruct (gameReducer env s a) as [mid |] eqn:E; cbn [bindT]; [| discriminate].
    apply IH; [| exact Hrest].
    apply (leadSuitClean_step env s mid a Hc); [| exact E].
    destruct a; try exact I; discriminate Ha.
Qed.

(** In a game started once from the initial state the forced-trump branch
    rejects no play. *)
Lemma forcedTrump_dead_in_first_game (env : Env) (newPlayers : list PlayerInit)
    (actions : list ActionType) (s : GameState) (card : Card) (p : Player) :
  forallb keepsGame actions = true ->
  run env initialState (START_GAME newPlayers :: actions) = Some s ->
  forcedTrumpRejects card p (currentTrick s) (leadSuit s) = false.
Proof.
  intros Hk. cbn [run].
  destruct (gameReducer env initialState (START_GAME newPlayers)) as [s0 |] eqn:E;
    cbn [bindT]; [| discriminate].
  intros Hrun. apply forcedTrump_dead.
  apply (run_clean env actions s0 s); [| exact Hk | exact Hrun].
  now apply (leadSuitClean_step env initialState s0 (START_GAME newPlayers)).
Qed.

(** C8 fails on the code. START_GAME takes the lead suit over from the state
    it replaces. Restarting a game in the middle of a trick led in clubs
    leaves [leadSuit] at CLUBS; once p1 leads the queen of hearts, a trump,
    the lead suit is still set, and the forced-trump branch rejects the ace
    of clubs that p2 holds and that passes the follow-suit test. *)
Theorem stale_lead_suit_fires_forced_trump :
  run env0 initialState restartMidTrick = Some staleLead
  /\ currentTrick staleLead = [c_ HEARTS QUEEN]
  /\ isTrump (c_ HEARTS QUEEN) = true
  /\ leadSuit staleLead = Some CLUBS
  /\ currentTurn staleLead = "p2"
  /\ option_map
       (fun p => (holds p (c_ CLUBS ACE),
                  followSuitRejects (c_ CLUBS ACE) p (leadSuit staleLead),
                  forcedTrumpRejects (c_ CLUBS ACE) p (currentTrick staleLead)
                    (leadSuit staleLead),
                  isValidPlay (c_ CLUBS ACE) p (currentTrick staleLead)
                    (leadSuit staleLead)))
       (playerById (players staleLead) "p2")
     = Some (true, false, true, false)
  /\ gameReducer env0 staleLead (PLAY_CARD "p2" (c_ CLUBS ACE)) = Some staleLead.
Proof. repeat split; reflexivity. Qed.

(* ------------------------------------------------------------------------- *)
(** ** The 32 cards *)

Lemma cardTotal_allCards (s : GameState) : cardTotal s = length (allCards s).
Proof.
  unfold cardTotal, allCards, handCards, wonCards, gather, wonPile.
  rewrite !length_app, !length_concat, !map_map.
  assert (E : map (fun p => length (concat (tricksWon p))) (players s)
              = map (fun p => list_sum (map (@length Card) (tricksWon p))) (players s))
    by (apply map_ext; intros p; apply length_concat).
  rewrite E. lia.
Qed.

Lemma sameCard_key (a b : Card) : sameCard a b = true <-> cardKey a = cardKey b.
Proof.
  unfold sameCard, cardKey.
  destruct a as [sa ra va ta], b as [sb rb vb tb]; cbn.
  destruct sa, sb, ra, rb; cbn; split; congruence.
Qed.

Lemma sameCard_sym (a b : Card) : sameCard a b = sameCard b a.
Proof.
  destruct (sameCard a b) eqn:E1, (sameCard b a) eqn:E2; try reflexivity.
  - apply sameCard_key in E1. symmetry in E1. apply sameCard_key in E1. congruence.
  - apply sameCard_key in E2. symmetry in E2. apply sameCard_key in E2. congruence.
Qed.

Lemma holds_key (p : Player) (c : Card) :
  holds p c = true <-> In (cardKey c) (map cardKey (cards p)).
Proof.
  unfold holds. rewrite existsb_exists, in_map_iff.
  split; intros (x & H1 & H2).
  - exists x. split; [| exact H1]. symmetry. now apply sameCard_key.
  - exists x. split; [exact H2 |]. apply sameCard_key. now symmetry.
Qed.

(** Splitting a pile by a test keeps its cards. *)
Lemma filter_split_perm {A : Type} (f : A -> bool) (xs : list A) :
  Permutation xs (filter f xs ++ filter (fun x => negb (f x)) xs).
Proof.
  induction xs as [| x xs IH]; cbn; [constructor |].
  destruct (f x); cbn.
  - now constructor.
  - now apply Permutation_cons_app.
Qed.

(** Taking the cards [out] from a hand that holds each of them once. *)
Lemma take_out_perm (hand out : list Card) :
  NoDup (map cardKey hand) -> NoDup (map cardKey out) ->
  (forall c, In c out -> In (cardKey c) (map cardKey hand)) ->
  Permutation (map cardKey hand)
    (map cardKey out
     ++ map cardKey
          (filter (fun card => negb (existsb (fun c => sameCard c card) out)) hand)).
Proof.
  intros Hh Ho Hin.
  set (taken := fun card => existsb (fun c => sameCard c card) out).
  rewrite (filter_split_perm taken hand) at 1.
  rewrite map_app. apply Permutation_app_tail.
  assert (Hk : forall k, In k (map cardKey (filter taken hand)) <-> In k (map cardKey out)).
  { intros k. rewrite !in_map_iff. split.
    - intros (c & <- & Hc). apply filter_In in Hc as [_ Ht].
      unfold taken in Ht. apply existsb_exists in Ht as (o & Ho1 & Ho2).
      exists o. split; [now apply sameCard_key | exact Ho1].
    - intros (o & <- & Ho1).
      destruct (proj1 (in_map_iff _ _ _) (Hin o Ho1)) as (c & Hc1 & Hc2).
      exists c. split; [exact Hc1 |].
      apply filter_In. split; [exact Hc2 |].
      unfold taken. apply existsb_exists. exists o. split; [exact Ho1 |].
      apply sameCard_key. now symmetry. }
  apply NoDup_Permutation; [| exact Ho | exact Hk].
  clear - Hh. induction hand as [| c hand IH]; cbn; [constructor |].
  inversion Hh as [| k ks Hnotin Hnd]; subst.
  destruct (taken c); cbn; [| now apply IH].
  constructor; [| now apply IH].
  intros Hc. apply Hnotin.
  apply in_map_iff in Hc as (d & Hd1 & Hd2). apply filter_In in Hd2 as [Hd2 _].
  apply in_map_iff. now exists d.
Qed.

Section Piles.
Variable pile : Player -> list Card.

Lemma gather_app (xs ys : list Player) :
  gather pile (xs ++ ys) = gather pile xs ++ gather pile ys.
Proof. unfold gather. now rewrite map_app, concat_app. Qed.

Lemma gather_cons (p : Player) (ps : list Player) :
  gather pile (p :: ps) = pile p ++ gather pile ps.
Proof. reflexivity. Qed.

(** Replacing the player seated at [k] replaces that player's pile. *)
Lemma gather_updateAt (g : Player -> Player) (k : nat) (ps : list Player) (p : Player) :
  nth_error ps k = Some p ->
  exists others,
    Permutation (gather pile ps) (pile p ++ others)
    /\ Permutation (gather pile (updateAt g k ps)) (pile (g p) ++ others).
Proof.
  intros Hk.
  exists (gather pile (firstn k ps) ++ gather pile (skipn (S k) ps)).
  unfold updateAt. rewrite Hk.
  rewrite (nth_error_split_at _ _ _ Hk) at 1.
  rewrite !gather_app, !gather_cons.
  split; apply Permutation_app_swap_app.
Qed.

Lemma gather_updateAt_same (g : Player -> Player) (k : nat) (ps : list Player) :
  (forall p, pile (g p) = pile p) ->
  gather pile (updateAt g k ps) = gather pile ps.
Proof.
  intros Hg. unfold updateAt.
  destruct (nth_error ps k) as [p |] eqn:Hk; [| reflexivity].
  rewrite (nth_error_split_at _ _ _ Hk) at 3.
  rewrite !gather_app, !gather_cons. now rewrite Hg.
Qed.
End Piles.

Lemma map_updateAt_same {B : Type} (f : Player -> B) (g : Player -> Player) (k : nat)
    (ps : list Player) :
  (forall p, f (g p) = f p) -> map f (updateAt g k ps) = map f ps.
Proof.
  intros Hg. unfold updateAt.
  destruct (nth_error ps k) as [p |] eqn:Hk; [| reflexivity].
  rewrite (nth_error_split_at _ _ _ Hk) at 3.
  rewrite !map_app. cbn. now rewrite Hg.
Qed.

(** An update through [mapi] at the position [findIndex] found. *)
Lemma mapi_at_found (g : Player -> Player) (ps : list Player) (i : Z) :
  0 <= i ->
  JS.mapi (fun p idx => if idx =? i then g p else p) ps = updateAt g (Z.to_nat i) ps.
Proof.
  intros Hi. rewrite <- mapi_updateAt. now rewrite Z2Nat.id.
Qed.

(** The trick goes to the one player who carries the winner's id. *)
Lemma award_won (ps : list Player) (trick : list Card) (w : string) :
  NoDup (map id ps) ->
  (exists p, In p ps /\ id p = w) ->
  Permutation
    (wonCards
       (map (fun player =>
               if String.eqb (id player) w
               then withTricksWon player (tricksWon player ++ [trick])
               else player) ps))
    (trick ++ wonCards ps).
Proof.
  set (f := fun player => if String.eqb (id player) w
                          then withTricksWon player (tricksWon player ++ [trick])
                          else player).
  unfold wonCards.
  induction ps as [| p ps IH]; intros Hnd Hex; [destruct Hex as (p & [] & _) |].
  cbn [map]. rewrite !gather_cons.
  inversion Hnd as [| x xs Hnotin Hnd']; subst.
  destruct (String.eqb_spec (id p) w) as [E | N].
  - assert (Hrest : map f ps = ps).
    { rewrite <- (map_id ps) at 2. apply map_ext_in. intros q Hq. unfold f.
      destruct (String.eqb_spec (id q) w) as [Eq | _]; [| reflexivity].
      exfalso. apply Hnotin. rewrite E, <- Eq. now apply in_map. }
    rewrite Hrest. unfold f. rewrite (proj2 (String.eqb_eq _ _) E).
    unfold wonPile. cbn [tricksWon withTricksWon].
    rewrite concat_app. cbn [concat]. rewrite app_nil_r.
    rewrite <- app_assoc. apply Permutation_app_swap_app.
  - unfold f at 1. rewrite (proj2 (String.eqb_neq _ _) N).
    rewrite IH; [apply Permutation_app_swap_app | exact Hnd' |].
    destruct Hex as (q & [-> | Hq] & Hw); [contradiction | eauto].
Qed.

Lemma awardTrick_piles (s : GameState) (w : string) :
  NoDup (map id (players s)) ->
  (exists p, In p (players s) /\ id p = w) ->
  map id (awardTrick s w) = map id (players s)
  /\ handCards (awardTrick s w) = handCards (players s)
  /\ Permutation (wonCards (awardTrick s w)) (currentTrick s ++ wonCards (players s)).
Proof.
  intros Hnd Hex.
  split; [| split].
  - unfold awardTrick. rewrite map_map. apply map_ext.
    intros p. now destruct (String.eqb (id p) w).
  - unfold awardTrick, handCards, gather. rewrite map_map. f_equal. apply map_ext.
    intros p. now destruct (String.eqb (id p) w).
  - exact (award_won (players s) (currentTrick s) w Hnd Hex).
Qed.

Lemma determineTrickWinner_at_table (trick : list Card) (l : Suit) (ps : list Player)
    (w : string) :
  trick <> [] -> determineTrickWinner trick l ps = Some w ->
  exists p, In p ps /\ id p = w.
Proof.
  destruct trick as [| first rest]; [congruence |]. intros _.
  unfold determineTrickWinner.
  destruct (winnerLoop l rest 1 first 0) as [wc wi].
  destruct (JS.at_ ps wi) as [played |]; cbn [bindT]; [| discriminate].
  destruct (JS.rem _ _) as [i |]; cbn [JS.atIdx]; [| discriminate].
  destruct (JS.at_ ps i) as [winner |] eqn:Hw; cbn [bindT]; [| discriminate].
  intros [= <-]. exists winner. split; [| reflexivity].
  apply at_Some in Hw as [_ Hw]. eapply nth_error_In; eauto.
Qed.

Lemma endRound_phase (env : Env) (s s' : GameState) :
  endRound env s = Some s' -> phase s' = SCORING.
Proof.
  unfold endRound.
  destruct (JS.atIdx _ _); cbn [bindT]; [| discriminate].
  now intros [= <-].
Qed.

(** *** Each transition moves cards without creating or losing any *)

(** Goals and hypotheses on permutations of keys are settled by counting. *)
Ltac count_keys k :=
  repeat match goal with
         | H : Permutation _ _ |- _ =>
             apply (Permutation_map cardKey) in H
         end;
  repeat match goal with
         | H : Permutation (map cardKey _) _ |- _ =>
             let C := fresh "C" in
             pose proof (proj1 (Permutation_count_occ Key_eq_dec _ _) H k) as C;
             clear H
         end;
  repeat rewrite ?map_app, ?count_occ_app in *.

Ltac keys_perm :=
  let k := fresh "k" in
  unfold allKeys, allCards; cbn [players deck buried currentTrick];
  apply (proj2 (Permutation_count_occ Key_eq_dec _ _)); intros k;
  count_keys k; cbn [map app count_occ] in *; lia.

Lemma tableOk_keep (s s' : GameState) :
  tableOk s ->
  map id (players s') = map id (players s) ->
  Permutation (allKeys s') (allKeys s) ->
  (phase s' = PICKING \/ phase s' = BURYING -> buried s' = []) ->
  tableOk s'.
Proof.
  intros (Hid & Hnd & _ & Htot) Hids Hperm Hbur.
  split; [now rewrite Hids |].
  split; [apply (Permutation_NoDup (Permutation_sym Hperm) Hnd) |].
  split; [exact Hbur |].
  rewrite cardTotal_allCards in *.
  unfold allKeys in Hperm. apply Permutation_length in Hperm.
  rewrite !length_map in Hperm. lia.
Qed.

Lemma pickBlind_tableOk (env : Env) (s s' : GameState) (pid : string) :
  tableOk s -> pickBlind env s pid = Some s' -> tableOk s'.
Proof.
  intros Hok. unfold pickBlind.
  destruct (Z.eqb_spec (JS.findIndex (fun p => String.eqb (id p) pid) (players s)) (-1))
    as [| Hfound]; cbn [orb]; [now intros [= <-] |].
  destruct (GamePhase_eqb (phase s) PICKING) eqn:Hph; cbn [negb]; [| now intros [= <-]].
  apply GamePhase_eqb_eq in Hph.
  pose proof (findIndex_ge (fun p => String.eqb (id p) pid) (players s)) as Hge.
  rewrite mapi_at_found with (g := fun player => withPicker player (cards player ++ deck s))
    by lia.
  set (k := Z.to_nat _). set (g := fun player => withPicker player _).
  intros [= <-].
  apply tableOk_keep with (s := s); [assumption | | |]; cbn [players phase buried].
  - now apply map_updateAt_same.
  - unfold allKeys, allCards, handCards, wonCards. cbn [players deck buried currentTrick].
    rewrite (gather_updateAt_same wonPile g k (players s) (fun _ => eq_refl)).
    destruct (nth_error (players s) k) as [p |] eqn:Hk.
    + destruct (gather_updateAt cards g k (players s) p Hk) as (others & H1 & H2).
      cbn [cards withPicker g] in H2.
      keys_perm.
    + exfalso. apply nth_error_None in Hk.
      destruct (findIndex_range (fun p => String.eqb (id p) pid) (players s)) as [| Hr];
        [contradiction |].
      unfold JS.len in Hr. lia.
  - intros _. destruct Hok as (_ & _ & Hbur & _). apply Hbur. now left.
Qed.

Lemma hand_NoDup (ps : list Player) (p : Player) :
  NoDup (map cardKey (handCards ps)) -> In p ps -> NoDup (map cardKey (cards p)).
Proof.
  unfold handCards.
  induction ps as [| q ps IH]; [contradiction |].
  rewrite gather_cons, map_app. intros Hnd [-> | Hin].
  - eapply NoDup_app_remove_r; eauto.
  - apply IH; [| exact Hin]. eapply NoDup_app_remove_l; eauto.
Qed.

Lemma tableOk_hand (s : GameState) (p : Player) :
  tableOk s -> In p (players s) -> NoDup (map cardKey (cards p)).
Proof.
  intros (_ & Hnd & _) Hin.
  apply (hand_NoDup (players s)); [| exact Hin].
  unfold allKeys, allCards in Hnd. rewrite map_app in Hnd.
  eapply NoDup_app_remove_r; eauto.
Qed.

Lemma found_in_range {A : Type} (f : A -> bool) (xs : list A) :
  JS.findIndex f xs <> -1 ->
  exists x, nth_error xs (Z.to_nat (JS.findIndex f xs)) = Some x
            /\ JS.at_ xs (JS.findIndex f xs) = Some x
            /\ find f xs = Some x /\ f x = true /\ In x xs.
Proof.
  intros Hf.
  destruct (findIndex_range f xs) as [| Hr]; [contradiction |].
  destruct (at_in_range xs _ Hr) as [x Hx].
  exists x. pose proof (at_Some _ _ _ Hx) as [_ Hn].
  split; [exact Hn |]. split; [exact Hx |].
  rewrite <- (at_findIndex f xs Hf). split; [exact Hx |].
  split; [| eapply nth_error_In; eauto].
  rewrite (at_findIndex f xs Hf) in Hx. now apply find_some in Hx.
Qed.

Lemma passBlind_tableOk (env : Env) (s s' : GameState) (pid : string) :
  tableOk s -> passBlind env s pid = Some s' -> tableOk s'.
Proof.
  intros Hok. unfold passBlind.
  destruct (GamePhase_eqb (phase s) PICKING) eqn:Hph; cbn [negb]; [| now intros [= <-]].
  apply GamePhase_eqb_eq in Hph.
  destruct (JS.idxEq _ _); destruct (JS.atIdx _ _); cbn [bindT];
    try discriminate; intros [= <-];
    (apply tableOk_keep with (s := s); [assumption | reflexivity | reflexivity |]);
    cbn [phase buried].
  - intros [H | H]; discriminate H.
  - intros _. destruct Hok as (_ & _ & Hbur & _). apply Hbur. now left.
Qed.

Lemma buryCards_tableOk (env : Env) (s s' : GameState) (pid : string)
    (toBury : list Card) :
  tableOk s -> fromHand s (BURY_CARDS pid toBury) ->
  buryCards env s pid toBury = Some s' -> tableOk s'.
Proof.
  intros Hok [Hdistinct Hheld]. unfold buryCards.
  destruct (GamePhase_eqb (phase s) BURYING) eqn:Hph; cbn [negb orb]; [| now intros [= <-]].
  apply GamePhase_eqb_eq in Hph.
  destruct (negb (JS.len toBury =? 2)); [now intros [= <-] |].
  set (f := fun p => String.eqb (id p) pid && truthy (isPicker p)).
  destruct (Z.eqb_spec (JS.findIndex f (players s)) (-1)) as [| Hfound];
    [now intros [= <-] |].
  destruct (found_in_range f (players s) Hfound) as (p & Hk & Hat & _ & Hf & Hin).
  rewrite Hat. cbn [bindT].
  pose proof (findIndex_ge f (players s)) as Hge.
  set (remaining := filter _ (cards p)).
  rewrite mapi_at_found with (g := fun player => withCards player remaining) by lia.
  set (k := Z.to_nat _) in *. set (g := fun player => withCards player remaining).
  intros [= <-].
  apply tableOk_keep with (s := s); [assumption | | |]; cbn [players phase buried].
  - now apply map_updateAt_same.
  - unfold allKeys, allCards, handCards, wonCards. cbn [players deck buried currentTrick].
    rewrite (gather_updateAt_same wonPile g k (players s) (fun _ => eq_refl)).
    destruct (gather_updateAt cards g k (players s) p Hk) as (others & H1 & H2).
    cbn [cards withCards g] in H2.
    unfold f in Hf. apply andb_true_iff in Hf as [Hid Hpick].
    apply String.eqb_eq in Hid.
    assert (Htake := take_out_perm (cards p) toBury (tableOk_hand s p Hok Hin) Hdistinct).
    fold remaining in Htake.
    assert (Hb : buried s = [])
      by (destruct Hok as (_ & _ & Hbur & _); apply Hbur; now right).
    rewrite Hb.
    assert (Htake' : Permutation (map cardKey (cards p))
                       (map cardKey toBury ++ map cardKey remaining)).
    { apply Htake. intros c Hc. apply holds_key. now apply (Hheld p Hin Hid Hpick). }
    clear Htake. keys_perm.
  - destruct (JS.len (updateAt g k (players s)) =? 5); intros [H | H]; discriminate H.
Qed.

Lemma callPartner_tableOk (env : Env) (s s' : GameState) (pid partnerId : string) :
  tableOk s -> callPartner env s pid partnerId = Some s' -> tableOk s'.
Proof.
  intros Hok. unfold callPartner.
  destruct (negb _); [now intros [= <-] |].
  set (f := fun p => truthy (isPicker p)).
  destruct (Z.eqb_spec (JS.findIndex f (players s)) (-1)) as [| Hfound];
    [now intros [= <-] |].
  destruct (JS.at_ _ _); cbn [bindT]; [| discriminate].
  destruct (negb _); [now intros [= <-] |].
  pose proof (findIndex_ge f (players s)) as Hge.
  rewrite mapi_at_found with (g := fun player => withPartner player partnerId) by lia.
  intros [= <-].
  apply tableOk_keep with (s := s); [assumption | | |]; cbn [players phase buried].
  - now apply map_updateAt_same.
  - unfold allKeys, allCards, handCards, wonCards. cbn [players deck buried currentTrick].
    now rewrite !gather_updateAt_same by reflexivity.
  - intros [H | H]; discriminate H.
Qed.

Lemma cardPlayed_tableOk (env : Env) (s : GameState) (pid : string) (card : Card)
    (p next : Player) :
  tableOk s ->
  phase s = PLAYING ->
  JS.findIndex (fun q => String.eqb (id q) pid) (players s) <> -1 ->
  playerById (players s) pid = Some p ->
  holds p card = true ->
  tableOk (cardPlayed env s (JS.findIndex (fun q => String.eqb (id q) pid) (players s))
             pid card next).
Proof.
  intros Hok Hph Hfound Hp Hheld.
  set (f := fun q => String.eqb (id q) pid) in *.
  destruct (found_in_range f (players s) Hfound) as (p' & Hk & _ & Hfind & _ & Hin).
  unfold playerById in Hp. fold f in Hp. assert (p' = p) by congruence. subst p'.
  pose proof (findIndex_ge f (players s)) as Hge.
  unfold cardPlayed, takeFromHand.
  rewrite mapi_at_found
    with (g := fun q => withCards q (filter (fun c => negb (sameCard c card)) (cards q)))
    by lia.
  set (k := Z.to_nat _) in *. set (g := fun q => withCards q _).
  apply tableOk_keep with (s := s); [assumption | | |]; cbn [players phase buried].
  - now apply map_updateAt_same.
  - unfold allKeys, allCards, handCards, wonCards. cbn [players deck buried currentTrick].
    rewrite (gather_updateAt_same wonPile g k (players s) (fun _ => eq_refl)).
    destruct (gather_updateAt cards g k (players s) p Hk) as (others & H1 & H2).
    cbn [cards withCards g] in H2.
    assert (Htake : Permutation (map cardKey (cards p))
                      (map cardKey [card]
                       ++ map cardKey (filter (fun c => negb (sameCard c card)) (cards p)))).
    { rewrite (filter_ext (fun c => negb (sameCard c card))
                 (fun c0 => negb (existsb (fun c => sameCard c c0) [card]))).
      - apply take_out_perm; [now apply (tableOk_hand s) | repeat constructor; auto |].
        intros c [<- | []]. now apply holds_key.
      - intros c. cbn. now rewrite orb_false_r, sameCard_sym. }
    keys_perm.
  - rewrite Hph. intros [H | H]; discriminate H.
Qed.

Lemma endTrick_tableOk (env : Env) (s s' : GameState) :
  tableOk s -> endTrick env s = Some s' -> phase s' <> SCORING -> tableOk s'.
Proof.
  intros Hok. unfold endTrick.
  destruct (Z.eqb_spec (JS.len (currentTrick s)) (JS.len (players s))) as [Hfull |];
    cbn [negb]; [| now intros [= <-]].
  destruct (determineTrickWinner _ _ _) as [w |] eqn:Hw; cbn [bindT]; [| discriminate].
  destruct (JS.at_ (awardTrick s w) 0) as [first |] eqn:Hfirst; cbn [bindT];
    [| discriminate].
  destruct (JS.len (cards first) =? 0).
  { intros H Hn. apply endRound_phase in H. contradiction. }
  intros [= <-] _.
  assert (Hne : currentTrick s <> []).
  { intros E. rewrite E in Hfull. unfold JS.len in Hfull. cbn in Hfull.
    destruct (players s) eqn:Hps; [| cbn in Hfull; lia].
    unfold awardTrick in Hfirst. rewrite Hps in Hfirst. discriminate Hfirst. }
  destruct (awardTrick_piles s w (proj1 Hok) (determineTrickWinner_at_table _ _ _ _ Hne Hw))
    as (Hids & Hhand & Hwon).
  apply tableOk_keep with (s := s); [assumption | exact Hids | |];
    unfold trickResolved; cbn [phase buried].
  - unfold allKeys, allCards. cbn [players deck buried currentTrick]. rewrite Hhand.
    keys_perm.
  - destruct Hok as (_ & _ & Hbur & _). exact Hbur.
Qed.

Lemma playCard_tableOk (env : Env) (s s' : GameState) (pid : string) (card : Card) :
  tableOk s -> fromHand s (PLAY_CARD pid card) ->
  playCard env s pid card = Some s' -> phase s' <> SCORING -> tableOk s'.
Proof.
  intros Hok Hheld. unfold playCard.
  destruct (GamePhase_eqb (phase s) PLAYING) eqn:Hph; cbn [negb orb]; [| now intros [= <-]].
  apply GamePhase_eqb_eq in Hph.
  destruct (negb _); [now intros [= <-] |].
  set (f := fun q => String.eqb (id q) pid).
  destruct (Z.eqb_spec (JS.findIndex f (players s)) (-1)) as [| Hfound];
    [now intros [= <-] |].
  destruct (found_in_range f (players s) Hfound) as (p & _ & Hat & Hfind & _).
  rewrite Hat. cbn [bindT].
  destruct (negb _); [now intros [= <-] |].
  destruct (JS.atIdx _ _) as [next |]; cbn [bindT]; [| discriminate].
  assert (Hnew : tableOk (cardPlayed env s (JS.findIndex f (players s)) pid card next)).
  { apply cardPlayed_tableOk with (p := p); try assumption.
    now apply Hheld. }
  destruct (_ =? _).
  - now apply endTrick_tableOk.
  - now intros [= <-].
Qed.

(** *** Shuffling and dealing keep the deck *)

Lemma setNth_perm {A : Type} (xs : list A) (i : nat) (a b : A) :
  nth_error xs i = Some a -> Permutation (b :: xs) (a :: setNth xs i b).
Proof.
  revert i. induction xs as [| x xs IH]; intros [| i]; cbn; try discriminate.
  - intros [= ->]. apply perm_swap.
  - intros H. rewrite perm_swap. rewrite (IH i H). apply perm_swap.
Qed.

Lemma nth_error_setNth_eq {A : Type} (xs : list A) (i : nat) (x : A) :
  (i < length xs)%nat -> nth_error (setNth xs i x) i = Some x.
Proof.
  revert i. induction xs as [| y xs IH]; intros [| i]; cbn; try lia; [reflexivity |].
  intros H. apply IH. lia.
Qed.

Lemma nth_error_setNth_neq {A : Type} (xs : list A) (i j : nat) (x : A) :
  i <> j -> nth_error (setNth xs i x) j = nth_error xs j.
Proof.
  revert i j. induction xs as [| y xs IH]; intros [| i] [| j] H; cbn;
    try reflexivity; try lia.
  apply IH. lia.
Qed.

Lemma swap_perm {A : Type} (xs : list A) (i j : nat) : Permutation (swap xs i j) xs.
Proof.
  unfold swap.
  destruct (nth_error xs i) as [a |] eqn:Hi; [| reflexivity].
  destruct (nth_error xs j) as [b |] eqn:Hj; [| reflexivity].
  assert (H1 := setNth_perm xs i a b Hi).
  assert (Hj' : nth_error (setNth xs i b) j = Some b).
  { destruct (Nat.eq_dec i j) as [<- | N].
    - apply nth_error_setNth_eq. apply nth_error_Some. congruence.
    - now rewrite nth_error_setNth_neq. }
  assert (H2 := setNth_perm (setNth xs i b) j b a Hj').
  apply Permutation_cons_inv with (a := b).
  now rewrite <- H2, <- H1.
Qed.

Lemma shuffleFrom_perm (rand : nat -> nat) (i : nat) (xs : list Card) :
  Permutation (shuffleFrom rand i xs) xs.
Proof.
  revert xs. induction i as [| i IH]; intros xs; cbn [shuffleFrom]; [reflexivity |].
  rewrite IH. apply swap_perm.
Qed.

Lemma initializeDeck_perm (rand : nat -> nat) :
  Permutation (initializeDeck rand) orderedDeck.
Proof. apply shuffleFrom_perm. Qed.

Lemma orderedDeck_NoDup : NoDup (map cardKey orderedDeck).
Proof.
  assert (E : nodup Key_eq_dec (map cardKey orderedDeck) = map cardKey orderedDeck)
    by (vm_compute; reflexivity).
  rewrite <- E. apply NoDup_nodup.
Qed.

Lemma forEachM_invariant {S : Type} (P : S -> Prop) (body : S -> nat -> option S)
    (idxs : list nat) (st st' : S) :
  (forall a i b, P a -> body a i = Some b -> P b) ->
  P st -> forEachM body idxs st = Some st' -> P st'.
Proof.
  intros Hbody. revert st.
  induction idxs as [| i idxs IH]; intros st HP; cbn.
  - now intros [= <-].
  - destruct (body st i) as [mid |] eqn:E; cbn [bindT]; [| discriminate].
    apply IH. eapply Hbody; eauto.
Qed.

Lemma pushCard_keeps (ps ps' : list Player) (idx : option Z) (card : Card) :
  pushCard ps idx card = Some ps' ->
  map id ps' = map id ps
  /\ wonCards ps' = wonCards ps
  /\ Permutation (handCards ps') (handCards ps ++ [card]).
Proof.
  unfold pushCard.
  destruct idx as [i |]; cbn [JS.atIdx JS.idxEq]; [| discriminate].
  destruct (JS.at_ ps i) as [p |] eqn:Hat; cbn [bindT]; [| discriminate].
  apply at_Some in Hat as [Hr Hk].
  set (g := fun p : Player =>
              {| id := id p; name := name p; avatar := avatar p;
                 cards := cards p ++ [card]; score := score p;
                 isDealer := isDealer p; isPicker := isPicker p;
                 partner := partner p; tricksWon := tricksWon p;
                 isHuman := isHuman p |}).
  assert (E : JS.mapi (fun p i0 => if i =? i0 then g p else p) ps
              = updateAt g (Z.to_nat i) ps).
  { rewrite <- mapi_at_found by lia. apply mapiFrom_ext.
    intros x k. now rewrite Z.eqb_sym. }
  intros [= <-].
  change (JS.mapi _ ps) with (JS.mapi (fun p i0 => if i =? i0 then g p else p) ps).
  rewrite E.
  split; [now apply map_updateAt_same |].
  split; [unfold wonCards; now apply gather_updateAt_same |].
  destruct (gather_updateAt cards g (Z.to_nat i) ps p Hk) as (others & H1 & H2).
  unfold handCards. rewrite H2, H1. cbn [cards g].
  rewrite <- !app_assoc. apply Permutation_app_head. apply Permutation_app_comm.
Qed.

Lemma dealOne_keeps (ps0 : list Player) (d0 : list Card) (players : list Player)
    (st st' : list Player * list Card) (p : nat) :
  dealKeeps ps0 d0 st -> dealOne players st p = Some st' -> dealKeeps ps0 d0 st'.
Proof.
  destruct st as [ps d]. unfold dealKeeps, dealOne. cbn [fst snd].
  intros (Hid & Hwon & Hperm).
  destruct d as [| card d']; [intros [= <-]; cbn [fst snd]; auto |].
  destruct (pushCard ps _ card) as [ps' |] eqn:E; cbn [bindT]; [| discriminate].
  intros [= <-]. cbn [fst snd].
  destruct (pushCard_keeps _ _ _ _ E) as (Hid' & Hwon' & Hperm').
  split; [congruence |]. split; [congruence |].
  rewrite Hperm', <- Hperm, <- app_assoc. reflexivity.
Qed.

Lemma dealCards_keeps (deck : list Card) (ps : list Player)
    (st' : list Player * list Card) :
  dealCards deck ps = Some st' -> dealKeeps ps deck st'.
Proof.
  unfold dealCards.
  apply forEachM_invariant with (P := dealKeeps ps deck).
  - intros a _ b Ha. apply forEachM_invariant with (P := dealKeeps ps deck); [| exact Ha].
    intros a' i b' Ha'. now apply dealOne_keeps.
  - repeat split; reflexivity.
Qed.

Lemma gather_nothing (pile : Player -> list Card) (ps : list Player) :
  (forall p, In p ps -> pile p = []) -> gather pile ps = [].
Proof.
  induction ps as [| p ps IH]; intros H; [reflexivity |].
  rewrite gather_cons, (H p (or_introl eq_refl)), IH; [reflexivity |].
  intros q Hq. apply H. now right.
Qed.

Lemma In_mapiFrom {A B : Type} (f : A -> Z -> B) (xs : list A) (i : Z) (y : B) :
  In y (JS.mapiFrom f xs i) -> exists x k, In x xs /\ y = f x k.
Proof.
  revert i. induction xs as [| x xs IH]; intros i; cbn; [contradiction |].
  intros [<- | H].
  - exists x, i. auto.
  - destruct (IH _ H) as (x' & k & Hx & ->). exists x', k. auto.
Qed.

Lemma map_mapiFrom {A B C : Type} (f : A -> Z -> B) (g : B -> C) (h : A -> C)
    (xs : list A) (i : Z) :
  (forall x k, g (f x k) = h x) -> map g (JS.mapiFrom f xs i) = map h xs.
Proof.
  intros H. revert i. induction xs as [| x xs IH]; intros i; cbn; [reflexivity |].
  now rewrite H, IH.
Qed.

(** The table START_GAME deals is in order. *)
Lemma startGame_tableOk (env : Env) (s s' : GameState) (newPlayers : list PlayerInit) :
  NoDup (map pi_id newPlayers) ->
  startGame env s newPlayers = Some s' -> tableOk s'.
Proof.
  intros Hnd. unfold startGame.
  set (init := JS.mapi _ newPlayers).
  generalize (initializeDeck_perm (rand env)).
  generalize (initializeDeck (rand env)) as d. intros d Hd.
  destruct (dealCards d init) as [[ps blind] |] eqn:Hdeal; cbn [bindT]; [| discriminate].
  destruct (JS.atIdx _ _) as [p |]; cbn [bindT]; [| discriminate].
  intros [= <-].
  destruct (dealCards_keeps _ _ _ Hdeal) as (Hid & Hwon & Hperm). cbn [fst snd] in *.
  assert (Hids : map id init = map pi_id newPlayers)
    by (apply map_mapiFrom; reflexivity).
  assert (Hh0 : handCards init = []).
  { apply gather_nothing. intros q Hq.
    apply In_mapiFrom in Hq as (x & k & _ & ->). reflexivity. }
  assert (Hw0 : wonCards init = []).
  { apply gather_nothing. intros q Hq.
    apply In_mapiFrom in Hq as (x & k & _ & ->). reflexivity. }
  rewrite Hh0 in Hperm. rewrite Hw0 in Hwon. cbn [app] in Hperm.
  assert (Hall : Permutation (allKeys
                   {| gameId := uuid env; players := ps; currentTurn := id p;
                      phase := PICKING; deck := blind; buried := []; currentTrick := [];
                      leadSuit := leadSuit s; roundNumber := 1; trickNumber := 0;
                      isLeaster := false; isDoubler := false; isReDoubler := false;
                      calledAce := calledAce s;
                      log := [event "GAME_STARTED" empty env
                                (Some (DataGameId (uuid env)))] |})
                   (map cardKey orderedDeck)).
  { unfold allKeys, allCards. cbn [players deck buried currentTrick].
    rewrite Hwon. cbn [app]. rewrite app_nil_r.
    apply Permutation_map. exact (Permutation_trans Hperm Hd). }
  split; [cbn [players]; now rewrite Hid, Hids |].
  split; [apply (Permutation_NoDup (Permutation_sym Hall) orderedDeck_NoDup) |].
  split; [reflexivity |].
  rewrite cardTotal_allCards.
  apply Permutation_length in Hall. unfold allKeys in Hall.
  rewrite !length_map in Hall. exact Hall.
Qed.

Lemma nextPlayerTurn_tableOk (s s' : GameState) :
  tableOk s -> nextPlayerTurn s = Some s' -> tableOk s'.
Proof.
  intros Hok. unfold nextPlayerTurn.
  destruct (_ =? -1); [now intros [= <-] |].
  destruct (JS.atIdx _ _); cbn [bindT]; [| discriminate].
  intros [= <-].
  apply tableOk_keep with (s := s); [assumption | reflexivity | reflexivity |].
  destruct Hok as (_ & _ & Hbur & _). exact Hbur.
Qed.

Lemma endGame_tableOk (env : Env) (s s' : GameState) :
  tableOk s -> endGame env s = Some s' -> tableOk s'.
Proof.
  intros Hok. unfold endGame. intros [= <-].
  apply tableOk_keep with (s := s); [assumption | reflexivity | reflexivity |].
  cbn [phase]. intros [H | H]; discriminate H.
Qed.

(** An action of the round that moves cards held by its actor, and does not
    end in the scoring of the round, leaves the table in order. *)
Lemma step_tableOk (env : Env) (s s' : GameState) (a : ActionType) :
  tableOk s -> roundAction a = true -> fromHand s a ->
  gameReducer env s a = Some s' -> phase s' <> SCORING -> tableOk s'.
Proof.
  intros Hok Ha Hheld.
  destruct a as [ nps | pid | pid | pid toBury | pid partnerId | pid card | | | | | | g ];
    try discriminate Ha; cbn [gameReducer]; intros Hred Hph.
  - eapply pickBlind_tableOk; eauto.
  - eapply passBlind_tableOk; eauto.
  - eapply buryCards_tableOk; eauto.
  - eapply callPartner_tableOk; eauto.
  - eapply playCard_tableOk; eauto.
  - eapply nextPlayerTurn_tableOk; eauto.
  - eapply endTrick_tableOk; eauto.
  - eapply endGame_tableOk; eauto.
Qed.

Lemma inRound_tableOk (s : GameState) : inRound s -> tableOk s.
Proof.
  induction 1 as [env s s' nps Hnd Hred | env s s' a _ IH Ha Hheld Hred Hph].
  - now apply (startGame_tableOk env s s' nps).
  - now apply (step_tableOk env s s' a).
Qed.

(** C3, as stated, fails. From [picked3], where the sum is 32, burying two
    cards that lie in another player's hand yields a sum of 34; and the round
    [fullRound3], played with the players' own cards throughout, ends in the
    SCORING phase with a sum of 2: only the buried cards are left. *)
Lemma card_total_breaks :
  (run env0 initialState [START_GAME three; PICK_BLIND "p1"] = Some picked3
   /\ cardTotal picked3 = 32%nat
   /\ option_map (fun p => (holds p (c_ CLUBS NINE), holds p (c_ CLUBS QUEEN)))
        (playerById (players picked3) "p1") = Some (false, false)
   /\ option_map cardTotal
        (gameReducer env0 picked3 (BURY_CARDS "p1" [c_ CLUBS NINE; c_ CLUBS QUEEN]))
      = Some 34%nat)
  /\ (run env0 initialState [START_GAME three] = Some dealt3
      /\ cardTotal dealt3 = 32%nat
      /\ option_map (fun s => (phase s, cardTotal s)) (run env0 dealt3 fullRound3)
         = Some (SCORING, 2%nat)).
Proof. repeat split; vm_compute; reflexivity. Qed.

(** C3, amended: in every state of a round, that is, in every state reached
    from a deal to players with distinct ids by actions that bury or play
    cards held by their actor, as long as the round has not been scored, the
    hands, the blind, the buried pile, the current trick and the tricks won
    hold 32 cards together. *)
Theorem card_total_in_round (s : GameState) : inRound s -> cardTotal s = 32%nat.
Proof.
  intros H. apply inRound_tableOk in H.
  destruct H as (_ & _ & _ & Htot). exact Htot.
Qed.

Lemma card_total_in_round_witness : inRound picked3 /\ cardTotal picked3 = 32%nat.
Proof.
  assert (H : inRound picked3).
  { apply inRound_step with (env := env0) (s := dealt3) (a := PICK_BLIND "p1").
    - apply inRound_dealt with (env := env0) (s := initialState) (newPlayers := three).
      + repeat constructor; cbn; intuition discriminate.
      + reflexivity.
    - reflexivity.
    - exact I.
    - reflexivity.
    - discriminate. }
  split; [exact H |].
  apply card_total_in_round. exact H.
Defined.

(* ------------------------------------------------------------------------- *)
(** ** Further properties of the rule engine *)

Lemma filter_length_perm {A : Type} (f : A -> bool) (xs ys : list A) :
  Permutation xs ys -> length (filter f xs) = length (filter f ys).
Proof.
  induction 1 as [| x xs ys _ IH | x y xs | xs ys zs _ IH1 _ IH2]; cbn.
  - reflexivity.
  - destruct (f x); cbn; now rewrite IH.
  - destruct (f x), (f y); reflexivity.
  - congruence.
Qed.

Lemma initializeDeck_length (rand : nat -> nat) : length (initializeDeck rand) = 32%nat.
Proof. now rewrite (Permutation_length (initializeDeck_perm rand)). Qed.

(** X1: whatever the random draws, the shuffled deck holds the 32 cards of
    the deck, each suit and rank once, 14 of them trump, worth 120 points in
    all. *)
Theorem initializeDeck_is_the_deck (rand : nat -> nat) :
  Permutation (initializeDeck rand) orderedDeck
  /\ length (initializeDeck rand) = 32%nat
  /\ NoDup (map cardKey (initializeDeck rand))
  /\ length (filter isTrump (initializeDeck rand)) = 14%nat
  /\ calculatePoints (initializeDeck rand) = 120.
Proof.
  pose proof (initializeDeck_perm rand) as H.
  split; [exact H |].
  split; [now rewrite (Permutation_length H) |].
  split.
  { apply (Permutation_NoDup (Permutation_sym (Permutation_map cardKey H))).
    exact orderedDeck_NoDup. }
  split; [now rewrite (filter_length_perm isTrump _ _ H) |].
  rewrite calculatePoints_cardPoints. unfold cardPoints.
  rewrite (sumZ_Permutation _ _ (Permutation_map value H)). reflexivity.
Qed.

Lemma forEachM_total {S : Type} (P : S -> Prop) (body : S -> nat -> option S)
    (idxs : list nat) (st : S) :
  (forall a i, In i idxs -> P a -> exists b, body a i = Some b /\ P b) ->
  P st -> exists st', forEachM body idxs st = Some st' /\ P st'.
Proof.
  revert st. induction idxs as [| i idxs IH]; intros st Hbody HP; cbn.
  - eauto.
  - destruct (Hbody st i (or_introl eq_refl) HP) as (mid & -> & Hmid). cbn [bindT].
    apply IH; [| exact Hmid].
    intros a j Hj. apply Hbody. now right.
Qed.

Lemma pushCard_length (ps ps' : list Player) (idx : option Z) (card : Card) :
  pushCard ps idx card = Some ps' -> length ps' = length ps.
Proof.
  unfold pushCard. destruct (JS.atIdx ps idx); cbn [bindT]; [| discriminate].
  intros [= <-]. apply length_mapi.
Qed.

Lemma dealOne_total (players : list Player) (st : list Player * list Card) (p : nat) :
  players <> [] -> length (fst st) = length players ->
  exists st', dealOne players st p = Some st' /\ length (fst st') = length players.
Proof.
  destruct st as [ps d]. cbn [fst]. intros Hne Hlen. unfold dealOne.
  destruct d as [| card d']; [eexists; split; [reflexivity | exact Hlen] |].
  pose proof (len_pos players Hne) as Hn.
  pose proof (findIndex_ge isDealer players) as Hge.
  unfold JS.rem. destruct (Z.eqb_spec (JS.len players) 0); [lia |].
  set (i := Z.rem _ _).
  assert (Hi : 0 <= i < JS.len players).
  { unfold i. rewrite Z.rem_mod_nonneg by lia. apply Z.mod_pos_bound. lia. }
  destruct (at_in_range ps i) as [q Hq]; [unfold JS.len in *; lia |].
  unfold pushCard. cbn [JS.atIdx]. rewrite Hq. cbn [bindT].
  eexists. split; [reflexivity |]. cbn [fst]. now rewrite length_mapi.
Qed.

Lemma dealCards_total (deck : list Card) (ps : list Player) :
  exists st', dealCards deck ps = Some st' /\ length (fst st') = length ps.
Proof.
  unfold dealCards.
  apply forEachM_total with (P := fun st => length (fst st) = length ps);
    [| reflexivity].
  intros a _ _ Ha.
  apply forEachM_total with (P := fun st => length (fst st) = length ps);
    [| exact Ha].
  intros b i Hi Hb. apply dealOne_total; [| exact Hb].
  intros E. rewrite E in Hi. destruct Hi.
Qed.

(** X2: dealing never throws; it keeps the players' ids and won tricks, and
    the hands together with the blind hold exactly the cards that the hands
    and the deck held before. *)
Theorem dealCards_conserves (deck : list Card) (ps : list Player) :
  exists ps' blind,
    dealCards deck ps = Some (ps', blind)
    /\ map id ps' = map id ps
    /\ wonCards ps' = wonCards ps
    /\ Permutation (handCards ps' ++ blind) (handCards ps ++ deck).
Proof.
  destruct (dealCards_total deck ps) as ([ps' blind] & Hdeal & _).
  exists ps', blind. split; [exact Hdeal |].
  exact (dealCards_keeps _ _ _ Hdeal).
Qed.

Lemma list_of_length_32 {A : Type} (d : list A) :
  length d = 32%nat ->
  exists a0 a1 a2 a3 a4 a5 a6 a7 a8 a9 a10 a11 a12 a13 a14 a15
         a16 a17 a18 a19 a20 a21 a22 a23 a24 a25 a26 a27 a28 a29 a30 a31,
    d = [a0; a1; a2; a3; a4; a5; a6; a7; a8; a9; a10; a11; a12; a13; a14; a15;
         a16; a17; a18; a19; a20; a21; a22; a23; a24; a25; a26; a27; a28; a29;
         a30; a31].
Proof.
  intros H.
  do 32 (destruct d as [| ? d]; [discriminate H |]).
  destruct d; [| discriminate H].
  repeat eexists.
Qed.

Lemma startGame_sizes (env : Env) (s s' : GameState) (newPlayers : list PlayerInit) :
  gameReducer env s (START_GAME newPlayers) = Some s' ->
  (length newPlayers = 3%nat ->
     handSizes s' = [10; 10; 10]%nat /\ length (deck s') = 2%nat)
  /\ (length newPlayers = 4%nat ->
        handSizes s' = [8; 8; 8; 8]%nat /\ length (deck s') = 0%nat)
  /\ (length newPlayers = 5%nat ->
        handSizes s' = [6; 6; 6; 6; 6]%nat /\ length (deck s') = 2%nat).
Proof.
  cbn [gameReducer]. unfold startGame.
  pose proof (initializeDeck_length (rand env)) as Hlen.
  revert Hlen. generalize (initializeDeck (rand env)) as d. intros d Hlen.
  destruct (list_of_length_32 d Hlen)
    as (a0 & a1 & a2 & a3 & a4 & a5 & a6 & a7 & a8 & a9 & a10 & a11 & a12 & a13
        & a14 & a15 & a16 & a17 & a18 & a19 & a20 & a21 & a22 & a23 & a24 & a25
        & a26 & a27 & a28 & a29 & a30 & a31 & ->).
  intros Hred.
  split; [| split]; intros Hn;
    repeat (destruct newPlayers as [| ? newPlayers]; cbn in Hn; try discriminate Hn);
    vm_compute in Hred; injection Hred as <-; split; reflexivity.
Qed.

(** X3: START_GAME deals ten cards to each of three players and six to each
    of five, leaving a blind of two; at a table of four the deck runs out
    after eight cards each and the blind is empty. *)
Theorem startGame_hand_sizes (env : Env) (s s' : GameState) (newPlayers : list PlayerInit) :
  gameReducer env s (START_GAME newPlayers) = Some s' ->
  (length newPlayers = 3%nat ->
     handSizes s' = [10; 10; 10]%nat /\ length (deck s') = 2%nat)
  /\ (length newPlayers = 4%nat ->
        handSizes s' = [8; 8; 8; 8]%nat /\ length (deck s') = 0%nat)
  /\ (length newPlayers = 5%nat ->
        handSizes s' = [6; 6; 6; 6; 6]%nat /\ length (deck s') = 2%nat).
Proof. exact (startGame_sizes env s s' newPlayers). Qed.

Lemma startGame_hand_sizes_witness :
  handSizes dealt3 = [10; 10; 10]%nat /\ length (deck dealt3) = 2%nat.
Proof.
  apply (startGame_hand_sizes env0 initialState dealt3 three); reflexivity.
Defined.

Lemma valid_when_trump (card : Card) (p : Player) (trick : list Card) (l : option Suit) :
  isTrump card = true -> isValidPlay card p trick l = true.
Proof.
  intros Ht. unfold isValidPlay, followSuitRejects, forcedTrumpRejects.
  destruct trick as [| lead rest]; [reflexivity |].
  rewrite Ht. cbn. destruct l; [| reflexivity].
  cbn. now rewrite andb_false_r.
Qed.

Lemma playable_card_exists (p : Player) (trick : list Card) (l : option Suit) :
  cards p <> [] ->
  exists c, In c (cards p) /\ isValidPlay c p trick l = true.
Proof.
  intros Hne.
  destruct (hasTrump (cards p)) eqn:Ht.
  - unfold hasTrump in Ht. apply existsb_exists in Ht as (c & Hin & Hc).
    exists c. split; [exact Hin | now apply valid_when_trump].
  - assert (Hforced : forall c, forcedTrumpRejects c p trick l = false).
    { intros c. unfold forcedTrumpRejects. rewrite Ht.
      destruct l; [| reflexivity]. destruct trick; [reflexivity |].
      now rewrite andb_false_r. }
    destruct trick as [| lead rest].
    { destruct (cards p) as [| c cs] eqn:E; [congruence |].
      exists c. split; [now left | reflexivity]. }
    destruct l as [l |].
    + destruct (hasSuit (cards p) l) eqn:Hs.
      * unfold hasSuit in Hs. apply existsb_exists in Hs as (c & Hin & Hc).
        apply andb_true_iff in Hc as [_ Hsuit].
        exists c. split; [exact Hin |].
        unfold isValidPlay. rewrite Hforced.
        unfold followSuitRejects. rewrite Hsuit. cbn. now rewrite andb_false_r.
      * destruct (cards p) as [| c cs] eqn:E; [congruence |].
        exists c. split; [now left |].
        unfold isValidPlay. rewrite Hforced.
        unfold followSuitRejects. rewrite E, Hs. cbn. now rewrite andb_false_r.
    + destruct (cards p) as [| c cs] eqn:E; [congruence |].
      exists c. split; [now left |].
      unfold isValidPlay. now rewrite Hforced.
Qed.

(** X4: a player who holds at least one card always holds a card that
    [isValidPlay] accepts, whatever the trick and the lead suit are. *)
Theorem some_card_is_playable (p : Player) (trick : list Card) (l : option Suit) :
  cards p <> [] ->
  exists c, In c (cards p) /\ isValidPlay c p trick l = true.
Proof. exact (playable_card_exists p trick l). Qed.

Lemma some_card_is_playable_witness :
  exists c,
    In c [c_ SPADES ACE; c_ CLUBS KING; c_ HEARTS QUEEN]
    /\ isValidPlay c (seat "p1" [c_ SPADES ACE; c_ CLUBS KING; c_ HEARTS QUEEN])
         [c_ CLUBS TEN] (Some CLUBS) = true.
Proof.
  apply (some_card_is_playable
           (seat "p1" [c_ SPADES ACE; c_ CLUBS KING; c_ HEARTS QUEEN])).
  discriminate.
Defined.

Lemma determineTrickWinner_total (trick : list Card) (l : Suit) (ps : list Player) :
  trick <> [] -> (length trick <= length ps)%nat ->
  exists p, In p ps /\ determineTrickWinner trick l ps = Some (id p).
Proof.
  destruct trick as [| first rest]; [congruence |]. intros _ Hlen.
  pose proof (winningIndexOf_range first rest l) as Hw.
  unfold determineTrickWinner. unfold winningIndexOf in *.
  destruct (winnerLoop l rest 1 first 0) as [wc wi]. cbn [snd] in *.
  assert (Hwn : 0 <= wi < JS.len ps) by (unfold JS.len in *; lia).
  destruct (at_in_range ps wi Hwn) as [played Hplayed].
  rewrite Hplayed. cbn [bindT].
  set (f := fun q => String.eqb (id q) (id played)).
  assert (Hfound : JS.findIndex f ps <> -1).
  { rewrite findIndex_none. intros Hnone.
    apply at_Some in Hplayed as [_ Hn]. apply nth_error_In in Hn.
    pose proof (find_none f ps Hnone played Hn) as E. unfold f in E.
    now rewrite String.eqb_refl in E. }
  destruct (findIndex_range f ps) as [| Hr]; [contradiction |].
  unfold JS.rem. destruct (Z.eqb_spec (JS.len ps) 0); [lia |].
  cbn [JS.atIdx].
  assert (Hm : 0 <= Z.rem (JS.findIndex f ps + wi) (JS.len ps) < JS.len ps).
  { rewrite Z.rem_mod_nonneg by lia. apply Z.mod_pos_bound. lia. }
  destruct (at_in_range ps _ Hm) as [winner Hwin].
  rewrite Hwin. cbn [bindT].
  exists winner. split; [| reflexivity].
  apply at_Some in Hwin as [_ Hn]. eapply nth_error_In; eauto.
Qed.

(** X5: on a trick that is not longer than the table [determineTrickWinner]
    does not throw and answers the id of a player at the table; on an empty
    trick it answers the empty id; it throws when the winning card lies at a
    position beyond the last seat. *)
Theorem determineTrickWinner_seated (trick : list Card) (l : Suit) (ps : list Player) :
  determineTrickWinner [] l ps = Some empty
  /\ (trick <> [] -> (length trick <= length ps)%nat ->
      exists p, In p ps /\ determineTrickWinner trick l ps = Some (id p))
  /\ (trick <> [] -> JS.len ps <= winningIndexOf trick l ->
      determineTrickWinner trick l ps = None).
Proof.
  split; [reflexivity |].
  split; [apply determineTrickWinner_total |].
  destruct trick as [| first rest]; [congruence |]. intros _.
  unfold determineTrickWinner, winningIndexOf.
  destruct (winnerLoop l rest 1 first 0) as [wc wi]. cbn [snd].
  intros Hbeyond.
  destruct (JS.at_ ps wi) as [played |] eqn:E; [| reflexivity].
  apply at_Some in E as [E _]. lia.
Qed.

Lemma determineTrickWinner_seated_witness :
  (exists p, In p seats3 /\ determineTrickWinner trick_7A8 CLUBS seats3 = Some (id p))
  /\ determineTrickWinner trick_7A8 CLUBS [seat "p0" []] = None.
Proof.
  split.
  - apply (determineTrickWinner_seated trick_7A8 CLUBS seats3);
      [discriminate | cbn; lia].
  - apply (determineTrickWinner_seated trick_7A8 CLUBS [seat "p0" []]);
      [discriminate | vm_compute; discriminate].
Defined.

(** X6: the card the loop of [determineTrickWinner] settles on is the
    strongest trump of the trick or, in a trick without trump, the strongest
    card of the lead suit, as soon as the lead suit is the suit of the card
    led when that card is plain. *)
Theorem winner_is_strongest (first : Card) (rest : list Card) (l : Suit) :
  (isTrump first = false -> suit first = l) ->
  exists w,
    JS.at_ (first :: rest) (winningIndexOf (first :: rest) l) = Some w
    /\ winningCardOf (first :: rest) l w.
Proof.
  intros Hlead.
  destruct (winningIndexOf_correct first rest l Hlead) as (w & Hn & Hr & Hw).
  exists w. split; [| exact Hw].
  unfold JS.at_. destruct (Z.ltb_spec (winningIndexOf (first :: rest) l) 0); [lia |].
  exact Hn.
Qed.

Lemma winner_is_strongest_witness :
  exists w,
    JS.at_ [c_ HEARTS NINE; c_ SPADES ACE; c_ DIAMONDS SEVEN; c_ CLUBS JACK]
      (winningIndexOf [c_ HEARTS NINE; c_ SPADES ACE; c_ DIAMONDS SEVEN; c_ CLUBS JACK]
         HEARTS) = Some w
    /\ winningCardOf [c_ HEARTS NINE; c_ SPADES ACE; c_ DIAMONDS SEVEN; c_ CLUBS JACK]
         HEARTS w.
Proof.
  apply winner_is_strongest. reflexivity.
Defined.

(** X7: when the tricks won and the buried pile hold the deck, the two sides
    share 120 points, the picker's side wins exactly when the defenders have
    59 points or less (a split of 60 to 60 goes to the defenders), and the
    winner's points are at least 60. *)
Theorem score_shares_120 (s : GameState) :
  Permutation (wonCards (players s) ++ buried s) orderedDeck ->
  let r := calculateGameScore s in
  pickerTeamScore r + defenderTeamScore r = 120
  /\ (isPicKerTeamWinner r = true <-> defenderTeamScore r <= 59)
  /\ 60 <= pointsWon r.
Proof.
  intros Hperm. cbv zeta.
  assert (T : pickerTeamScore (calculateGameScore s)
              + defenderTeamScore (calculateGameScore s) = 120).
  { rewrite pickerTeamScore_eq, defenderTeamScore_eq.
    assert (E : cardPoints (wonCards (players s) ++ buried s) = 120).
    { unfold cardPoints.
      rewrite (sumZ_Permutation _ _ (Permutation_map value Hperm)). reflexivity. }
    rewrite cardPoints_app, cardPoints_wonCards in E.
    rewrite (teamPoints_split (onPickerTeam (players s))) in E.
    fold (pickerTeamOf (players s)) (defenderTeamOf (players s)) in E. lia. }
  split; [exact T |].
  assert (W : isPicKerTeamWinner (calculateGameScore s) = true
              <-> 61 <= pickerTeamScore (calculateGameScore s))
    by (rewrite isPicKerTeamWinner_eq; apply Z.leb_le).
  split; [rewrite W; lia |].
  assert (P : pointsWon (calculateGameScore s)
              = if isPicKerTeamWinner (calculateGameScore s)
                then pickerTeamScore (calculateGameScore s)
                else defenderTeamScore (calculateGameScore s)) by reflexivity.
  rewrite P, isPicKerTeamWinner_eq.
  destruct (Z.leb_spec 61 (pickerTeamScore (calculateGameScore s))); lia.
Qed.

Lemma score_shares_120_witness :
  pickerTeamScore (calculateGameScore sweptRound)
  + defenderTeamScore (calculateGameScore sweptRound) = 120
  /\ (isPicKerTeamWinner (calculateGameScore sweptRound) = true
      <-> defenderTeamScore (calculateGameScore sweptRound) <= 59)
  /\ 60 <= pointsWon (calculateGameScore sweptRound).
Proof.
  apply (score_shares_120 sweptRound).
  change (wonCards (players sweptRound)) with (skipn 2 orderedDeck).
  change (buried sweptRound) with (firstn 2 orderedDeck).
  rewrite Permutation_app_comm. now rewrite firstn_skipn.
Defined.

(* ------------------------------------------------------------------------- *)
(** ** Further properties of the reducer *)

(** Case analysis along the tests and the possible exceptions of a case of
    the reducer, down to the states it can return. *)
Ltac reducer_paths :=
  repeat (cbn [bindT]; cbv zeta;
          match goal with
          | |- (if ?c then _ else _) = Some _ -> _ => destruct c eqn:?
          | |- bindT ?m _ = Some _ -> _ => destruct m eqn:?; [| cbn [bindT]; discriminate]
          end).

Lemma endRound_log (env : Env) (s s' : GameState) :
  endRound env s = Some s' -> exists e, log s' = log s ++ [e].
Proof.
  unfold endRound. reducer_paths. intros [= <-]. cbn [log]. eauto.
Qed.

Lemma endTrick_log (env : Env) (s s' : GameState) :
  endTrick env s = Some s' ->
  s' = s \/ exists evs, evs <> [] /\ (length evs <= 2)%nat /\ log s' = log s ++ evs.
Proof.
  unfold endTrick. reducer_paths.
  - intros [= <-]. now left.
  - intros H. apply endRound_log in H as [e He]. right.
    exists [event "TRICK_COMPLETED" s0 env (Some (DataTrickNumber (trickNumber s + 1))); e].
    split; [discriminate |]. split; [cbn; lia |].
    rewrite He. unfold trickResolved. cbn [log]. now rewrite <- app_assoc.
  - intros [= <-]. right. eexists [_]. split; [discriminate |]. split; [cbn; lia |].
    reflexivity.
Qed.

(** X8: the log only grows. Every action but START_GAME, RESET_GAME and
    LOAD_GAME keeps the events logged so far and adds at most three; a
    player's action that adds none has left the whole state as it was. *)
Theorem log_append_only (env : Env) (s s' : GameState) (a : ActionType) :
  keepsTable a = true ->
  gameReducer env s a = Some s' ->
  exists evs,
    log s' = log s ++ evs
    /\ (length evs <= 3)%nat
    /\ (playerAction a = true -> evs = [] -> s' = s).
Proof.
  intros Ha.
  assert (Same : s' = s ->
                 exists evs, log s' = log s ++ evs /\ (length evs <= 3)%nat
                             /\ (playerAction a = true -> evs = [] -> s' = s)).
  { intros ->. exists []. rewrite app_nil_r. cbn. auto with arith. }
  assert (One : forall e, log s' = log s ++ [e] ->
                 exists evs, log s' = log s ++ evs /\ (length evs <= 3)%nat
                             /\ (playerAction a = true -> evs = [] -> s' = s)).
  { intros e He. exists [e]. split; [exact He |]. split; [cbn; lia |]. discriminate. }
  destruct a as [ nps | pid | pid | pid toBury | pid partnerId | pid card | | | | | | g ];
    try discriminate Ha; cbn [gameReducer].
  - unfold pickBlind. reducer_paths; intros [= <-];
      first [apply Same; reflexivity | eapply One; reflexivity].
  - unfold passBlind. reducer_paths; intros [= <-];
      first [apply Same; reflexivity | eapply One; reflexivity].
  - unfold buryCards. reducer_paths; intros [= <-];
      first [apply Same; reflexivity | eapply One; reflexivity].
  - unfold callPartner. reducer_paths; intros [= <-];
      first [apply Same; reflexivity | eapply One; reflexivity].
  - unfold playCard. reducer_paths;
      try (intros [= <-]; first [apply Same; reflexivity | eapply One; reflexivity]).
    intros H. apply endTrick_log in H as [-> | (evs & Hne & Hlen & Hlog)].
    + eapply One. reflexivity.
    + eexists (_ :: evs). split; [| split; [cbn; lia | discriminate]].
      rewrite Hlog. unfold cardPlayed. cbn [log]. now rewrite <- app_assoc.
  - unfold nextPlayerTurn. reducer_paths; intros [= <-];
      [apply Same; reflexivity |].
    exists []. cbn [log]. rewrite app_nil_r. split; [reflexivity |].
    split; [cbn; lia | discriminate].
  - intros H. apply endTrick_log in H as [-> | (evs & Hne & Hlen & Hlog)];
      [now apply Same |].
    exists evs. split; [exact Hlog |]. split; [lia | discriminate].
  - intros H. apply endRound_log in H as [e He]. exact (One e He).
  - unfold endGame. intros [= <-]. eapply One. reflexivity.
Qed.

Lemma log_append_only_witness :
  exists evs,
    log picked3 = log dealt3 ++ evs
    /\ (length evs <= 3)%nat
    /\ (playerAction (PICK_BLIND "p1") = true -> evs = [] -> picked3 = dealt3).
Proof.
  apply (log_append_only env0 dealt3 picked3 (PICK_BLIND "p1")); reflexivity.
Defined.

Lemma endRound_scoring (env : Env) (s s' : GameState) :
  endRound env s = Some s' -> phase s' = SCORING.
Proof. unfold endRound. reducer_paths. now intros [= <-]. Qed.

Lemma endTrick_phase (env : Env) (s s' : GameState) :
  endTrick env s = Some s' -> phase s' = phase s \/ phase s' = SCORING.
Proof.
  unfold endTrick. reducer_paths.
  - intros [= <-]. now left.
  - intros H. right. now apply endRound_scoring in H.
  - intros [= <-]. now left.
Qed.

(** X9: a player's action moves the phase along the edges of the phase
    machine only: it stays, or goes from PICKING to BURYING or PLAYING, from
    BURYING to CALLING_PARTNER (at a table of five) or to PLAYING (at any
    other table), from CALLING_PARTNER to PLAYING, from PLAYING to SCORING. *)
Theorem phase_follows_machine (env : Env) (s s' : GameState) (a : ActionType) :
  playerAction a = true ->
  gameReducer env s a = Some s' ->
  phaseEdge (length (players s)) (phase s) (phase s').
Proof.
  intros Ha.
  destruct a as [ nps | pid | pid | pid toBury | pid partnerId | pid card | | | | | | g ];
    try discriminate Ha; cbn [gameReducer]; unfold phaseEdge.
  - unfold pickBlind. reducer_paths; intros [= <-]; [now left |].
    apply orb_false_iff in Heqb as [_ Hp]. apply negb_false_iff, GamePhase_eqb_eq in Hp.
    cbn [phase]. right. left. auto.
  - unfold passBlind. reducer_paths; intros [= <-]; [now left | | now left].
    apply negb_false_iff, GamePhase_eqb_eq in Heqb.
    cbn [phase]. right. left. auto.
  - unfold buryCards. reducer_paths; intros [= <-]; [now left | now left |].
    apply orb_false_iff in Heqb as [Hp _]. apply negb_false_iff, GamePhase_eqb_eq in Hp.
    cbn [phase]. right. right. left. split; [exact Hp |].
    rewrite len_mapi. unfold JS.len.
    destruct (Z.eqb_spec (Z.of_nat (length (players s))) 5); [left | right];
      (split; [reflexivity | lia]).
  - unfold callPartner. reducer_paths; intros [= <-]; try (now left).
    apply negb_false_iff, GamePhase_eqb_eq in Heqb.
    cbn [phase]. right. right. right. left. auto.
  - unfold playCard. reducer_paths; try (intros [= <-]; now left).
    intros H. apply endTrick_phase in H. cbn [phase cardPlayed] in H.
    apply orb_false_iff in Heqb as [Hp _]. apply negb_false_iff, GamePhase_eqb_eq in Hp.
    destruct H as [H | H]; [left; congruence |].
    right. right. right. right. auto.
Qed.

Lemma phase_follows_machine_witness :
  phaseEdge 3 (phase dealt3) (phase picked3).
Proof.
  apply (phase_follows_machine env0 dealt3 picked3 (PICK_BLIND "p1")); reflexivity.
Defined.

Lemma map_mapi_update {B : Type} (f : Player -> B) (g : Player -> Player)
    (ps : list Player) (target : Z) :
  (forall p, f (g p) = f p) ->
  map f (JS.mapi (fun p idx => if idx =? target then g p else p) ps) = map f ps.
Proof.
  intros Hg. unfold JS.mapi. generalize 0.
  induction ps as [| p ps IH]; intros i; cbn; [reflexivity |].
  rewrite IH. now destruct (i =? target); rewrite ?Hg.
Qed.

Lemma map_awardTrick {B : Type} (f : Player -> B) (s : GameState) (w : string) :
  (forall p ts, f (withTricksWon p ts) = f p) ->
  map f (awardTrick s w) = map f (players s).
Proof.
  intros Hf. unfold awardTrick. rewrite map_map. apply map_ext.
  intros p. now destruct (String.eqb (id p) w).
Qed.

Lemma scorePlayer_identity (s : GameState) (sc : GameScore) (p : Player) :
  identityOf (scorePlayer s sc p) = identityOf p.
Proof.
  unfold scorePlayer.
  destruct (if isLeaster s then None else findPicker (players s)).
  - now destruct (_ || _).
  - destruct (isLeaster s); [| reflexivity].
    destruct (leasterScan (players s)). now destruct (String.eqb _ _).
Qed.

Lemma endRound_identity (env : Env) (s s' : GameState) :
  endRound env s = Some s' ->
  map identityOf (players s') = map identityOf (players s).
Proof.
  unfold endRound. reducer_paths. intros [= <-]. cbn [players].
  unfold JS.mapi.
  rewrite (map_mapiFrom _ identityOf identityOf) by reflexivity.
  rewrite map_map. apply map_ext. apply scorePlayer_identity.
Qed.

Lemma endTrick_identity (env : Env) (s s' : GameState) :
  endTrick env s = Some s' ->
  map identityOf (players s') = map identityOf (players s)
  /\ (phase s' <> SCORING -> map standingOf (players s') = map standingOf (players s)).
Proof.
  unfold endTrick. reducer_paths.
  - intros [= <-]. auto.
  - intros H. split.
    + rewrite (endRound_identity _ _ _ H). unfold trickResolved. cbn [players].
      now apply map_awardTrick.
    + intros Hn. apply endRound_scoring in H. contradiction.
  - intros [= <-]. unfold trickResolved. cbn [players].
    split; [| intros _]; now apply map_awardTrick.
Qed.

(** X10: every action but START_GAME, RESET_GAME and LOAD_GAME keeps the
    players, seat by seat, with their ids, names, avatars and human flags; and
    unless it ends in the scoring of the round it keeps their scores and
    dealer flags as well. *)
Theorem table_is_kept (env : Env) (s s' : GameState) (a : ActionType) :
  keepsTable a = true ->
  gameReducer env s a = Some s' ->
  map identityOf (players s') = map identityOf (players s)
  /\ (phase s' <> SCORING -> map standingOf (players s') = map standingOf (players s)).
Proof.
  intros Ha.
  destruct a as [ nps | pid | pid | pid toBury | pid partnerId | pid card | | | | | | g ];
    try discriminate Ha; cbn [gameReducer].
  - unfold pickBlind. reducer_paths; intros [= <-]; cbn [players]; [auto |].
    split; [| intros _]; now apply map_mapi_update.
  - unfold passBlind. reducer_paths; intros [= <-]; cbn [players]; auto.
  - unfold buryCards. reducer_paths; intros [= <-]; cbn [players]; auto.
    split; [| intros _]; now apply map_mapi_update.
  - unfold callPartner. reducer_paths; intros [= <-]; cbn [players]; auto.
    split; [| intros _]; now apply map_mapi_update.
  - assert (Hplayed : forall i next,
              map identityOf (players (cardPlayed env s i pid card next))
              = map identityOf (players s)
              /\ map standingOf (players (cardPlayed env s i pid card next))
                 = map standingOf (players s)).
    { intros i next. unfold cardPlayed, takeFromHand. cbn [players].
      split; now apply map_mapi_update. }
    unfold playCard. reducer_paths; try (intros [= <-]; auto).
    + intros H. apply endTrick_identity in H as [H1 H2].
      destruct (Hplayed (JS.findIndex (fun p => String.eqb (id p) pid) (players s)) p0)
        as [E1 E2].
      split; [congruence |]. intros Hn. rewrite (H2 Hn). exact E2.
    + destruct (Hplayed (JS.findIndex (fun p => String.eqb (id p) pid) (players s)) p0)
        as [E1 E2]. auto.
  - unfold nextPlayerTurn. reducer_paths; intros [= <-]; cbn [players]; auto.
  - apply endTrick_identity.
  - intros H. split; [now apply endRound_identity in H |].
    intros Hn. apply endRound_scoring in H. contradiction.
  - unfold endGame. intros [= <-]. cbn [players]. auto.
Qed.

Lemma table_is_kept_witness :
  map identityOf (players picked3) = map identityOf (players dealt3)
  /\ (phase picked3 <> SCORING ->
      map standingOf (players picked3) = map standingOf (players dealt3)).
Proof.
  apply (table_is_kept env0 dealt3 picked3 (PICK_BLIND "p1")); reflexivity.
Defined.

Lemma dealers_by_flags (ps qs : list Player) :
  map isDealer ps = map isDealer qs ->
  length (filter isDealer ps) = length (filter isDealer qs).
Proof.
  revert qs. induction ps as [| p ps IH]; intros [| q qs]; cbn; try discriminate;
    [reflexivity |].
  intros [= E1 E2]. rewrite E1. destruct (isDealer q); cbn; now rewrite (IH qs E2).
Qed.

Ltac split_comparisons :=
  repeat match goal with
         | |- context [?a <=? ?b] => destruct (Z.leb_spec a b)
         | |- context [?a <? ?b] => destruct (Z.ltb_spec a b)
         end;
  cbn; try reflexivity; try lia.

Lemma one_flag_from {A : Type} (G : A -> Z -> Player) (ps : list A) (nd i : Z) :
  (forall p k, isDealer (G p k) = (nd =? k)) ->
  length (filter isDealer (JS.mapiFrom G ps i))
  = if (i <=? nd) && (nd <? i + JS.len ps) then 1%nat else 0%nat.
Proof.
  intros HG. revert i. unfold JS.len.
  induction ps as [| p ps IH]; intros i; cbn [JS.mapiFrom filter].
  - cbn [length]. split_comparisons.
  - rewrite HG. destruct (Z.eqb_spec nd i) as [-> | N]; cbn [length]; rewrite IH;
      split_comparisons.
Qed.

Lemma endRound_oneDealer (env : Env) (s s' : GameState) :
  endRound env s = Some s' -> oneDealer s'.
Proof.
  unfold endRound.
  destruct (JS.rem _ _) as [nd |] eqn:Hrem; cbn [JS.atIdx]; [| discriminate].
  destruct (JS.at_ _ nd) as [newDealer |] eqn:Hat; cbn [bindT]; [| discriminate].
  intros [= <-]. unfold oneDealer. cbn [players]. unfold JS.mapi.
  rewrite (one_flag_from _ _ nd 0) by reflexivity.
  apply at_Some in Hat as [Hr _]. rewrite len_mapi in Hr.
  split_comparisons.
Qed.

Lemma endTrick_oneDealer (env : Env) (s s' : GameState) :
  oneDealer s -> endTrick env s = Some s' -> oneDealer s'.
Proof.
  intros Hone. unfold endTrick. reducer_paths.
  - now intros [= <-].
  - apply endRound_oneDealer.
  - intros [= <-]. unfold oneDealer, trickResolved in *. cbn [players].
    rewrite (dealers_by_flags _ (players s)); [exact Hone |].
    now apply map_awardTrick.
Qed.

Lemma pushCard_flags (ps ps' : list Player) (idx : option Z) (card : Card) :
  pushCard ps idx card = Some ps' -> map isDealer ps' = map isDealer ps.
Proof.
  unfold pushCard. destruct (JS.atIdx ps idx); cbn [bindT]; [| discriminate].
  intros [= <-]. apply map_mapiFrom.
  intros q k. now destruct (JS.idxEq idx k).
Qed.

Lemma dealCards_keeps_flags (deck : list Card) (ps : list Player)
    (st' : list Player * list Card) :
  dealCards deck ps = Some st' -> map isDealer (fst st') = map isDealer ps.
Proof.
  unfold dealCards.
  apply forEachM_invariant with (P := fun st => map isDealer (fst st) = map isDealer ps);
    [| reflexivity].
  intros a _ b Ha.
  apply forEachM_invariant with (P := fun st => map isDealer (fst st) = map isDealer ps);
    [| exact Ha].
  intros [qs d] i [qs' d'] Hq. unfold dealOne. cbn [fst] in *.
  destruct d as [| card d2]; [now intros [= <- <-] |].
  destruct (pushCard qs _ card) as [qs2 |] eqn:E; cbn [bindT]; [| discriminate].
  intros [= <- <-]. rewrite <- Hq. now apply pushCard_flags in E.
Qed.

(** X11: after START_GAME exactly one player is the dealer, and every action
    but RESET_GAME and LOAD_GAME hands on a table with exactly one dealer,
    the scoring of a round included. *)
Theorem exactly_one_dealer (env : Env) (s s' : GameState) (a : ActionType) :
  match a with
  | START_GAME _ | END_ROUND => True
  | RESET_GAME | LOAD_GAME _ => False
  | _ => oneDealer s
  end ->
  gameReducer env s a = Some s' ->
  oneDealer s'.
Proof.
  intros Ha.
  assert (Kept : forall ps, map isDealer ps = map isDealer (players s) ->
                            oneDealer s -> length (filter isDealer ps) = 1%nat).
  { intros ps E H. unfold oneDealer in H. now rewrite (dealers_by_flags _ _ E). }
  destruct a as [ nps | pid | pid | pid toBury | pid partnerId | pid card | | | | | | g ];
    try contradiction; cbn [gameReducer].
  - (* START_GAME *)
    unfold startGame.
    set (init := JS.mapi _ nps).
    destruct (dealCards _ init) as [[ps blind] |] eqn:Hdeal; cbn [bindT];
      [| discriminate].
    destruct (JS.atIdx ps _) as [starting |] eqn:Hat; cbn [bindT]; [| discriminate].
    intros [= <-]. unfold oneDealer. cbn [players].
    apply dealCards_keeps_flags in Hdeal. cbn [fst] in Hdeal.
    rewrite (dealers_by_flags ps init Hdeal).
    unfold init, JS.mapi.
    rewrite (one_flag_from _ _ 0 0)
      by (intros p k; cbn [isDealer]; apply Z.eqb_sym).
    assert (Hlen : JS.len nps = JS.len ps).
    { unfold JS.len. f_equal. rewrite <- (length_map isDealer ps), Hdeal, length_map.
      unfold init. now rewrite length_mapi. }
    destruct (JS.rem _ (JS.len ps)) as [i |] eqn:Hrem; cbn [JS.atIdx] in Hat;
      [| discriminate].
    apply at_Some in Hat as [Hr _].
    split_comparisons.
  - unfold pickBlind. reducer_paths; intros [= <-]; [assumption |].
    apply Kept; [| assumption]. cbn [players]. now apply map_mapi_update.
  - unfold passBlind. reducer_paths; intros [= <-]; assumption.
  - unfold buryCards. reducer_paths; intros [= <-]; try assumption.
    apply Kept; [| assumption]. cbn [players]. now apply map_mapi_update.
  - unfold callPartner. reducer_paths; intros [= <-]; try assumption.
    apply Kept; [| assumption]. cbn [players]. now apply map_mapi_update.
  - assert (Hplayed : forall i next, oneDealer (cardPlayed env s i pid card next)).
    { intros i next. apply Kept; [| assumption].
      unfold cardPlayed, takeFromHand. cbn [players]. now apply map_mapi_update. }
    unfold playCard. reducer_paths; try (intros [= <-]; assumption || apply Hplayed).
    apply endTrick_oneDealer, Hplayed.
  - unfold nextPlayerTurn. reducer_paths; intros [= <-]; assumption.
  - now apply endTrick_oneDealer.
  - apply endRound_oneDealer.
  - unfold endGame. intros [= <-]. assumption.
Qed.

Lemma exactly_one_dealer_witness : oneDealer dealt3 /\ oneDealer picked3.
Proof.
  assert (H : oneDealer dealt3)
    by (apply (exactly_one_dealer env0 initialState dealt3 (START_GAME three));
        [exact I | reflexivity]).
  split; [exact H |].
  apply (exactly_one_dealer env0 dealt3 picked3 (PICK_BLIND "p1")); [exact H | reflexivity].
Defined.

Lemma endRound_sizes (env : Env) (s s' : GameState) :
  endRound env s = Some s' ->
  length (players s') = length (players s) /\ currentTrick s' = currentTrick s.
Proof.
  intros H. split; [| now apply endRound_keeps_trick in H].
  apply endRound_identity in H.
  apply (f_equal (@length _)) in H. now rewrite !length_map in H.
Qed.

Lemma length_awardTrick (s : GameState) (w : string) :
  length (awardTrick s w) = length (players s).
Proof. unfold awardTrick. apply length_map. Qed.

Lemma endTrick_open (env : Env) (s s' : GameState) :
  endTrick env s = Some s' ->
  (JS.len (currentTrick s) <> JS.len (players s) -> s' = s)
  /\ (JS.len (currentTrick s) = JS.len (players s) -> trickOpen s').
Proof.
  unfold endTrick.
  destruct (Z.eqb_spec (JS.len (currentTrick s)) (JS.len (players s))) as [Hfull | Hopen];
    cbn [negb]; [| intros [= <-]; split; [reflexivity | contradiction]].
  destruct (determineTrickWinner _ _ _) as [w |]; cbn [bindT]; [| discriminate].
  destruct (JS.at_ (awardTrick s w) 0) as [first |] eqn:Hfirst; cbn [bindT];
    [| discriminate].
  apply at_Some in Hfirst as [Hpos _]. unfold JS.len in Hpos.
  rewrite length_awardTrick in Hpos.
  assert (Hres : trickOpen (trickResolved env s w)).
  { unfold trickOpen, trickResolved. cbn [currentTrick players length].
    rewrite length_awardTrick. lia. }
  destruct (JS.len (cards first) =? 0).
  - intros H. split; [contradiction |]. intros _.
    apply endRound_sizes in H as [Hl Ht]. unfold trickOpen in *. now rewrite Hl, Ht.
  - intros [= <-]. split; [contradiction | auto].
Qed.

(** X12: between two dispatches the trick on the table is never complete:
    START_GAME yields an open trick, and every action but RESET_GAME and
    LOAD_GAME that finds the trick open leaves it open, a card that completes
    the trick being resolved within the same dispatch. *)
Theorem trick_never_left_complete (env : Env) (s s' : GameState) (a : ActionType) :
  match a with
  | START_GAME _ => True
  | RESET_GAME | LOAD_GAME _ => False
  | _ => trickOpen s
  end ->
  gameReducer env s a = Some s' ->
  trickOpen s'.
Proof.
  intros Ha.
  assert (Kept : forall (ps : list Player) (t : list Card),
             length ps = length (players s) -> t = currentTrick s -> trickOpen s ->
             (length t < length ps)%nat).
  { intros ps t E -> H. unfold trickOpen in H. now rewrite E. }
  destruct a as [ nps | pid | pid | pid toBury | pid partnerId | pid card | | | | | | g ];
    try contradiction; cbn [gameReducer].
  - unfold startGame.
    destruct (dealCards _ _) as [[ps blind] |]; cbn [bindT]; [| discriminate].
    destruct (JS.rem _ (JS.len ps)) as [i |]; cbn [JS.atIdx]; [| discriminate].
    destruct (JS.at_ ps i) as [starting |] eqn:Hat; cbn [bindT]; [| discriminate].
    intros [= <-]. unfold trickOpen. cbn [currentTrick players length].
    apply at_Some in Hat as [Hr _]. unfold JS.len in Hr. lia.
  - unfold pickBlind. reducer_paths; intros [= <-]; [assumption |].
    apply Kept; [apply length_mapi | reflexivity | assumption].
  - unfold passBlind. reducer_paths; intros [= <-]; assumption.
  - unfold buryCards. reducer_paths; intros [= <-]; try assumption.
    apply Kept; [apply length_mapi | reflexivity | assumption].
  - unfold callPartner. reducer_paths; intros [= <-]; try assumption.
    apply Kept; [apply length_mapi | reflexivity | assumption].
  - unfold playCard. reducer_paths; try (intros [= <-]; assumption).
    + intros H. apply endTrick_open in H as [_ H]. apply H.
      apply Z.eqb_eq in Heqb2. rewrite Heqb2.
      unfold cardPlayed, takeFromHand. cbn [players]. now rewrite len_mapi.
    + intros [= <-]. apply Z.eqb_neq in Heqb2.
      unfold trickOpen in *. unfold cardPlayed, takeFromHand in *.
      cbn [currentTrick players] in *. unfold JS.len in Heqb2.
      rewrite length_mapi. rewrite length_app in *. cbn [length] in *. lia.
  - unfold nextPlayerTurn. reducer_paths; intros [= <-]; assumption.
  - intros H. apply endTrick_open in H as [H _]. rewrite H; [assumption |].
    unfold trickOpen, JS.len in *. lia.
  - intros H. apply endRound_sizes in H as [Hl Ht]. unfold trickOpen in *.
    now rewrite Hl, Ht.
  - unfold endGame. intros [= <-]. assumption.
Qed.

Lemma trick_never_left_complete_witness : trickOpen dealt3 /\ trickOpen picked3.
Proof.
  assert (H : trickOpen dealt3)
    by (apply (trick_never_left_complete env0 initialState dealt3 (START_GAME three));
        [exact I | reflexivity]).
  split; [exact H |].
  apply (trick_never_left_complete env0 dealt3 picked3 (PICK_BLIND "p1"));
    [exact H | reflexivity].
Defined.

Lemma endTrick_exact (env : Env) (s s' : GameState) :
  leadSuitExact s -> endTrick env s = Some s' -> leadSuitExact s'.
Proof.
  intros Hx. unfold endTrick. reducer_paths.
  - now intros [= <-].
  - intros H. apply endRound_keeps_trick in H as [Ht Hl].
    unfold leadSuitExact. now rewrite Ht, Hl.
  - now intros [= <-].
Qed.

Lemma cardPlayed_exact (env : Env) (s : GameState) (i : Z) (pid : string)
    (card : Card) (next : Player) :
  leadSuitExact s -> leadSuitExact (cardPlayed env s i pid card next).
Proof.
  unfold leadSuitExact, cardPlayed; cbn [leadSuit currentTrick].
  destruct (currentTrick s) as [| lead rest]; cbn.
  - intros ->. now destruct (isTrump card).
  - unfold JS.len; cbn [length].
    destruct (Z.eqb_spec (Z.of_nat (S (length rest))) 0); [lia |]. auto.
Qed.

Lemma leadSuitExact_step (env : Env) (s s' : GameState) (a : ActionType) :
  leadSuitExact s -> keepsGame a = true ->
  gameReducer env s a = Some s' -> leadSuitExact s'.
Proof.
  intros Hx Ha.
  destruct a as [ nps | pid | pid | pid toBury | pid partnerId | pid card | | | | | | g ];
    try discriminate Ha; cbn [gameReducer].
  - unfold pickBlind. reducer_paths; intros [= <-]; exact Hx.
  - unfold passBlind. reducer_paths; intros [= <-]; exact Hx.
  - unfold buryCards. reducer_paths; intros [= <-]; exact Hx.
  - unfold callPartner. reducer_paths; intros [= <-]; exact Hx.
  - unfold playCard. reducer_paths; try (intros [= <-]; exact Hx).
    + apply endTrick_exact. now apply cardPlayed_exact.
    + intros [= <-]. now apply cardPlayed_exact.
  - unfold nextPlayerTurn. reducer_paths; intros [= <-]; exact Hx.
  - now apply endTrick_exact.
  - intros H. apply endRound_keeps_trick in H as [Ht Hl].
    unfold leadSuitExact. now rewrite Ht, Hl.
  - unfold endGame. intros [= <-]; exact Hx.
  - intros [= <-]. reflexivity.
Qed.

Lemma dispatchAll_exact (steps : list (Env * ActionType)) (s s' : GameState) :
  leadSuitExact s -> keepGame steps = true ->
  dispatchAll s steps = Some s' -> leadSuitExact s'.
Proof.
  unfold keepGame.
  revert s. induction steps as [| [env a] rest IH]; intros s Hx Hk; cbn [dispatchAll].
  - now intros [= <-].
  - cbn [forallb snd] in Hk. apply andb_true_iff in Hk as [Ha Hrest].
    destruct (gameReducer env s a) as [mid |] eqn:E; cbn [bindT]; [| discriminate].
    apply IH; [| exact Hrest]. now apply (leadSuitExact_step env s mid a).
Qed.

Lemma first_game_exact (env : Env) (newPlayers : list PlayerInit)
    (steps : list (Env * ActionType)) (s : GameState) :
  keepGame steps = true ->
  dispatchAll initialState ((env, START_GAME newPlayers) :: steps) = Some s ->
  leadSuitExact s.
Proof.
  intros Hk. cbn [dispatchAll gameReducer]. unfold startGame.
  destruct (dealCards _ _) as [[ps blind] |]; cbn [bindT]; [| discriminate].
  destruct (JS.atIdx ps _) as [starting |]; cbn [bindT]; [| discriminate].
  apply dispatchAll_exact; [reflexivity | exact Hk].
Qed.

(** X13: in a game started once from the initial state, whatever actions
    follow (short of a new START_GAME or a LOAD_GAME) and whatever each
    dispatch reads from its surroundings, the lead suit is the suit of the
    card the trick was led with when that card is plain, and is unset when
    the trick is empty or was led with a trump; a card is then valid exactly
    when the follow-suit test lets it pass. *)
Theorem lead_suit_is_suit_led (env : Env) (newPlayers : list PlayerInit)
    (steps : list (Env * ActionType)) (s : GameState) :
  keepGame steps = true ->
  dispatchAll initialState ((env, START_GAME newPlayers) :: steps) = Some s ->
  leadSuit s = leadSuitOf (currentTrick s)
  /\ forall card p,
       isValidPlay card p (currentTrick s) (leadSuit s)
       = match currentTrick s with
         | [] => true
         | _ :: _ => negb (followSuitRejects card p (leadSuit s))
         end.
Proof.
  intros Hk Hrun.
  pose proof (first_game_exact env newPlayers steps s Hk Hrun) as Hx.
  split; [exact Hx |].
  intros card p. unfold isValidPlay.
  destruct (currentTrick s) as [| lead rest] eqn:Ht; [reflexivity |].
  assert (F : forcedTrumpRejects card p (lead :: rest) (leadSuit s) = false).
  { unfold leadSuitExact in Hx. rewrite Ht in Hx. cbn in Hx.
    unfold forcedTrumpRejects. rewrite Hx.
    now destruct (isTrump lead). }
  rewrite F. now destruct (followSuitRejects card p (leadSuit s)).
Qed.

(** After the ace of spades was led and trumped, the lead suit is spades:
    p0, who holds spades, may play the seven of spades but not the eight of
    hearts. After the queen of hearts was led the lead suit is unset, and
    p0 may play the eight of hearts although it holds trumps. *)
Lemma lead_suit_is_suit_led_witness :
  (leadSuit spadeTrick = Some SPADES
   /\ isValidPlay (c_ HEARTS EIGHT) (seated spadeTrick 0) (currentTrick spadeTrick)
        (leadSuit spadeTrick) = false
   /\ isValidPlay (c_ SPADES SEVEN) (seated spadeTrick 0) (currentTrick spadeTrick)
        (leadSuit spadeTrick) = true)
  /\ (leadSuit trumpTrick = None
      /\ isValidPlay (c_ HEARTS EIGHT) (seated trumpTrick 0) (currentTrick trumpTrick)
           (leadSuit trumpTrick) = true).
Proof.
  destruct (lead_suit_is_suit_led (envAt 0) three spadeSteps spadeTrick eq_refl eq_refl)
    as [Hspade Hvalid].
  destruct (lead_suit_is_suit_led (envAt 0) three trumpSteps trumpTrick eq_refl eq_refl)
    as [Htrump Hvalid'].
  split; [split; [exact Hspade | split] | split; [exact Htrump |]].
  - exact (Hvalid (c_ HEARTS EIGHT) (seated spadeTrick 0)).
  - exact (Hvalid (c_ SPADES SEVEN) (seated spadeTrick 0)).
  - exact (Hvalid' (c_ HEARTS EIGHT) (seated trumpTrick 0)).
Defined.

(** X14: in such a game the lead suit that END_TRICK hands to
    [determineTrickWinner] ([leadSuit], or clubs when it is unset) makes the
    loop settle on the strongest trump of the trick or, in a trick without
    trump, on the strongest card of the suit that was led. *)
Theorem first_game_trick_goes_to_strongest (env : Env) (newPlayers : list PlayerInit)
    (steps : list (Env * ActionType)) (s : GameState) (first : Card) (rest : list Card) :
  keepGame steps = true ->
  dispatchAll initialState ((env, START_GAME newPlayers) :: steps) = Some s ->
  currentTrick s = first :: rest ->
  let l := match leadSuit s with Some l => l | None => CLUBS end in
  exists w,
    JS.at_ (first :: rest) (winningIndexOf (first :: rest) l) = Some w
    /\ winningCardOf (first :: rest) (suit first) w.
Proof.
  intros Hk Hrun Ht l.
  pose proof (first_game_exact env newPlayers steps s Hk Hrun) as Hx.
  unfold leadSuitExact in Hx. rewrite Ht in Hx. cbn in Hx.
  assert (Hlead : isTrump first = false -> suit first = l).
  { intros E. unfold l. rewrite Hx, E. reflexivity. }
  destruct (winningIndexOf_correct first rest l Hlead) as (w & Hn & Hr & Hin & Htr & Hpl).
  exists w. split.
  - unfold JS.at_. destruct (Z.ltb_spec (winningIndexOf (first :: rest) l) 0); [lia |].
    exact Hn.
  - split; [exact Hin |]. split; [exact Htr |].
    intros Hall.
    assert (E : isTrump first = false) by (apply Hall; now left).
    rewrite (Hlead E). now apply Hpl.
Qed.

(** Over the ace of spades led, the queen of spades wins as the only trump,
    the lead suit handed on being spades; over the queen of hearts led, the
    queen of spades wins as the stronger trump, the lead suit handed on
    being the clubs of the fallback. *)
Lemma first_game_trick_goes_to_strongest_witness :
  (JS.at_ [c_ SPADES ACE; c_ SPADES QUEEN]
     (winningIndexOf [c_ SPADES ACE; c_ SPADES QUEEN] SPADES) = Some (c_ SPADES QUEEN)
   /\ winningCardOf [c_ SPADES ACE; c_ SPADES QUEEN] SPADES (c_ SPADES QUEEN))
  /\ (JS.at_ [c_ HEARTS QUEEN; c_ SPADES QUEEN]
        (winningIndexOf [c_ HEARTS QUEEN; c_ SPADES QUEEN] CLUBS) = Some (c_ SPADES QUEEN)
      /\ winningCardOf [c_ HEARTS QUEEN; c_ SPADES QUEEN] HEARTS (c_ SPADES QUEEN)).
Proof.
  destruct (first_game_trick_goes_to_strongest (envAt 0) three spadeSteps spadeTrick
              (c_ SPADES ACE) [c_ SPADES QUEEN] eq_refl eq_refl eq_refl)
    as (w & Hat & Hw).
  destruct (first_game_trick_goes_to_strongest (envAt 0) three trumpSteps trumpTrick
              (c_ HEARTS QUEEN) [c_ SPADES QUEEN] eq_refl eq_refl eq_refl)
    as (w' & Hat' & Hw').
  vm_compute in Hat, Hat'. injection Hat as <-. injection Hat' as <-.
  split; split; [reflexivity | exact Hw | reflexivity | exact Hw'].
Defined.

(* ------------------------------------------------------------------------- *)
(** ** Where the reducer throws *)

Lemma isNil_true {A : Type} (xs : list A) : isNil xs = true <-> xs = [].
Proof. destruct xs; cbn; split; congruence. Qed.

Lemma isNil_false {A : Type} (xs : list A) : isNil xs = false <-> xs <> [].
Proof. destruct xs; cbn; split; congruence. Qed.






(* ------------------------------------------------------------------------- *)
(** ** Sorting *)

Section Sorting.
Context {A : Type}.
Implicit Types (compare : A -> A -> Z) (key : A -> Z) (xs : list A).

Lemma insertBy_perm compare (x : A) xs : Permutation (insertBy compare x xs) (x :: xs).
Proof.
  induction xs as [| y ys IH]; cbn; [reflexivity |].
  destruct (compare x y <=? 0); [reflexivity |].
  eapply Permutation_trans; [apply perm_skip, IH | apply perm_swap].
Qed.

Lemma sortBy_perm compare xs : Permutation (sortBy compare xs) xs.
Proof.
  induction xs as [| x xs IH]; cbn; [reflexivity |].
  eapply Permutation_trans; [apply insertBy_perm | now apply perm_skip].
Qed.

Lemma sortBy_In compare xs (x : A) : In x (sortBy compare xs) <-> In x xs.
Proof.
  split; apply Permutation_in; [| apply Permutation_sym]; apply sortBy_perm.
Qed.

Lemma length_sortBy compare xs : length (sortBy compare xs) = length xs.
Proof. apply Permutation_length, sortBy_perm. Qed.

Lemma insertBy_ascending key (x : A) xs :
  ascending key xs -> ascending key (insertBy (fun a b => key a - key b) x xs).
Proof.
  induction xs as [| y ys IH]; cbn [insertBy ascending].
  - intros _. split; [intros ? [] | exact I].
  - intros [Hy Hys]. destruct (Z.leb_spec (key x - key y) 0) as [Hle | Hgt].
    + cbn [ascending]. split; [| now split].
      intros z [<- | Hz]; [lia |]. specialize (Hy z Hz). lia.
    + cbn [ascending]. split; [| now apply IH].
      intros z Hz. apply (Permutation_in _ (insertBy_perm _ x ys)) in Hz.
      destruct Hz as [<- | Hz]; [lia | now apply Hy].
Qed.

Lemma sortBy_ascending key xs : ascending key (sortBy (fun a b => key a - key b) xs).
Proof.
  induction xs as [| x xs IH]; cbn [sortBy]; [exact I | now apply insertBy_ascending].
Qed.

(** The first element of an array sorted by a key is one of the array with
    the least key. *)
Lemma first_sortBy_least key xs (c : A) :
  first (sortBy (fun a b => key a - key b) xs) = Some c ->
  In c xs /\ forall y, In y xs -> key c <= key y.
Proof.
  pose proof (sortBy_ascending key xs) as Hasc.
  pose proof (sortBy_In (fun a b => key a - key b) xs) as Hin.
  destruct (sortBy _ xs) as [| c' rest]; [discriminate |].
  intros [= ->]. destruct Hasc as [Hc _].
  split; [apply Hin; now left |].
  intros y Hy. apply Hin in Hy as [<- | Hy]; [lia | now apply Hc].
Qed.

Lemma first_in xs : xs <> [] -> exists c, first xs = Some c /\ In c xs.
Proof. destruct xs as [| c xs]; [congruence |]. intros _. exists c. cbn. auto. Qed.

Lemma first_Some_in xs (c : A) : first xs = Some c -> In c xs.
Proof. destruct xs; [discriminate |]. intros [= ->]. now left. Qed.

Lemma first_sortBy_in compare xs :
  xs <> [] -> exists c, first (sortBy compare xs) = Some c /\ In c xs.
Proof.
  intros Hne. destruct (first_in (sortBy compare xs)) as (c & Hc & Hin).
  - intros E. apply (f_equal (@length _)) in E. rewrite length_sortBy in E.
    destruct xs; [congruence | discriminate].
  - exists c. split; [exact Hc | now apply sortBy_In in Hin].
Qed.

Lemma len_nonempty xs : 0 < JS.len xs -> xs <> [].
Proof. intros H ->. cbn in H. lia. Qed.
End Sorting.

(* ------------------------------------------------------------------------- *)
(** ** The computer players *)

Lemma highestLoop_range (l : option Suit) (rest : list Card) (i : Z) (h : Card) (hi : Z) :
  0 <= hi < i ->
  0 <= snd (highestLoop l rest i h hi) < i + JS.len rest.
Proof.
  revert i h hi. unfold JS.len.
  induction rest as [| card rest IH]; intros i h hi H; cbn [highestLoop length].
  - cbn. lia.
  - destruct (overtakes l card h).
    + specialize (IH (i + 1) card i). lia.
    + specialize (IH (i + 1) h hi). lia.
Qed.

Lemma chooseLeadCard_in (p : Player) (validPlays : list Card) (s : GameState) :
  validPlays <> [] ->
  exists c, chooseLeadCard p validPlays s = Some c /\ In c validPlays.
Proof.
  intros Hne. unfold chooseLeadCard.
  assert (Hsub : forall (f : Card -> bool) c,
            first (filter f validPlays) = Some c -> In c validPlays).
  { intros f c H. apply first_Some_in in H. now apply filter_In in H. }
  assert (Hpos : forall (f : Card -> bool), (JS.len (filter f validPlays) >? 0) = true ->
            exists c, first (filter f validPlays) = Some c /\ In c validPlays).
  { intros f H. destruct (first_in (filter f validPlays)) as (c & Hc & _).
    - apply len_nonempty. lia.
    - exists c. split; [exact Hc | now apply Hsub in Hc]. }
  assert (Hone : forall (f : Card -> bool), (JS.len (filter f validPlays) =? 1) = true ->
            exists c, first (filter f validPlays) = Some c /\ In c validPlays).
  { intros f H. apply Hpos. lia. }
  pose proof (first_sortBy_in (fun a b => getCardPower a - getCardPower b) validPlays Hne)
    as Hfallback.
  destruct (truthy (isPicker p) || isPartnerOf p s).
  - destruct (first (sortBy _ (filter isTrump validPlays))) as [strong |] eqn:Hstrong.
    + destruct (getCardPower strong >? 25).
      * exists strong. split; [reflexivity |].
        apply first_Some_in, sortBy_In, filter_In in Hstrong. tauto.
      * destruct (JS.len (filter _ validPlays) >? 0) eqn:Ha; [now apply Hpos |].
        destruct (JS.len (filter _ validPlays) >? 0) eqn:Ht in |- *; [now apply Hpos |].
        exact Hfallback.
    + destruct (JS.len (filter _ validPlays) >? 0) eqn:Ha; [now apply Hpos |].
      destruct (JS.len (filter _ validPlays) >? 0) eqn:Ht in |- *; [now apply Hpos |].
      exact Hfallback.
  - unfold plainOf.
    destruct (JS.len (filter _ validPlays) =? 1) eqn:Hc; [now apply Hone |].
    destruct (JS.len (filter _ validPlays) =? 1) eqn:Hs in |- *; [now apply Hone |].
    destruct (JS.len (filter _ validPlays) =? 1) eqn:Hh in |- *; [now apply Hone |].
    destruct (JS.len (sortBy _ _) >? 0) eqn:Hlow; [| exact Hfallback].
    destruct (first_sortBy_in (fun a b => getCardPower a - getCardPower b)
                (filter (fun card => negb (isTrump card) && (value card =? 0)) validPlays))
      as (c & Hc' & Hin).
    { intros E. rewrite E in Hlow. cbn in Hlow. discriminate. }
    exists c. split; [exact Hc' | now apply filter_In in Hin].
Qed.

Lemma isPlayerOnSameTeam_seated (q p : Player) (s : GameState) :
  exists b, isPlayerOnSameTeam (Some q) p s = Some b.
Proof.
  unfold isPlayerOnSameTeam. destruct (findPicker (players s)); cbn [bindT]; eauto.
Qed.

Lemma chooseFollowCard_in (p : Player) (validPlays : list Card) (s : GameState)
    (lead : Card) (rest : list Card) :
  validPlays <> [] ->
  (length (lead :: rest) <= length (players s))%nat ->
  exists c, chooseFollowCard p validPlays s lead rest = Some (Some c) /\ In c validPlays.
Proof.
  intros Hne Hlen. unfold chooseFollowCard.
  pose proof (highestLoop_range (leadSuit s) rest 1 lead 0 ltac:(lia)) as Hr.
  destruct (highestLoop (leadSuit s) rest 1 lead 0) as [highest hi]. cbn [snd] in Hr.
  destruct (at_in_range (players s) hi) as [q ->].
  { unfold JS.len in *. cbn [length] in Hlen. lia. }
  destruct (isPlayerOnSameTeam_seated q p s) as [winning ->]. cbn [bindT].
  pose proof (first_sortBy_in (fun a b => value a - value b) validPlays Hne)
    as (low & Hlow & Hlowin).
  destruct winning; [exists low; now rewrite Hlow |].
  destruct (_ && existsb _ validPlays) eqn:Htry; [| exists low; now rewrite Hlow].
  apply andb_true_iff in Htry as [_ Hcan].
  apply existsb_exists in Hcan as (w & Hw & Hbeats).
  destruct (first_sortBy_in (fun a b => getCardPower a - getCardPower b)
              (filter (fun card => overtakes (leadSuit s) card highest) validPlays))
    as (c & Hc & Hin).
  { intros E. assert (Hwin : In w (filter (fun card => overtakes (leadSuit s) card highest)
                                     validPlays)) by (apply filter_In; auto).
    rewrite E in Hwin. destruct Hwin. }
  exists c. rewrite Hc. split; [reflexivity | now apply filter_In in Hin].
Qed.

Lemma chooseCardToPlay_in (p : Player) (s : GameState) :
  cards p <> [] ->
  (length (currentTrick s) <= length (players s))%nat ->
  exists c, chooseCardToPlay p s = Some (Some c) /\ In c (validPlaysOf p s).
Proof.
  intros Hhand Hlen.
  assert (Hne : validPlaysOf p s <> []).
  { destruct (playable_card_exists p (currentTrick s) (leadSuit s) Hhand) as (c & Hin & Hv).
    intros E. assert (H : In c (validPlaysOf p s)) by (apply filter_In; auto).
    rewrite E in H. destruct H. }
  unfold chooseCardToPlay. fold (validPlaysOf p s).
  destruct (JS.len (validPlaysOf p s) =? 1).
  - destruct (first_in _ Hne) as (c & -> & Hin). eauto.
  - destruct (currentTrick s) as [| lead rest] eqn:Etrick.
    + destruct (chooseLeadCard_in p _ s Hne) as (c & -> & Hin). eauto.
    + now apply chooseFollowCard_in.
Qed.

(** X16: a computer player who holds a card, at a trick that is not longer
    than the table, gets a card from [chooseCardToPlay] (it neither throws nor
    answers [undefined]); the card is one of the hand and [isValidPlay]
    accepts it. *)
Theorem chooseCardToPlay_valid (p : Player) (s : GameState) :
  cards p <> [] ->
  (length (currentTrick s) <= length (players s))%nat ->
  exists c,
    chooseCardToPlay p s = Some (Some c)
    /\ In c (cards p)
    /\ isValidPlay c p (currentTrick s) (leadSuit s) = true.
Proof.
  intros Hhand Hlen.
  destruct (chooseCardToPlay_in p s Hhand Hlen) as (c & Hc & Hin).
  exists c. split; [exact Hc |]. now apply filter_In in Hin.
Qed.

Lemma chooseCardToPlay_valid_witness :
  exists c,
    chooseCardToPlay (actor led3) led3 = Some (Some c)
    /\ In c (cards (actor led3))
    /\ isValidPlay c (actor led3) (currentTrick led3) (leadSuit led3) = true.
Proof.
  apply (chooseCardToPlay_valid (actor led3) led3); [vm_compute; discriminate |].
  vm_compute. lia.
Defined.



Lemma len_one {A : Type} (xs : list A) : (JS.len xs =? 1) = true -> exists x, xs = [x].
Proof.
  intros H. apply Z.eqb_eq in H. unfold JS.len in H.
  destruct xs as [| x [| y xs]]; cbn [length] in H; try lia.
  now exists x.
Qed.

Lemma follow_card_choice (p : Player) (s : GameState) (c highest : Card) (position : Z) :
  highestOf s = Some (highest, position) ->
  chooseCardToPlay p s = Some (Some c) ->
  In c (validPlaysOf p s)
  /\ if triesToWin p s
     then overtakes (leadSuit s) c highest = true
          /\ forall y, In y (validPlaysOf p s) ->
               overtakes (leadSuit s) y highest = true ->
               getCardPower c <= getCardPower y
     else forall y, In y (validPlaysOf p s) -> value c <= value y.
Proof.
  intros Hhigh. unfold triesToWin, teamHolds, canOvertake. rewrite Hhigh.
  unfold chooseCardToPlay. fold (validPlaysOf p s).
  destruct (JS.len (validPlaysOf p s) =? 1) eqn:Hone.
  - destruct (len_one _ Hone) as [x ->]. cbn [first hd_error]. intros [= ->].
    split; [now left |].
    destruct (isPlayerOnSameTeam _ p s) as [[|] |];
      try (intros y [<- | []]; lia).
    destruct (_ && _) eqn:Htry; [| intros y [<- | []]; lia].
    apply andb_true_iff in Htry as [_ Hcan]. cbn [existsb] in Hcan.
    rewrite orb_false_r in Hcan.
    split; [exact Hcan | intros y [<- | []] _; lia].
  - unfold highestOf in Hhigh.
    destruct (currentTrick s) as [| lead rest] eqn:Etrick; [discriminate |].
    injection Hhigh as Hloop.
    unfold chooseFollowCard. rewrite Hloop.
    destruct (isPlayerOnSameTeam _ p s) as [[|] |]; cbn [bindT]; [| | discriminate].
    + intros [= H]. now apply first_sortBy_least in H.
    + unfold isPartnerOf, onPickerTeam.
      destruct (_ && _).
      * intros [= H]. apply first_sortBy_least in H as [Hin Hleast].
        apply filter_In in Hin as [Hin Hbeats].
        split; [exact Hin |]. split; [exact Hbeats |].
        intros y Hy Hyb. apply Hleast. apply filter_In. auto.
      * intros [= H]. now apply first_sortBy_least in H.
Qed.

(** X18: following to a trick, a computer player plays the weakest of its
    valid cards that overtake the card holding the trick when it goes for
    the trick, and one of its valid cards of least point value otherwise. *)
Theorem follow_card_spec (p : Player) (s : GameState) (c highest : Card) (position : Z) :
  highestOf s = Some (highest, position) ->
  chooseCardToPlay p s = Some (Some c) ->
  In c (validPlaysOf p s)
  /\ if triesToWin p s
     then overtakes (leadSuit s) c highest = true
          /\ forall y, In y (validPlaysOf p s) ->
               overtakes (leadSuit s) y highest = true ->
               getCardPower c <= getCardPower y
     else forall y, In y (validPlaysOf p s) -> value c <= value y.
Proof. exact (follow_card_choice p s c highest position). Qed.

Lemma follow_card_spec_witness :
  In (c_ CLUBS EIGHT) (validPlaysOf (actor led3) led3)
  /\ forall y, In y (validPlaysOf (actor led3) led3) -> value (c_ CLUBS EIGHT) <= value y.
Proof.
  apply (follow_card_spec (actor led3) led3 (c_ CLUBS EIGHT) (c_ CLUBS TEN) 0);
    reflexivity.
Defined.

Lemma sameTeam_onPickerTeam (q p picker : Player) (s : GameState) :
  findPicker (players s) = Some picker ->
  isPlayerOnSameTeam (Some q) p s
  = Some (Bool.eqb (onPickerTeam (players s) q) (onPickerTeam (players s) p)).
Proof.
  intros Hpicker. unfold isPlayerOnSameTeam, onPickerTeam, pickersPartner.
  rewrite Hpicker. cbn [bindT]. f_equal.
  destruct (truthy (isPicker q)), (idIs q (partner picker)),
    (truthy (isPicker p)), (idIs p (partner picker)); reflexivity.
Qed.

(** X19: [isPlayerOnSameTeam] splits the table as [calculateGameScore] does:
    with a picker at the table, two players are on the same team exactly
    when both or neither are on the picker's side, and asking about a seat
    that does not exist throws. Without a picker the answer is false for any
    two players, for a player and itself, and for a seat that does not
    exist. *)
Theorem isPlayerOnSameTeam_spec (q p : Player) (s : GameState) :
  (forall picker, findPicker (players s) = Some picker ->
     isPlayerOnSameTeam (Some q) p s
     = Some (Bool.eqb (onPickerTeam (players s) q) (onPickerTeam (players s) p))
     /\ isPlayerOnSameTeam None p s = None)
  /\ (findPicker (players s) = None ->
      isPlayerOnSameTeam (Some q) p s = Some false
      /\ isPlayerOnSameTeam (Some p) p s = Some false
      /\ isPlayerOnSameTeam None p s = Some false).
Proof.
  split.
  - intros picker Hpicker. split; [now apply (sameTeam_onPickerTeam q p picker) |].
    unfold isPlayerOnSameTeam. now rewrite Hpicker.
  - intros Hnone. unfold isPlayerOnSameTeam. now rewrite Hnone.
Qed.

(** After p1 picked, the defenders p0 and p2 are on one team and the picker
    p1 and p2 are not; right after the deal nobody has picked, and p0 and p2
    are on no common team, nor is p2 with itself. *)
Lemma isPlayerOnSameTeam_spec_witness :
  (isPlayerOnSameTeam (Some (seated picked3 0)) (seated picked3 2) picked3 = Some true
   /\ isPlayerOnSameTeam (Some (seated picked3 1)) (seated picked3 2) picked3
      = Some false
   /\ isPlayerOnSameTeam None (seated picked3 2) picked3 = None)
  /\ (isPlayerOnSameTeam (Some (seated dealt3 0)) (seated dealt3 2) dealt3 = Some false
      /\ isPlayerOnSameTeam (Some (seated dealt3 2)) (seated dealt3 2) dealt3
         = Some false
      /\ isPlayerOnSameTeam None (seated dealt3 2) dealt3 = Some false).
Proof.
  destruct (isPlayerOnSameTeam_spec (seated picked3 0) (seated picked3 2) picked3)
    as [Hdefenders _].
  destruct (isPlayerOnSameTeam_spec (seated picked3 1) (seated picked3 2) picked3)
    as [Hpicker _].
  destruct (isPlayerOnSameTeam_spec (seated dealt3 0) (seated dealt3 2) dealt3)
    as [_ Hnobody].
  destruct (Hdefenders (pickerOf picked3) eq_refl) as [H1 H3].
  destruct (Hpicker (pickerOf picked3) eq_refl) as [H2 _].
  split; [split; [exact H1 | split; [exact H2 | exact H3]] |].
  exact (Hnobody eq_refl).
Defined.

(** X20: a defender who follows to a trick of one card, at a table whose
    first seat is held by a defender, never goes for the trick, whoever led
    the card: the card is credited to the first seat, and the defender plays
    one of its valid cards of least point value. *)
Theorem defender_ducks_when_first_seat_defends (p q0 picker : Player) (s : GameState)
    (lead c : Card) :
  currentTrick s = [lead] ->
  JS.at_ (players s) 0 = Some q0 ->
  findPicker (players s) = Some picker ->
  onPickerTeam (players s) q0 = false ->
  onPickerTeam (players s) p = false ->
  chooseCardToPlay p s = Some (Some c) ->
  teamHolds p s = Some true
  /\ In c (validPlaysOf p s)
  /\ forall y, In y (validPlaysOf p s) -> value c <= value y.
Proof.
  intros Htrick Hq0 Hpicker Hq0side Hpside Hc.
  assert (Hhigh : highestOf s = Some (lead, 0)).
  { unfold highestOf. now rewrite Htrick. }
  assert (Hteam : teamHolds p s = Some true).
  { unfold teamHolds. rewrite Hhigh, Hq0.
    rewrite (sameTeam_onPickerTeam q0 p picker s Hpicker).
    now rewrite Hq0side, Hpside. }
  split; [exact Hteam |].
  pose proof (follow_card_choice p s c lead 0 Hhigh Hc) as [Hin Hleast].
  unfold triesToWin in Hleast. rewrite Hteam in Hleast.
  split; assumption.
Qed.

(** In the sample game the picker p1 led the ten of clubs; p2, a defender
    holding the ace of clubs, credits the ten to the defender p0 on the first
    seat and plays the eight. *)
Lemma defender_ducks_when_first_seat_defends_witness :
  teamHolds (actor led3) led3 = Some true
  /\ In (c_ CLUBS EIGHT) (validPlaysOf (actor led3) led3)
  /\ forall y, In y (validPlaysOf (actor led3) led3) -> value (c_ CLUBS EIGHT) <= value y.
Proof.
  apply (defender_ducks_when_first_seat_defends (actor led3)
           (seated led3 0) (pickerOf led3) led3 (c_ CLUBS TEN) (c_ CLUBS EIGHT));
    reflexivity.
Defined.

Lemma overtakes_beats (l : option Suit) (card h : Card) :
  (l = None -> isTrump h = true) ->
  overtakes l card h = beats (match l with Some l => l | None => CLUBS end) card h.
Proof.
  unfold overtakes, beats, suitIs. destruct l as [l |].
  - intros _.
    destruct (isTrump card), (isTrump h), (Suit_eqb (suit card) l),
      (getCardPower card >? getCardPower h); reflexivity.
  - intros Hh. rewrite (Hh eq_refl).
    destruct (isTrump card), (getCardPower card >? getCardPower h); reflexivity.
Qed.

Lemma highestLoop_winnerLoop (l : option Suit) (rest : list Card) (i : Z) (h : Card)
    (hi : Z) :
  (l = None -> isTrump h = true) ->
  highestLoop l rest i h hi
  = winnerLoop (match l with Some l => l | None => CLUBS end) rest i h hi.
Proof.
  revert i h hi. induction rest as [| card rest IH]; intros i h hi Hh; cbn; [reflexivity |].
  rewrite <- (overtakes_beats l card h Hh).
  destruct (overtakes l card h) eqn:Hov; [| now apply IH].
  apply IH. intros ->. unfold overtakes, suitIs in Hov.
  destruct (isTrump card); [reflexivity |]. cbn in Hov.
  now rewrite andb_false_r in Hov.
Qed.

(** X21: in a game started once from the initial state, whatever each
    dispatch reads from its surroundings, the card a computer player takes
    for the highest of the trick is the winning card of the
    rules (the strongest trump or, without trump, the strongest card of the
    suit led), at the position [determineTrickWinner] would find it. *)
Theorem ai_sees_the_winning_card (env : Env) (newPlayers : list PlayerInit)
    (steps : list (Env * ActionType)) (s : GameState) (highest : Card) (position : Z) :
  keepGame steps = true ->
  dispatchAll initialState ((env, START_GAME newPlayers) :: steps) = Some s ->
  highestOf s = Some (highest, position) ->
  position = winningIndexOf (currentTrick s) (judgedSuit s)
  /\ nth_error (currentTrick s) (Z.to_nat position) = Some highest
  /\ winningCardOf (currentTrick s) (judgedSuit s) highest.
Proof.
  intros Hk Hrun.
  pose proof (first_game_exact env newPlayers steps s Hk Hrun) as Hexact.
  unfold leadSuitExact in Hexact. unfold highestOf, judgedSuit.
  destruct (currentTrick s) as [| lead rest]; [discriminate |].
  cbn [leadSuitOf] in Hexact.
  assert (Hlead : leadSuit s = None -> isTrump lead = true).
  { rewrite Hexact. now destruct (isTrump lead). }
  rewrite (highestLoop_winnerLoop (leadSuit s) rest 1 lead 0 Hlead).
  set (l := match leadSuit s with Some l => l | None => CLUBS end).
  assert (Hplain : isTrump lead = false -> suit lead = l).
  { unfold l. rewrite Hexact. now intros ->. }
  assert (H0 : bestSoFar l [lead] lead).
  { split; [now left |]. split.
    - intros c [<- | []] Hc. split; [exact Hc | lia].
    - intros Hp. split; [now apply Hplain |].
      intros c [<- | []] _. lia. }
  pose proof (winnerLoop_invariant l rest [lead] lead 0 H0 eq_refl ltac:(cbn; lia))
    as (Hbest & Hnth & _).
  cbn [app] in Hbest, Hnth. change (JS.len [lead]) with 1 in Hbest, Hnth.
  unfold winningIndexOf.
  destruct (winnerLoop l rest 1 lead 0) as [w wi]. cbn [fst snd] in *.
  intros [= <- <-].
  split; [reflexivity |]. split; [exact Hnth |].
  destruct Hbest as (Hin & Htrump & Hp).
  split; [exact Hin |]. split; [exact Htrump |].
  intros Hnone. apply Hp.
  destruct (isTrump w) eqn:E; [| reflexivity].
  now rewrite (Hnone w Hin) in E.
Qed.

(** Over the ace of spades led, [chooseFollowCard] and the loop of
    [determineTrickWinner] both settle on the queen of spades at position 1;
    so they do over the queen of hearts led, where the lead suit is unset
    for the one and clubs for the other. *)
Lemma ai_sees_the_winning_card_witness :
  (1 = winningIndexOf (currentTrick spadeTrick) (judgedSuit spadeTrick)
   /\ nth_error (currentTrick spadeTrick) (Z.to_nat 1) = Some (c_ SPADES QUEEN)
   /\ winningCardOf (currentTrick spadeTrick) (judgedSuit spadeTrick) (c_ SPADES QUEEN))
  /\ (1 = winningIndexOf (currentTrick trumpTrick) (judgedSuit trumpTrick)
      /\ nth_error (currentTrick trumpTrick) (Z.to_nat 1) = Some (c_ SPADES QUEEN)
      /\ winningCardOf (currentTrick trumpTrick) (judgedSuit trumpTrick)
           (c_ SPADES QUEEN)).
Proof.
  split.
  - apply (ai_sees_the_winning_card (envAt 0) three spadeSteps spadeTrick);
      reflexivity.
  - apply (ai_sees_the_winning_card (envAt 0) three trumpSteps trumpTrick);
      reflexivity.
Defined.

Lemma Suit_eqb_true (a b : Suit) : Suit_eqb a b = true <-> a = b.
Proof. destruct a, b; cbn; split; congruence. Qed.

Lemma insertBy_ext {A : Type} (f g : A -> A -> Z) (x : A) (xs : list A) :
  (forall a b, f a b = g a b) -> insertBy f x xs = insertBy g x xs.
Proof.
  intros E. induction xs as [| y ys IH]; cbn; [reflexivity |].
  now rewrite E, IH.
Qed.

Lemma sortBy_ext {A : Type} (f g : A -> A -> Z) (xs : list A) :
  (forall a b, f a b = g a b) -> sortBy f xs = sortBy g xs.
Proof.
  intros E. induction xs as [| x xs IH]; cbn; [reflexivity |].
  now rewrite IH, (insertBy_ext f g x _ E).
Qed.

(** The first element of an array sorted by descending key has the greatest
    key. *)
Lemma first_sortBy_greatest {A : Type} (key : A -> Z) (xs : list A) (c : A) :
  first (sortBy (fun a b => key b - key a) xs) = Some c ->
  In c xs /\ forall y, In y xs -> key y <= key c.
Proof.
  rewrite (sortBy_ext _ (fun a b => (fun x => - key x) a - (fun x => - key x) b))
    by (intros; lia).
  intros H. apply first_sortBy_least in H as [Hin Hleast].
  split; [exact Hin |]. intros y Hy. specialize (Hleast y Hy). cbn beta in Hleast. lia.
Qed.

Lemma filter_all {A : Type} (f : A -> bool) (xs : list A) :
  (forall x, f x = true) -> filter f xs = xs.
Proof.
  intros H. induction xs as [| x xs IH]; cbn; [reflexivity |]. now rewrite H, IH.
Qed.

Lemma validPlays_leading (p : Player) (s : GameState) :
  currentTrick s = [] -> validPlaysOf p s = cards p.
Proof. intros E. unfold validPlaysOf. rewrite E. now apply filter_all. Qed.

Lemma plainOf_In (l : Suit) (hand : list Card) (c : Card) :
  In c (plainOf l hand) <-> In c hand /\ isTrump c = false /\ suit c = l.
Proof.
  unfold plainOf. rewrite filter_In, andb_true_iff, negb_true_iff, Suit_eqb_true.
  tauto.
Qed.

Lemma plain_singleton_led (l : Suit) (hand : list Card) (c : Card) :
  (JS.len (plainOf l hand) =? 1) = true ->
  first (plainOf l hand) = Some c ->
  In c hand /\ isTrump c = false /\ plainCount (suit c) hand = 1%nat.
Proof.
  intros Hone Hc. pose proof (first_Some_in _ _ Hc) as Hin.
  apply plainOf_In in Hin as (Hin & Hplain & <-).
  split; [exact Hin |]. split; [exact Hplain |].
  unfold plainCount. apply Z.eqb_eq in Hone. unfold JS.len in Hone. lia.
Qed.

(** X22: leading a trick, a computer player on the picker's side that holds
    a trump stronger than the jack of hearts leads the strongest of its
    trumps; a defender that holds a single plain card of clubs, spades or
    hearts leads a plain card that is the only one of its suit in the hand. *)
Theorem lead_card_spec (p : Player) (s : GameState) (c : Card) :
  currentTrick s = [] ->
  chooseCardToPlay p s = Some (Some c) ->
  In c (cards p)
  /\ (onPickerTeam (players s) p = true ->
      (exists t, In t (cards p) /\ isTrump t = true /\ 25 < getCardPower t) ->
      isTrump c = true
      /\ forall t, In t (cards p) -> isTrump t = true -> getCardPower t <= getCardPower c)
  /\ (onPickerTeam (players s) p = false ->
      0 < singletons (cards p) ->
      isTrump c = false /\ plainCount (suit c) (cards p) = 1%nat).
Proof.
  intros Htrick. unfold chooseCardToPlay. fold (validPlaysOf p s).
  rewrite (validPlays_leading p s Htrick), Htrick.
  set (hand := cards p).
  assert (Hsingle : 0 < singletons hand ->
            (JS.len (plainOf CLUBS hand) =? 1) = true
            \/ (JS.len (plainOf SPADES hand) =? 1) = true
            \/ (JS.len (plainOf HEARTS hand) =? 1) = true).
  { unfold singletons, plainCount, JS.len. cbn [filter].
    destruct (Nat.eqb_spec (length (plainOf CLUBS hand)) 1) as [-> |]; [now left |].
    destruct (Nat.eqb_spec (length (plainOf SPADES hand)) 1) as [-> |];
      [right; now left |].
    destruct (Nat.eqb_spec (length (plainOf HEARTS hand)) 1) as [-> |];
      [right; now right |].
    cbn. lia. }
  destruct (JS.len hand =? 1) eqn:Hone.
  - destruct (len_one _ Hone) as [x Ex]. rewrite Ex in *. cbn [first hd_error].
    intros [= ->]. split; [now left |]. split.
    + intros _ (t & [<- | []] & Ht & _). split; [exact Ht |].
      intros t' [<- | []] _. lia.
    + intros _ Hs. apply Hsingle in Hs.
      assert (Hany : forall l, (JS.len (plainOf l [c]) =? 1) = true ->
                isTrump c = false /\ plainCount (suit c) [c] = 1%nat).
      { intros l Hl. destruct (first_in (plainOf l [c])) as (y & Hy & _).
        - apply len_nonempty. lia.
        - destruct (plain_singleton_led l [c] y Hl Hy) as ([<- | []] & H1 & H2). auto. }
      destruct Hs as [Hs | [Hs | Hs]]; eapply Hany; eauto.
  - intros [= Hc]. revert Hc. unfold chooseLeadCard.
    change (truthy (isPicker p) || isPartnerOf p s) with (onPickerTeam (players s) p).
    destruct (onPickerTeam (players s) p).
    + intros Hc.
      assert (Hin : In c hand).
      { revert Hc.
        destruct (first (sortBy _ (filter isTrump hand))) as [strong |] eqn:Hstrong.
        - destruct (getCardPower strong >? 25).
          + intros [= <-]. apply first_sortBy_greatest in Hstrong as [H _].
            now apply filter_In in H.
          + destruct (_ >? 0); [intros H; apply first_Some_in, filter_In in H; tauto |].
            destruct (_ >? 0); [intros H; apply first_Some_in, filter_In in H; tauto |].
            intros H. now apply first_Some_in, sortBy_In in H.
        - destruct (_ >? 0); [intros H; apply first_Some_in, filter_In in H; tauto |].
          destruct (_ >? 0); [intros H; apply first_Some_in, filter_In in H; tauto |].
          intros H. now apply first_Some_in, sortBy_In in H. }
      split; [exact Hin |]. split; [| discriminate].
      intros _ (t & Ht & Htrump & Hpower).
      destruct (first_sortBy_in (fun a b => getCardPower b - getCardPower a)
                  (filter isTrump hand)) as (strong & Hstrong & _).
      { intros E. assert (H : In t (filter isTrump hand)) by (apply filter_In; auto).
        rewrite E in H. destruct H. }
      rewrite Hstrong in Hc.
      apply first_sortBy_greatest in Hstrong as [Hs Hmax].
      apply filter_In in Hs as [_ Hstrump].
      assert (Hge : getCardPower t <= getCardPower strong).
      { apply Hmax. apply filter_In. auto. }
      destruct (Z.gtb_spec (getCardPower strong) 25); [| lia].
      injection Hc as <-. split; [exact Hstrump |].
      intros t' Ht' Htr'. apply Hmax. apply filter_In. auto.
    + intros Hc.
      destruct (JS.len (plainOf CLUBS hand) =? 1) eqn:Hclubs.
      { destruct (plain_singleton_led _ _ _ Hclubs Hc) as (H1 & H2 & H3).
        split; [exact H1 |]. split; [discriminate | auto]. }
      destruct (JS.len (plainOf SPADES hand) =? 1) eqn:Hspades.
      { destruct (plain_singleton_led _ _ _ Hspades Hc) as (H1 & H2 & H3).
        split; [exact H1 |]. split; [discriminate | auto]. }
      destruct (JS.len (plainOf HEARTS hand) =? 1) eqn:Hhearts.
      { destruct (plain_singleton_led _ _ _ Hhearts Hc) as (H1 & H2 & H3).
        split; [exact H1 |]. split; [discriminate | auto]. }
      split.
      * revert Hc. destruct (_ >? 0).
        -- intros H. apply first_Some_in, sortBy_In, filter_In in H. tauto.
        -- intros H. now apply first_Some_in, sortBy_In in H.
      * split; [discriminate |].
        intros _ Hs. apply Hsingle in Hs. destruct Hs as [Hs | [Hs | Hs]]; discriminate.
Qed.

Lemma lead_card_spec_witness :
  (isTrump (c_ HEARTS QUEEN) = true
   /\ forall t, In t (cards (actor buried3)) -> isTrump t = true ->
        getCardPower t <= getCardPower (c_ HEARTS QUEEN))
  /\ (isTrump (c_ SPADES NINE) = false
      /\ plainCount (suit (c_ SPADES NINE)) (cards (seated buried3 2)) = 1%nat).
Proof.
  split.
  - destruct (lead_card_spec (actor buried3) buried3 (c_ HEARTS QUEEN) eq_refl eq_refl)
      as (_ & H & _).
    apply H; [reflexivity |].
    exists (c_ HEARTS QUEEN).
    split; [vm_compute; repeat (first [left; reflexivity | right]) |].
    split; reflexivity.
  - destruct (lead_card_spec (seated buried3 2) buried3 (c_ SPADES NINE) eq_refl eq_refl)
      as (_ & _ & H).
    apply H; reflexivity.
Defined.

(* ------------------------------------------------------------------------- *)
(** ** Burying *)

Lemma insertBy_plainFirst (x : Card) (xs : list Card) :
  plainFirst xs -> plainFirst (insertBy buryOrder x xs).
Proof.
  intros (plain & trumps & -> & Hplain & Htrumps).
  induction plain as [| y ys IH].
  - cbn [app]. destruct (isTrump x) eqn:Hx.
    + exists [], (insertBy buryOrder x trumps). split; [reflexivity |].
      split; [constructor |].
      apply Forall_forall. intros c Hc.
      apply (Permutation_in _ (insertBy_perm buryOrder x trumps)) in Hc.
      destruct Hc as [<- | Hc]; [exact Hx |].
      now apply (proj1 (Forall_forall _ _) Htrumps).
    + exists [x], trumps. split.
      * destruct trumps as [| t ts]; [reflexivity |].
        cbn [insertBy]. unfold buryOrder.
        rewrite Hx, (Forall_inv Htrumps). reflexivity.
      * split; [now repeat constructor | exact Htrumps].
  - cbn [app insertBy].
    pose proof (Forall_inv Hplain) as Hy. cbn beta in Hy.
    destruct (buryOrder x y <=? 0) eqn:Hcmp.
    + exists (x :: y :: ys), trumps. split; [reflexivity |].
      split; [| exact Htrumps].
      constructor; [| exact Hplain].
      destruct (isTrump x) eqn:Hx; [| reflexivity].
      unfold buryOrder in Hcmp. rewrite Hx, Hy in Hcmp. discriminate.
    + destruct (IH (Forall_inv_tail Hplain)) as (plain' & trumps' & E & Hp' & Ht').
      exists (y :: plain'), trumps'. split; [cbn [app]; now rewrite E |].
      split; [now constructor | exact Ht'].
Qed.

Lemma sortBy_plainFirst (xs : list Card) : plainFirst (sortBy buryOrder xs).
Proof.
  induction xs as [| x xs IH]; cbn [sortBy].
  - exists [], []. repeat split; constructor.
  - now apply insertBy_plainFirst.
Qed.

Lemma plainCards_plainFirst (plain trumps : list Card) :
  Forall (fun c => isTrump c = false) plain ->
  Forall (fun c => isTrump c = true) trumps ->
  plainCards (plain ++ trumps) = plain.
Proof.
  intros Hp Ht. unfold plainCards. rewrite filter_app.
  assert (E1 : filter (fun c => negb (isTrump c)) plain = plain).
  { clear Ht. induction Hp as [| c cs Hc _ IH]; cbn; [reflexivity |].
    now rewrite Hc, IH. }
  assert (E2 : filter (fun c => negb (isTrump c)) trumps = []).
  { clear Hp E1. induction Ht as [| c cs Hc _ IH]; cbn; [reflexivity |].
    now rewrite Hc, IH. }
  now rewrite E1, E2, app_nil_r.
Qed.

(** The four candidates are plain when the pile holds four plain cards. *)
Lemma candidates_plain (xs : list Card) (c : Card) :
  (4 <= length (plainCards xs))%nat ->
  In c (firstn 4 (sortBy buryOrder xs)) -> isTrump c = false.
Proof.
  intros Hfour Hc.
  assert (Hlen : length (plainCards (sortBy buryOrder xs)) = length (plainCards xs)).
  { apply filter_length_perm, sortBy_perm. }
  destruct (sortBy_plainFirst xs) as (plain & trumps & E & Hp & Ht).
  rewrite E in Hc, Hlen. rewrite (plainCards_plainFirst plain trumps Hp Ht) in Hlen.
  rewrite firstn_app in Hc.
  replace (4 - length plain)%nat with 0%nat in Hc by lia.
  cbn [firstn] in Hc. rewrite app_nil_r in Hc.
  apply (proj1 (Forall_forall _ _) Hp).
  rewrite <- (firstn_skipn 4 plain). apply in_or_app. now left.
Qed.

Lemma chooseBuryCards_two (p : Player) (blind : list Card) :
  (2 <= length (cards p ++ blind))%nat ->
  exists a b rest,
    chooseBuryCards p blind = [a; b]
    /\ Permutation (cards p ++ blind) (a :: b :: rest)
    /\ In a (firstn 4 (sortBy buryOrder (cards p ++ blind)))
    /\ In b (firstn 4 (sortBy buryOrder (cards p ++ blind))).
Proof.
  intros Htwo. unfold chooseBuryCards.
  set (pile := cards p ++ blind) in *.
  set (sorted := sortBy buryOrder pile).
  assert (Hperm : Permutation pile (firstn 4 sorted ++ skipn 4 sorted)).
  { rewrite firstn_skipn. apply Permutation_sym, sortBy_perm. }
  assert (Hcand : (2 <= length (firstn 4 sorted))%nat).
  { rewrite length_firstn. unfold sorted. rewrite length_sortBy. lia. }
  set (cand := firstn 4 sorted) in *.
  set (zero := filter (fun card => value card =? 0) cand).
  rewrite Z.geb_leb. destruct (Z.leb_spec 2 (JS.len zero)) as [Hz | Hz].
  - destruct zero as [| a [| b zs]] eqn:Ez; unfold JS.len in Hz; cbn [length] in Hz; try lia.
    exists a, b, (zs ++ filter (fun card => negb (value card =? 0)) cand ++ skipn 4 sorted).
    split; [reflexivity |].
    assert (Hin : forall c, In c zero -> In c cand).
    { intros c Hc. unfold zero in Hc. now apply filter_In in Hc. }
    split; [| split; apply Hin; rewrite Ez; cbn; auto].
    eapply Permutation_trans; [exact Hperm |].
    change (a :: b :: zs ++ filter (fun card => negb (value card =? 0)) cand
              ++ skipn 4 sorted)
      with ((a :: b :: zs) ++ filter (fun card => negb (value card =? 0)) cand
              ++ skipn 4 sorted).
    rewrite app_assoc. apply Permutation_app_tail.
    rewrite <- Ez. apply filter_split_perm.
  - destruct cand as [| a [| b cs]] eqn:Ec; cbn [length] in Hcand; try lia.
    exists a, b, (cs ++ skipn 4 sorted).
    split; [reflexivity |]. split; [exact Hperm |]. cbn; auto.
Qed.

(** X23: from a pile of two cards or more, [chooseBuryCards] returns two
    cards taken from the pile (the pile is these two and a rest); when the
    pile holds four plain cards or more, neither of the two is a trump. *)
Theorem chooseBuryCards_spec (p : Player) (blind : list Card) :
  (2 <= length (cards p ++ blind))%nat ->
  exists a b rest,
    chooseBuryCards p blind = [a; b]
    /\ Permutation (cards p ++ blind) (a :: b :: rest)
    /\ ((4 <= length (plainCards (cards p ++ blind)))%nat ->
        isTrump a = false /\ isTrump b = false).
Proof.
  intros Htwo.
  destruct (chooseBuryCards_two p blind Htwo) as (a & b & rest & E & Hperm & Ha & Hb).
  exists a, b, rest. split; [exact E |]. split; [exact Hperm |].
  intros Hfour. split; eapply candidates_plain; eauto.
Qed.

Lemma chooseBuryCards_spec_witness :
  exists a b rest,
    chooseBuryCards (actor picked3) [] = [a; b]
    /\ Permutation (cards (actor picked3) ++ []) (a :: b :: rest)
    /\ isTrump a = false /\ isTrump b = false.
Proof.
  destruct (chooseBuryCards_spec (actor picked3) []) as (a & b & rest & E & P & H).
  - vm_compute. lia.
  - exists a, b, rest. split; [exact E |]. split; [exact P |].
    apply H. vm_compute. lia.
Defined.

Lemma same_id_same_player (ps : list Player) (p q : Player) :
  NoDup (map id ps) -> In p ps -> In q ps -> id p = id q -> p = q.
Proof.
  intros Hnd Hp Hq E.
  apply In_nth_error in Hp as [j Hj]. apply In_nth_error in Hq as [k Hk].
  pose proof (distinct_ids ps j k p q Hnd Hj Hk E) as ->. congruence.
Qed.

(** X24: in the burying phase of a table in order, the two cards
    [chooseBuryCards] picks from the hand of the picker are accepted by
    BURY_CARDS: they become the buried pile, the phase moves on, and the
    table stays in order. *)
Theorem ai_bury_is_accepted (env : Env) (s : GameState) (p : Player) :
  tableOk s ->
  phase s = BURYING ->
  In p (players s) ->
  truthy (isPicker p) = true ->
  (2 <= length (cards p))%nat ->
  exists s',
    gameReducer env s (BURY_CARDS (id p) (chooseBuryCards p [])) = Some s'
    /\ buried s' = chooseBuryCards p []
    /\ length (buried s') = 2%nat
    /\ (phase s' = CALLING_PARTNER \/ phase s' = PLAYING)
    /\ tableOk s'.
Proof.
  intros Hok Hph Hin Hpicker Htwo.
  destruct (chooseBuryCards_two p []) as (a & b & rest & E & Hperm & _);
    [rewrite app_nil_r; exact Htwo |].
  rewrite app_nil_r in Hperm.
  assert (Hfrom : fromHand s (BURY_CARDS (id p) (chooseBuryCards p []))).
  { rewrite E. cbn [fromHand]. split.
    - pose proof (tableOk_hand s p Hok Hin) as Hnd.
      apply (Permutation_NoDup (Permutation_map cardKey Hperm)) in Hnd.
      change (map cardKey (a :: b :: rest))
        with (map cardKey [a; b] ++ map cardKey rest) in Hnd.
      eapply NoDup_app_remove_r; eauto.
    - intros q Hq Hid _ c Hc.
      destruct Hok as (Hids & _).
      rewrite (same_id_same_player (players s) q p Hids Hq Hin Hid).
      apply holds_key, in_map.
      apply (Permutation_in _ (Permutation_sym Hperm)).
      destruct Hc as [<- | [<- | []]]; cbn; auto. }
  assert (Hsome : exists s', buryCards env s (id p) (chooseBuryCards p []) = Some s'
                             /\ buried s' = chooseBuryCards p []
                             /\ (phase s' = CALLING_PARTNER \/ phase s' = PLAYING)).
  { unfold buryCards. rewrite Hph, E. cbn [GamePhase_eqb negb orb JS.len length].
    change (Z.of_nat 2 =? 2) with true. cbn [negb].
    set (f := fun q => String.eqb (id q) (id p) && truthy (isPicker q)).
    assert (Hfound : JS.findIndex f (players s) <> -1).
    { rewrite findIndex_none, find_none_forall. intros H.
      specialize (H p Hin). unfold f in H.
      now rewrite String.eqb_refl, Hpicker in H. }
    destruct (Z.eqb_spec (JS.findIndex f (players s)) (-1)) as [| _]; [contradiction |].
    destruct (found_in_range f (players s) Hfound) as (q & _ & -> & _).
    cbn [bindT]. eexists. split; [reflexivity |]. cbn [buried phase].
    split; [reflexivity |]. destruct (_ =? 5); auto. }
  destruct Hsome as (s' & Hs' & Hburied & Hphase).
  exists s'. cbn [gameReducer].
  split; [exact Hs' |]. split; [exact Hburied |].
  split; [now rewrite Hburied, E |]. split; [exact Hphase |].
  exact (buryCards_tableOk env s s' (id p) _ Hok Hfrom Hs').
Qed.

Lemma ai_bury_is_accepted_witness :
  exists s',
    gameReducer env0 picked3
      (BURY_CARDS (id (actor picked3)) (chooseBuryCards (actor picked3) [])) = Some s'
    /\ buried s' = chooseBuryCards (actor picked3) []
    /\ length (buried s') = 2%nat
    /\ (phase s' = CALLING_PARTNER \/ phase s' = PLAYING)
    /\ tableOk s'.
Proof.
  apply (ai_bury_is_accepted env0 picked3 (actor picked3)).
  - apply inRound_tableOk.
    apply inRound_step with (env := env0) (s := dealt3) (a := PICK_BLIND "p1").
    + apply inRound_dealt with (env := env0) (s := initialState) (newPlayers := three).
      * repeat constructor; cbn; intuition discriminate.
      * reflexivity.
    + reflexivity.
    + exact I.
    + reflexivity.
    + discriminate.
  - reflexivity.
  - vm_compute. right. left. reflexivity.
  - reflexivity.
  - vm_compute. lia.
Defined.

(* ------------------------------------------------------------------------- *)
(** ** Picking *)

Lemma fold_left_step_ext {A : Type} (f g : Z -> A -> Z) (xs : list A) (a : Z) :
  (forall acc x, f acc x = g acc x) -> fold_left f xs a = fold_left g xs a.
Proof.
  intros E. revert a. induction xs as [| x xs IH]; intros a; cbn; [reflexivity |].
  now rewrite E, IH.
Qed.

Lemma countPlain_counts (hand : list Card) (a b c : Z) :
  fold_left countPlain hand (a, b, c)
  = (a + JS.len (plainOf CLUBS hand), b + JS.len (plainOf SPADES hand),
     c + JS.len (plainOf HEARTS hand)).
Proof.
  revert a b c. unfold JS.len, plainOf.
  induction hand as [| card hand IH]; intros a b c; cbn [fold_left filter length].
  - apply pair_equal_spec; split; [apply pair_equal_spec; split |]; cbn; lia.
  - unfold countPlain at 2.
    destruct (isTrump card); cbn [negb andb]; [apply IH |].
    destruct (suit card); cbn [Suit_eqb]; rewrite IH; cbn [length];
      (apply pair_equal_spec; split; [apply pair_equal_spec; split |]); lia.
Qed.

Lemma strength_per_card (hand : list Card) :
  JS.len (filter isTrump hand) * 3
  + sumZ (map trumpBonus (filter isTrump hand))
  + sumZ (map (fun card =>
                 if Rank_eqb (rank card) ACE && negb (isTrump card) then 2
                 else if Rank_eqb (rank card) TEN && negb (isTrump card) then 1
                 else 0) hand)
  = sumZ (map cardStrength hand).
Proof.
  unfold JS.len.
  induction hand as [| card hand IH]; [reflexivity |].
  cbn [filter map sumZ]. unfold cardStrength at 1.
  destruct (isTrump card); cbn [map sumZ length negb].
  - rewrite !andb_false_r. lia.
  - rewrite !andb_true_r. destruct (Rank_eqb (rank card) ACE); [lia |].
    destruct (Rank_eqb (rank card) TEN); lia.
Qed.

Lemma evaluateHandStrength_closed (hand : list Card) :
  evaluateHandStrength hand = sumZ (map cardStrength hand) - 2 * singletons hand.
Proof.
  unfold evaluateHandStrength.
  rewrite countPlain_counts.
  rewrite fold_left_add_sumZ.
  rewrite (fold_left_step_ext _
             (fun score card =>
                score + (if Rank_eqb (rank card) ACE && negb (isTrump card) then 2
                         else if Rank_eqb (rank card) TEN && negb (isTrump card) then 1
                         else 0)))
    by (intros acc x; destruct (_ && _); [reflexivity |]; destruct (_ && _); lia).
  rewrite fold_left_add_sumZ.
  rewrite <- strength_per_card.
  unfold singletons, plainCount, JS.len. cbn [fold_left filter].
  destruct (Nat.eqb_spec (length (plainOf CLUBS hand)) 1) as [Ec | Ec];
    destruct (Nat.eqb_spec (length (plainOf SPADES hand)) 1) as [Es | Es];
    destruct (Nat.eqb_spec (length (plainOf HEARTS hand)) 1) as [Eh | Eh];
    repeat match goal with
           | |- context [?a =? 1] =>
               destruct (Z.eqb_spec a 1); try lia
           end;
    cbn [length]; lia.
Qed.

Lemma singletons_perm (hand hand' : list Card) :
  Permutation hand hand' -> singletons hand' = singletons hand.
Proof.
  intros H. unfold singletons. cbn [filter]. unfold plainCount, plainOf.
  now rewrite !(filter_length_perm _ _ _ H).
Qed.

Lemma evaluateHandStrength_perm (hand hand' : list Card) :
  Permutation hand hand' -> evaluateHandStrength hand' = evaluateHandStrength hand.
Proof.
  intros H. rewrite !evaluateHandStrength_closed, (singletons_perm _ _ H).
  now rewrite (sumZ_Permutation _ _ (Permutation_map cardStrength H)).
Qed.



(** X26: a smaller table picks more readily: a hand picks at a table of
    three whenever it picks at any other table, and picks at any table
    whenever it picks at a table of five; the decision does not depend on the
    order of the cards in the hand. *)
Theorem shouldPickBlind_thresholds (p p' : Player) (s3 s s5 : GameState) :
  length (players s3) = 3%nat ->
  length (players s5) = 5%nat ->
  (shouldPickBlind p s5 = true -> shouldPickBlind p s = true)
  /\ (shouldPickBlind p s = true -> shouldPickBlind p s3 = true)
  /\ (Permutation (cards p) (cards p') -> shouldPickBlind p' s = shouldPickBlind p s).
Proof.
  intros H3 H5. unfold shouldPickBlind, JS.len. rewrite H3, H5.
  change (Z.of_nat 3 =? 3) with true. change (Z.of_nat 5 =? 3) with false.
  change (Z.of_nat 5 =? 5) with true. cbv iota.
  rewrite !Z.geb_leb.
  split; [| split].
  - intros H. apply Z.leb_le in H.
    destruct (_ =? 3); [| destruct (_ =? 5)]; apply Z.leb_le; lia.
  - intros H. apply Z.leb_le.
    destruct (_ =? 3); [| destruct (_ =? 5)]; apply Z.leb_le in H; lia.
  - intros H. now rewrite (evaluateHandStrength_perm _ _ H).
Qed.

Lemma shouldPickBlind_thresholds_witness :
  (shouldPickBlind (actor dealt3) sweptRound = true ->
   shouldPickBlind (actor dealt3) initialState = true)
  /\ (shouldPickBlind (actor dealt3) initialState = true ->
      shouldPickBlind (actor dealt3) dealt3 = true)
  /\ (Permutation (cards (actor dealt3)) (cards (actor dealt3)) ->
      shouldPickBlind (actor dealt3) initialState
      = shouldPickBlind (actor dealt3) initialState).
Proof.
  apply (shouldPickBlind_thresholds (actor dealt3) (actor dealt3) dealt3 initialState
           sweptRound); reflexivity.
Defined.

(* ------------------------------------------------------------------------- *)
(** ** The validity test of the context *)

Lemma log_grew_state_changed (s s' : GameState) (evs : list GameEvent) :
  evs <> [] -> log s' = log s ++ evs -> s' <> s.
Proof.
  intros Hne Hlog ->. apply (f_equal (@length _)) in Hlog.
  rewrite length_app in Hlog. destruct evs; [congruence | cbn in Hlog; lia].
Qed.

(** X27: while playing, [isValidCardPlay] tells for the player in turn
    exactly whether PLAY_CARD will be taken: the dispatch changes the state
    when the test answers true and leaves it as it is when it answers
    false. *)
Theorem isValidCardPlay_decides (env : Env) (s s' : GameState) (pid : string)
    (card : Card) :
  phase s = PLAYING ->
  currentTurn s = pid ->
  gameReducer env s (PLAY_CARD pid card) = Some s' ->
  (isValidCardPlay s pid card = true -> s' <> s)
  /\ (isValidCardPlay s pid card = false -> s' = s).
Proof.
  intros Hph Hturn. cbn [gameReducer]. unfold playCard, isValidCardPlay.
  rewrite Hph, Hturn, String.eqb_refl. cbn [GamePhase_eqb negb orb].
  set (f := fun p => String.eqb (id p) pid).
  destruct (Z.eqb_spec (JS.findIndex f (players s)) (-1)) as [Hnone | Hfound].
  - apply findIndex_none in Hnone. rewrite Hnone. intros [= <-].
    split; [discriminate | reflexivity].
  - rewrite (at_findIndex f (players s) Hfound).
    destruct (find f (players s)) as [p |]; cbn [bindT]; [| discriminate].
    destruct (isValidPlay card p (currentTrick s) (leadSuit s)); cbn [negb];
      [| intros [= <-]; split; [discriminate | reflexivity]].
    destruct (JS.atIdx _ _) as [next |]; cbn [bindT]; [| discriminate].
    intros H. split; [intros _ | discriminate].
    set (played := cardPlayed env s (JS.findIndex f (players s)) pid card next) in *.
    assert (Hplayed : log played = log s ++ [event "PLAYED_CARD" pid env (Some (DataCard card))])
      by reflexivity.
    destruct (_ =? _).
    + apply endTrick_log in H as [-> | (evs & _ & _ & Hlog)].
      * eapply log_grew_state_changed; [| exact Hplayed]. discriminate.
      * rewrite Hplayed, <- app_assoc in Hlog.
        eapply log_grew_state_changed; [| exact Hlog]. discriminate.
    + injection H as <-.
      eapply log_grew_state_changed; [| exact Hplayed]. discriminate.
Qed.

Lemma isValidCardPlay_decides_witness :
  (isValidCardPlay buried3 "p1" (c_ CLUBS TEN) = true -> led3 <> buried3)
  /\ (isValidCardPlay buried3 "p1" (c_ CLUBS TEN) = false -> led3 = buried3).
Proof.
  apply (isValidCardPlay_decides env0 buried3 led3 "p1" (c_ CLUBS TEN)); reflexivity.
Defined.

(* ------------------------------------------------------------------------- *)
(** ** Player statistics *)

Lemma count_balanced (r : Stats.GameResult) (pid : string) (st : Stats.PlayerStats) :
  balanced st -> balanced (Stats.count r pid st).
Proof.
  unfold balanced, Stats.count.
  cbn [Stats.wins Stats.losses Stats.gamesPlayed Stats.pickerWins Stats.pickerLosses
       Stats.defenderWins Stats.defenderLosses Stats.partnerWins Stats.soloWins
       Stats.soloLosses Stats.leasterWins].
  intros (H1 & H2 & H3 & H4 & H5).
  destruct (existsb (String.eqb pid) (Stats.pickerTeam r)), (Stats.pickerTeamWon r),
    (String.eqb pid (Stats.picker r)), (Stats.isPartner r pid), (Stats.isSolo r),
    (Stats.isLeaster r);
    cbn [negb andb orb Stats.inc]; repeat split; lia.
Qed.

Lemma newStats_balanced (pid : string) : balanced (Stats.newStats pid).
Proof. unfold balanced. cbn. lia. Qed.

Lemma touch_balanced (r : Stats.GameResult) (allStats : list Stats.PlayerStats)
    (pid : string) :
  Forall balanced allStats -> Forall balanced (Stats.touch r allStats pid).
Proof.
  intros H. unfold Stats.touch.
  destruct (_ =? -1).
  - apply Forall_app. split; [exact H |].
    constructor; [| constructor]. apply count_balanced, newStats_balanced.
  - apply Forall_forall. intros st Hst.
    apply In_mapiFrom in Hst as (x & k & Hx & ->).
    pose proof (proj1 (Forall_forall _ _) H x Hx) as Hb.
    destruct (_ =? _); [now apply count_balanced | exact Hb].
Qed.

(** X28: [updatePlayerStats] keeps the stats balanced: if in every entry
    that was loaded wins and losses add up to the games played, the wins and
    losses by role do not exceed the games played, and the solo and leaster
    counters stay within the picker's and the overall ones, then the same
    holds of every entry that is saved. *)
Theorem stats_stay_balanced (allStats : list Stats.PlayerStats) (r : Stats.GameResult) :
  Forall balanced allStats -> Forall balanced (Stats.updatePlayerStats allStats r).
Proof.
  unfold Stats.updatePlayerStats. revert allStats.
  induction (Stats.players r) as [| pid pids IH]; intros allStats H; cbn [fold_left].
  - exact H.
  - apply IH. now apply touch_balanced.
Qed.

(** The stats on record hold an entry for p1, who plays the sample game,
    and one for p7, who does not; both are balanced and stay so. *)
Lemma stats_stay_balanced_witness :
  Forall balanced sampleStats
  /\ Forall balanced (Stats.updatePlayerStats sampleStats sampleResult).
Proof.
  assert (H : Forall balanced sampleStats).
  { constructor; [unfold balanced; cbn; lia |].
    constructor; [unfold balanced; cbn; lia | constructor]. }
  split; [exact H |].
  apply (stats_stay_balanced sampleStats sampleResult). exact H.
Defined.

Lemma find_app {A : Type} (f : A -> bool) (xs ys : list A) :
  find f (xs ++ ys) = match find f xs with Some x => Some x | None => find f ys end.
Proof.
  induction xs as [| x xs IH]; cbn; [reflexivity |]. now destruct (f x).
Qed.

Lemma indexOf_prefix_fails {A : Type} (f : A -> bool) (xs : list A) (k : nat) :
  indexOf f xs = Some k -> forall y, In y (firstn k xs) -> f y = false.
Proof.
  revert k. induction xs as [| x xs IH]; intros k; cbn [indexOf]; [discriminate |].
  destruct (f x) eqn:Fx.
  - intros [= <-] y [].
  - destruct (indexOf f xs) as [k' |]; cbn [option_map]; [| discriminate].
    intros [= <-] y [<- | Hy]; [exact Fx | now apply (IH k')].
Qed.

Lemma touch_gamesOf (r : Stats.GameResult) (allStats : list Stats.PlayerStats)
    (q pid : string) :
  gamesOf (Stats.touch r allStats q) pid
  = gamesOf allStats pid + (if String.eqb pid q then 1 else 0).
Proof.
  unfold Stats.touch, gamesOf.
  set (f := fun stats => String.eqb (Stats.playerId stats) q).
  set (P := fun st => String.eqb (Stats.playerId st) pid).
  rewrite findIndex_indexOf.
  destruct (indexOf f allStats) as [k |] eqn:E.
  - destruct (Z.eqb_spec (Z.of_nat k) (-1)) as [| _]; [lia |].
    rewrite mapi_updateAt.
    destruct (indexOf_Some f allStats k E) as (x & Hx & Hfx & _).
    pose proof (indexOf_prefix_fails f allStats k E) as Hbefore.
    unfold updateAt. rewrite Hx.
    rewrite (nth_error_split_at _ _ _ Hx) at 3.
    rewrite !find_app. cbn [find].
    change (P (Stats.count r q x)) with (P x).
    unfold f in Hfx. apply String.eqb_eq in Hfx.
    destruct (String.eqb_spec pid q) as [-> | Hne].
    + assert (Hnone : find P (firstn k allStats) = None).
      { apply find_none_forall. intros y Hy. exact (Hbefore y Hy). }
      rewrite Hnone. unfold P at 1 3. rewrite Hfx, String.eqb_refl.
      cbn [Stats.count Stats.gamesPlayed]. reflexivity.
    + assert (HPx : P x = false).
      { unfold P. rewrite Hfx. apply String.eqb_neq. congruence. }
      rewrite HPx. lia.
  - change (-1 =? -1) with true. cbv iota.
    pose proof (indexOf_None f allStats E) as Hnone.
    rewrite find_app. cbn [find].
    change (P (Stats.count r q (Stats.newStats q))) with (String.eqb q pid).
    destruct (String.eqb_spec pid q) as [-> | Hne].
    + rewrite (proj2 (find_none_forall P allStats) Hnone).
      rewrite String.eqb_refl. reflexivity.
    + destruct (find P allStats); [lia |].
      destruct (String.eqb_spec q pid); [congruence | reflexivity].
Qed.

Lemma touch_ids (r : Stats.GameResult) (allStats : list Stats.PlayerStats) (q : string) :
  exists added,
    map Stats.playerId (Stats.touch r allStats q) = map Stats.playerId allStats ++ added.
Proof.
  unfold Stats.touch.
  set (f := fun stats => String.eqb (Stats.playerId stats) q).
  destruct (Z.eqb_spec (JS.findIndex f allStats) (-1)) as [| Hfound].
  - eexists. rewrite map_app. reflexivity.
  - exists []. rewrite app_nil_r.
    apply (map_mapiFrom _ Stats.playerId Stats.playerId).
    intros x k. now destruct (_ =? _).
Qed.

(** X29: after [updatePlayerStats] the games on record for an id are those
    that were on record before and one more for each time the id is listed
    among the players of the game, whether the player had an entry or not;
    the entries that were loaded keep their places and ids, new ones are
    added behind them. *)
Theorem stats_count_each_game (allStats : list Stats.PlayerStats) (r : Stats.GameResult)
    (pid : string) :
  gamesOf (Stats.updatePlayerStats allStats r) pid
  = gamesOf allStats pid + listed pid (Stats.players r)
  /\ exists added,
       map Stats.playerId (Stats.updatePlayerStats allStats r)
       = map Stats.playerId allStats ++ added.
Proof.
  unfold Stats.updatePlayerStats, listed, JS.len. revert allStats.
  induction (Stats.players r) as [| q qs IH]; intros allStats; cbn [fold_left filter].
  - split; [cbn; lia |]. exists []. now rewrite app_nil_r.
  - destruct (IH (Stats.touch r allStats q)) as [Hgames [added Hids]].
    split.
    + rewrite Hgames, touch_gamesOf.
      destruct (String.eqb pid q); cbn [length]; lia.
    + destruct (touch_ids r allStats q) as [added' E].
      exists (added' ++ added). now rewrite Hids, E, app_assoc.
Qed.

(* ------------------------------------------------------------------------- *)
(** ** The hands after the picker buried *)

Lemma updateAt_0 {A : Type} (g : A -> A) (x : A) (xs : list A) :
  updateAt g 0 (x :: xs) = g x :: xs.
Proof. reflexivity. Qed.

Lemma updateAt_S {A : Type} (g : A -> A) (k : nat) (x : A) (xs : list A) :
  updateAt g (S k) (x :: xs) = x :: updateAt g k xs.
Proof. unfold updateAt. cbn. now destruct (nth_error xs k). Qed.

Lemma updateAt_nil {A : Type} (g : A -> A) (k : nat) : updateAt g k [] = [].
Proof. unfold updateAt. now destruct k. Qed.

Lemma nth_error_updateAt {A : Type} (g : A -> A) (k : nat) (xs : list A) (x : A) :
  nth_error xs k = Some x -> nth_error (updateAt g k xs) k = Some (g x).
Proof.
  revert k. induction xs as [| a xs IH]; intros [| k]; cbn [nth_error]; try discriminate.
  - now intros [= ->].
  - intros H. rewrite updateAt_S. cbn [nth_error]. now apply IH.
Qed.

Lemma nth_error_updateAt_other {A : Type} (g : A -> A) (k j : nat) (xs : list A) :
  j <> k -> nth_error (updateAt g k xs) j = nth_error xs j.
Proof.
  revert k j. induction xs as [| a xs IH]; intros k j Hjk.
  - now rewrite updateAt_nil.
  - destruct k as [| k].
    + rewrite updateAt_0. destruct j; [congruence | reflexivity].
    + rewrite updateAt_S. destruct j; [reflexivity |]. cbn [nth_error].
      apply IH. congruence.
Qed.

Lemma updateAt_twice {A : Type} (g h : A -> A) (k : nat) (xs : list A) :
  updateAt h k (updateAt g k xs) = updateAt (fun x => h (g x)) k xs.
Proof.
  revert k. induction xs as [| a xs IH]; intros k.
  - now rewrite !updateAt_nil.
  - destruct k as [| k]; [reflexivity |]. rewrite !updateAt_S. now rewrite IH.
Qed.

Lemma map_updateAt {A B : Type} (f : A -> B) (g : A -> A) (k : nat) (xs : list A)
    (x : A) :
  nth_error xs k = Some x ->
  map f (updateAt g k xs) = updateAt (fun _ => f (g x)) k (map f xs).
Proof.
  revert k. induction xs as [| a xs IH]; intros [| k]; cbn [nth_error]; try discriminate.
  - now intros [= ->].
  - intros H. cbn [map]. rewrite !updateAt_S. cbn [map]. now rewrite (IH k H).
Qed.

Lemma indexOf_by_ids (pid : string) (ps qs : list Player) :
  map id ps = map id qs ->
  indexOf (fun q => String.eqb (id q) pid) ps = indexOf (fun q => String.eqb (id q) pid) qs.
Proof.
  revert qs. induction ps as [| p ps IH]; intros [| q qs]; cbn [map]; try discriminate.
  - reflexivity.
  - intros [= Hid Hrest]. cbn [indexOf]. now rewrite Hid, (IH qs Hrest).
Qed.

Lemma startGame_picking (env : Env) (s s' : GameState) (newPlayers : list PlayerInit) :
  startGame env s newPlayers = Some s' -> phase s' = PICKING.
Proof.
  unfold startGame.
  destruct (dealCards _ _) as [[ps blind] |]; cbn [bindT]; [| discriminate].
  destruct (JS.atIdx ps _); cbn [bindT]; [| discriminate].
  now intros [= <-].
Qed.

(** Picking and burying change the size of one hand: the picker's, which
    grows by the blind and shrinks by the two cards buried. *)
Lemma pick_and_bury_sizes (env : Env) (s1 s2 s3 : GameState) (pid : string)
    (toBury : list Card) :
  tableOk s1 -> phase s1 = PICKING ->
  pickBlind env s1 pid = Some s2 -> phase s2 = BURYING ->
  fromHand s2 (BURY_CARDS pid toBury) ->
  buryCards env s2 pid toBury = Some s3 -> phase s3 <> BURYING ->
  exists k p,
    indexOf (fun q => String.eqb (id q) pid) (players s1) = Some k
    /\ nth_error (players s1) k = Some p
    /\ map id (players s3) = map id (players s1)
    /\ handSizes s3
       = updateAt (fun _ => (length (cards p) + length (deck s1) - 2)%nat) k
           (handSizes s1).
Proof.
  intros Hok Hph Hpick Hph2 [Hdistinct Hheld] Hbury Hph3.
  pose proof (pickBlind_tableOk env s1 s2 pid Hok Hpick) as Hok2.
  set (f := fun q => String.eqb (id q) pid).
  set (g := fun player => withPicker player (cards player ++ deck s1)).
  assert (Hpicked : exists k, indexOf f (players s1) = Some k
                              /\ players s2 = updateAt g k (players s1)).
  { revert Hpick. unfold pickBlind. fold f. rewrite findIndex_indexOf.
    destruct (indexOf f (players s1)) as [k |]; [| intros [= <-]; congruence].
    destruct (Z.eqb_spec (Z.of_nat k) (-1)) as [| _]; [lia |].
    rewrite Hph. cbn [GamePhase_eqb negb orb].
    rewrite mapi_updateAt. intros [= <-]. eauto. }
  destruct Hpicked as (k & Ek & Hplayers2).
  destruct (indexOf_Some f _ k Ek) as (p & Hp & Hfp & Hbefore).
  assert (Hgp : nth_error (players s2) k = Some (g p)).
  { rewrite Hplayers2. now apply nth_error_updateAt. }
  exists k, p. split; [exact Ek |]. split; [exact Hp |].
  set (f2 := fun q => String.eqb (id q) pid && truthy (isPicker q)).
  assert (Ek2 : indexOf f2 (players s2) = Some k).
  { apply (indexOf_first f2 _ k (g p) Hgp).
    - unfold f2, g. cbn [withPicker id isPicker truthy]. unfold f in Hfp.
      now rewrite Hfp.
    - intros j y Hj Hy. rewrite Hplayers2, nth_error_updateAt_other in Hy by lia.
      unfold f2. pose proof (Hbefore j y Hj Hy) as Hfy. unfold f in Hfy.
      now rewrite Hfy. }
  set (remaining :=
         filter (fun card => negb (existsb (fun c => sameCard c card) toBury))
           (cards (g p))).
  assert (Hburied : JS.len toBury = 2
                    /\ players s3 = updateAt (fun q => withCards q remaining) k (players s2)).
  { revert Hbury. unfold buryCards. rewrite Hph2. cbn [GamePhase_eqb negb orb].
    destruct (Z.eqb_spec (JS.len toBury) 2) as [Hlen |]; cbn [negb];
      [| intros [= <-]; congruence].
    fold f2. rewrite findIndex_indexOf, Ek2.
    destruct (Z.eqb_spec (Z.of_nat k) (-1)) as [| _]; [lia |].
    rewrite at_of_nat, Hgp. cbn [bindT]. rewrite mapi_updateAt.
    intros [= <-]. split; [exact Hlen | reflexivity]. }
  destruct Hburied as (Hlen & Hplayers3).
  rewrite Hplayers3, Hplayers2, updateAt_twice.
  split.
  - apply map_updateAt_same. reflexivity.
  - unfold handSizes. rewrite Hplayers3, Hplayers2, updateAt_twice.
    rewrite (map_updateAt _ _ k _ p Hp). cbn [withCards cards].
    assert (Hsize : length remaining = (length (cards p) + length (deck s1) - 2)%nat).
    { assert (Hin : In (g p) (players s2)) by (eapply nth_error_In; eauto).
      pose proof (tableOk_hand s2 (g p) Hok2 Hin) as Hnd.
      assert (Hkeys : forall c, In c toBury -> In (cardKey c) (map cardKey (cards (g p)))).
      { intros c Hc. apply holds_key. apply (Hheld (g p) Hin); [| reflexivity | exact Hc].
        unfold f in Hfp. now apply String.eqb_eq in Hfp. }
      pose proof (take_out_perm (cards (g p)) toBury Hnd Hdistinct Hkeys) as Hperm.
      apply Permutation_length in Hperm.
      rewrite length_app, !length_map in Hperm. fold remaining in Hperm.
      unfold g in Hperm at 1. cbn [withPicker cards] in Hperm.
      rewrite length_app in Hperm. unfold JS.len in Hlen. lia. }
    now rewrite Hsize.
Qed.

(** X30: after START_GAME, the pick and the burying of two cards held, the
    hands are level at a table of three (ten cards each) and of five (six
    each); at a table of four, where the blind is empty, the picker is left
    with six cards among players who hold eight. *)
Theorem hands_after_burying (env : Env) (s0 s1 s2 s3 : GameState)
    (newPlayers : list PlayerInit) (pid : string) (toBury : list Card) :
  NoDup (map pi_id newPlayers) ->
  gameReducer env s0 (START_GAME newPlayers) = Some s1 ->
  gameReducer env s1 (PICK_BLIND pid) = Some s2 ->
  phase s2 = BURYING ->
  fromHand s2 (BURY_CARDS pid toBury) ->
  gameReducer env s2 (BURY_CARDS pid toBury) = Some s3 ->
  phase s3 <> BURYING ->
  (length newPlayers = 3%nat -> handSizes s3 = [10; 10; 10]%nat)
  /\ (length newPlayers = 5%nat -> handSizes s3 = [6; 6; 6; 6; 6]%nat)
  /\ (length newPlayers = 4%nat ->
      exists k,
        indexOf (fun q => String.eqb (id q) pid) (players s3) = Some k
        /\ handSizes s3 = updateAt (fun _ => 6%nat) k [8; 8; 8; 8]%nat).
Proof.
  intros Hnd Hstart Hpick Hph2 Hfrom Hbury Hph3.
  pose proof (startGame_sizes env s0 s1 newPlayers Hstart) as (H3 & H4 & H5).
  cbn [gameReducer] in Hstart, Hpick, Hbury.
  pose proof (startGame_tableOk env s0 s1 newPlayers Hnd Hstart) as Hok.
  pose proof (startGame_picking env s0 s1 newPlayers Hstart) as Hph.
  destruct (pick_and_bury_sizes env s1 s2 s3 pid toBury Hok Hph Hpick Hph2 Hfrom Hbury Hph3)
    as (k & p & Ek & Hp & Hids & Hsizes).
  assert (Hsize : nth_error (handSizes s1) k = Some (length (cards p))).
  { unfold handSizes. now rewrite nth_error_map, Hp. }
  split; [| split]; intros Hn.
  - destruct (H3 Hn) as [E Hdeck]. rewrite Hsizes, Hdeck. rewrite E in Hsize |- *.
    destruct k as [| [| [| k]]]; cbn in Hsize;
      first [destruct k; discriminate Hsize | injection Hsize as <-; reflexivity].
  - destruct (H5 Hn) as [E Hdeck]. rewrite Hsizes, Hdeck. rewrite E in Hsize |- *.
    destruct k as [| [| [| [| [| k]]]]]; cbn in Hsize;
      first [destruct k; discriminate Hsize | injection Hsize as <-; reflexivity].
  - destruct (H4 Hn) as [E Hdeck]. exists k.
    split; [now rewrite (indexOf_by_ids pid _ _ Hids) |].
    rewrite Hsizes, Hdeck. rewrite E in Hsize |- *.
    destruct k as [| [| [| [| k]]]]; cbn in Hsize;
      first [destruct k; discriminate Hsize | injection Hsize as <-; reflexivity].
Qed.

Lemma hands_after_burying_witness : handSizes buried3 = [10; 10; 10]%nat.
Proof.
  destruct (hands_after_burying env0 initialState dealt3 picked3 buried3 three "p1"
              [c_ CLUBS SEVEN; c_ SPADES EIGHT]) as (H & _).
  - repeat constructor; cbn; intuition discriminate.
  - reflexivity.
  - reflexivity.
  - reflexivity.
  - split.
    + repeat constructor; cbn; intuition discriminate.
    + intros p Hp. cbn in Hp.
      destruct Hp as [<- | [<- | [<- | []]]]; cbn; try discriminate.
      intros _ _ c [<- | [<- | []]]; reflexivity.
  - reflexivity.
  - discriminate.
  - apply H. reflexivity.
Defined.
